(** * LLM Council: debate transcript, presentation components and their properties

    A shallow embedding of the React presentation components of the
    repository (AgentMessage, Stage3, DebateRounds, SynthesisDashboard and
    the submit path of ChatInterface) together with the debate
    orchestration core, whose Python module (backend/council.py) is
    described by the specification and by the design notes of the
    repository. *)

From Stdlib Require Import ZArith NArith List Ascii String Lia Bool.
From stdpp Require Import base option list gmap strings pretty sorting.

#[local] Set Warnings "-register-all".
Local Open Scope string_scope.
Local Open Scope list_scope.

(** ** JavaScript strings

    A JavaScript string is a sequence of UTF-16 code units; [length],
    [charCodeAt], [split('')], [trim] and the regular expressions without
    the [u] flag all work on code units. *)

Abbreviation jsstring := (list N).

(** Decoding of the UTF-8 bytes of a string literal of this file into
    UTF-16 code units, so that literals of the source (accented letters,
    bullets, pictograms) can be written as they are. *)
Fixpoint utf16 (bs : list N) : jsstring :=
  match bs with
  | [] => []
  | b0 :: r0 =>
    if (b0 <? 128)%N then b0 :: utf16 r0
    else match r0 with
    | [] => []
    | b1 :: r1 =>
      if (b0 <? 224)%N then ((b0 - 192) * 64 + (b1 - 128))%N :: utf16 r1
      else match r1 with
      | [] => []
      | b2 :: r2 =>
        if (b0 <? 240)%N
        then ((b0 - 224) * 4096 + (b1 - 128) * 64 + (b2 - 128))%N :: utf16 r2
        else match r2 with
        | [] => []
        | b3 :: r3 =>
          let cp := ((b0 - 240) * 262144 + (b1 - 128) * 4096
                     + (b2 - 128) * 64 + (b3 - 128))%N in
          let v := (cp - 65536)%N in
          (55296 + v / 1024)%N :: (56320 + v mod 1024)%N :: utf16 r3
        end
      end
    end
  end.

Definition str (s : string) : jsstring :=
  utf16 (map N_of_ascii (list_ascii_of_string s)).

(** WhiteSpace and LineTerminator code points of ECMAScript: the characters
    removed by [String.prototype.trim] and matched by the class escape
    [\s]. *)
Definition is_space (c : N) : bool :=
  ((9 <=? c) && (c <=? 13) || (c =? 32) || (c =? 160) || (c =? 5760)
   || (8192 <=? c) && (c <=? 8202) || (c =? 8232) || (c =? 8233)
   || (c =? 8239) || (c =? 8287) || (c =? 12288) || (c =? 65279))%N.

Fixpoint trimStart (s : jsstring) : jsstring :=
  match s with
  | [] => []
  | c :: r => if is_space c then trimStart r else s
  end.

Definition trimEnd (s : jsstring) : jsstring := rev (trimStart (rev s)).

Definition trim (s : jsstring) : jsstring := trimEnd (trimStart s).

(** Truthiness of a string: every string but the empty one. *)
Definition truthy_str (s : jsstring) : bool :=
  match s with [] => false | _ :: _ => true end.

(** Truthiness of a number (integers here): every number but zero. *)
Definition truthy_num (n : Z) : bool := negb (n =? 0)%Z.

(** A value that is either [null]/[undefined] ([None]) or present. *)
Definition truthy_opt {A} (t : A -> bool) (o : option A) : bool :=
  match o with Some a => t a | None => false end.

(** [a || b] on an optional string with a string default. *)
Definition or_default (o : option jsstring) (d : jsstring) : jsstring :=
  match o with
  | Some s => if truthy_str s then s else d
  | None => d
  end.

(** ** React elements

    What a function component returns: [None] stands for [null] (nothing
    is rendered), [Some n] for an element tree.  A child of an element is
    an element, a piece of text, a number-valued expression ([Number] for
    an integer, [Float s] for the number [parseFloat(s)]), a value that
    React does not render ([Nothing]: [null], [undefined], [false]) or a
    markdown block. *)

Inductive handler :=
| SetActiveRound (roundNum : Z).

(** Result of a property read that may fall through to [Object.prototype]:
    an own data property (a string), or a member inherited from
    [Object.prototype] (a function, or the prototype object itself). *)
Inductive member :=
| Own (v : jsstring)
| Inherited (name : jsstring).

Inductive attr :=
| Key (k : Z)
| OnClick (h : handler)
| BackgroundColor (v : member)
| Disabled (b : bool).

Inductive node :=
| Elem (tag : string) (className : string) (attrs : list attr)
       (children : list node)
| Text (s : jsstring)
| Number (n : Z)
| Float (literal : jsstring)
| Nothing
| ReactMarkdown (source : option jsstring).

(** A child expression [{e}] whose value is a string or [undefined]. *)
Definition child (o : option jsstring) : node :=
  match o with Some s => Text s | None => Nothing end.

(** The text a tree puts on the screen, in document order: literal text,
    string- and number-valued expressions and markdown sources. *)
Fixpoint displayed (n : node) : list node :=
  match n with
  | Elem _ _ _ cs => flat_map displayed cs
  | Text s => [Text s]
  | Number k => [Number k]
  | Float s => [Float s]
  | Nothing => []
  | ReactMarkdown (Some s) => [ReactMarkdown (Some s)]
  | ReactMarkdown None => []
  end.

(** Every element of a tree carrying a given class name. *)
Fixpoint by_class (c : string) (n : node) : list node :=
  match n with
  | Elem t c' a cs =>
    (if String.eqb c c' then [n] else []) ++ flat_map (by_class c) cs
  | _ => []
  end.

(** Every element of a tree with a given tag. *)
Fixpoint by_tag (tag : string) (n : node) : list node :=
  match n with
  | Elem t c a cs =>
    (if String.eqb tag t then [n] else []) ++ flat_map (by_tag tag) cs
  | _ => []
  end.

(** The click handlers a tree offers, in document order. *)
Fixpoint handlers (n : node) : list handler :=
  match n with
  | Elem _ _ attrs cs =>
    flat_map (fun a => match a with OnClick h => [h] | _ => [] end) attrs
    ++ flat_map handlers cs
  | _ => []
  end.

(** ** AgentMessage.jsx *)

Module AgentMessage.

(** Pastel colour palette for the known agents. *)
Definition ROLE_COLORS : gmap jsstring jsstring :=
  list_to_map
    [ (str "Avocat", str "#FFE5E5");
      (str "Scientifique", str "#E5F3FF");
      (str "Philosophe", str "#F0E5FF");
      (str "Critique", str "#FFF5E5");
      (str "Juge", str "#E5FFE5") ].

(** Fallback colours for any unexpected role. *)
Definition FALLBACK_COLORS : list jsstring :=
  [ str "#FFE5E5"; str "#E5F3FF"; str "#F0E5FF"; str "#FFF5E5";
    str "#E5FFE5"; str "#FFE5F5"; str "#E5FFFF" ].

(** [ROLE_COLORS] is an object literal, so its prototype is
    [Object.prototype]; a read [ROLE_COLORS[k]] of a key that is not an own
    property finds the members every ordinary object inherits. *)
Definition Object_prototype : list jsstring :=
  map str
    [ "constructor"; "__proto__"; "hasOwnProperty"; "isPrototypeOf";
      "propertyIsEnumerable"; "toLocaleString"; "toString"; "valueOf";
      "__defineGetter__"; "__defineSetter__"; "__lookupGetter__";
      "__lookupSetter__" ].

Definition get (o : gmap jsstring jsstring) (k : jsstring) : option member :=
  match o !! k with
  | Some v => Some (Own v)
  | None =>
    if bool_decide (k ∈ Object_prototype) then Some (Inherited k) else None
  end.

Definition truthy_member (m : member) : bool :=
  match m with
  | Own v => truthy_str v
  | Inherited _ => true
  end.

(** [roleName.split('').reduce((acc, char) => acc + char.charCodeAt(0), 0)]:
    the sum of the code units (far below 2^53 for any string, so exact in
    JavaScript too). *)
Definition hash (roleName : jsstring) : N :=
  fold_left (fun acc char => (acc + char)%N) roleName 0%N.

Definition getAgentColor (roleName : jsstring) : option member :=
  if truthy_opt truthy_member (get ROLE_COLORS roleName)
  then get ROLE_COLORS roleName
  else
    Own <$> FALLBACK_COLORS
            !! N.to_nat (hash roleName mod N.of_nat (length FALLBACK_COLORS)).

(** [<span className="agent-round">Tour {roundNumber}</span>] *)
Definition round_badge (roundNumber : Z) : node :=
  Elem "span" "agent-round" [] [Text (str "Tour "); Number roundNumber].

Definition AgentMessage (roleName : jsstring) (model message : option jsstring)
    (roundNumber : option Z) : node :=
  let backgroundColor := getAgentColor roleName in
  Elem "div" "agent-message-wrapper" []
    [ Elem "div" "agent-message-bubble"
        (match backgroundColor with
         | Some c => [BackgroundColor c]
         | None => []
         end)
        [ Elem "div" "agent-header" []
            [ Elem "span" "agent-role" [] [Text roleName];
              (* {roundNumber && <span className="agent-round">...</span>} *)
              match roundNumber with
              | None => Nothing
              | Some n =>
                if truthy_num n then round_badge n else Number n
              end ];
          Elem "div" "agent-model" [] [child model];
          Elem "div" "agent-content markdown-content" []
            [ReactMarkdown message] ] ].

End AgentMessage.

(** ** Stage3.jsx

    The synthesis object arrives as decoded JSON whose fields are strings:
    a finite map from field names to strings; a missing field reads as
    [undefined] ([None]).  None of the field names read below ([role_name],
    [model], [response], [message]) is a member of [Object.prototype], so
    such a read is the lookup of the own property. *)

Abbreviation object := (gmap string jsstring).

(** The variant that renders the synthesis as a group-chat bubble. *)
Module Stage3.

Definition Stage3 (finalResponse : option object) : option node :=
  match finalResponse with
  | None => None
  | Some finalResponse =>
    Some
      (Elem "div" "stage3-wrapper" []
         [ Elem "div" "stage3-divider" []
             [Elem "span" "" [] [Text (str "Synthèse Finale")]];
           AgentMessage.AgentMessage
             (or_default (finalResponse !! "role_name") (str "Juge"))
             (finalResponse !! "model")
             (finalResponse !! "response")
             None ])
  end.

End Stage3.

(** The variant that renders the synthesis as a titled panel. *)
Module Stage3Panel.

Definition Stage3 (finalResponse : option object) : option node :=
  match finalResponse with
  | None => None
  | Some finalResponse =>
    Some
      (Elem "div" "stage stage3" []
         [ Elem "h3" "stage-title" [] [Text (str "Synthèse Finale du Juge")];
           Elem "p" "stage-description" []
             [Text (str "Le Juge synthétise l'ensemble du débat en une recommandation équilibrée.")];
           Elem "div" "final-response" []
             [ Elem "div" "juge-header" []
                 [ Elem "span" "role-name" []
                     [Text (or_default (finalResponse !! "role_name")
                                       (str "Juge/Synthétiseur"))];
                   Elem "span" "model-name" []
                     [Text (str "("); child (finalResponse !! "model");
                      Text (str ")")] ];
               Elem "div" "final-text markdown-content" []
                 [ReactMarkdown (finalResponse !! "response")] ] ])
  end.

End Stage3Panel.

(** ** DebateRounds.jsx *)

Record Turn := {
  round : Z;
  role_id : jsstring;
  role_name : jsstring;
  model : jsstring;
  message : jsstring
}.

(** The turns of a round. *)
Abbreviation of_round k := (fun t : Turn => round t = k).

Module DebateRounds.

(** The body of the [forEach] that groups the history by rounds: the
    object [rounds] is keyed by the round number. *)
Definition group_turn (rounds : gmap Z (list Turn)) (turn : Turn)
    : gmap Z (list Turn) :=
  let rounds :=
    match rounds !! round turn with
    | None => <[round turn := []]> rounds
    | Some _ => rounds
    end in
  alter (fun l => l ++ [turn]) (round turn) rounds.

Definition rounds (debateHistory : list Turn) : gmap Z (list Turn) :=
  foldl group_turn ∅ debateHistory.

(** [Object.keys(rounds).map(Number).sort((a, b) => a - b)]: the keys are
    pairwise distinct, so the sorted array does not depend on the order in
    which [Object.keys] lists them. *)
Definition roundNumbers (debateHistory : list Turn) : list Z :=
  merge_sort Z.le (elements (dom (rounds debateHistory))).

(** [rounds[activeRound] || []] *)
Definition currentRoundTurns (debateHistory : list Turn) (activeRound : Z)
    : list Turn :=
  default [] (rounds debateHistory !! activeRound).

Definition round_tab (activeRound roundNum : Z) : node :=
  Elem "button"
    ("round-tab " ++ (if bool_decide (activeRound = roundNum) then "active" else ""))
    [Key roundNum; OnClick (SetActiveRound roundNum)]
    [Text (str "Tour "); Number roundNum].

Definition debate_turn (index : nat) (turn : Turn) : node :=
  Elem "div" "debate-turn" [Key (Z.of_nat index)]
    [ Elem "div" "turn-header" []
        [ Elem "span" "role-name" [] [Text (role_name turn)];
          Elem "span" "model-name" []
            [Text (str "("); Text (model turn); Text (str ")")] ];
      Elem "div" "turn-message markdown-content" []
        [ReactMarkdown (Some (message turn))] ].

(** The component state: [useState(1)], changed by the tab handlers. *)
Definition initial_activeRound : Z := 1.

Definition handle (h : handler) (activeRound : Z) : Z :=
  match h with SetActiveRound roundNum => roundNum end.

Definition DebateRounds (debateHistory : option (list Turn)) (activeRound : Z)
    : option node :=
  match debateHistory with
  | None => None
  | Some debateHistory =>
    if (length debateHistory =? 0)%nat then None
    else
      Some
        (Elem "div" "stage debate-rounds" []
           [ Elem "h3" "stage-title" [] [Text (str "Débat Multi-Tours")];
             Elem "p" "stage-description" []
               [Text (str "Les 4 rôles débattent en tours séquentiels, chacun répondant aux arguments des autres.")];
             Elem "div" "round-tabs" []
               (map (round_tab activeRound) (roundNumbers debateHistory));
             Elem "div" "round-content" []
               (Elem "h4" "round-header" []
                  [Text (str "Tour "); Number activeRound]
                :: imap debate_turn
                     (currentRoundTurns debateHistory activeRound)) ])
  end.

(** The order of a transcript: by round ascending, then by the position
    of the role in the fixed debate order ([registry] lists the role
    identifiers in that order). *)
Fixpoint position (registry : list jsstring) (id : jsstring) : option nat :=
  match registry with
  | [] => None
  | id' :: registry' =>
    if bool_decide (id' = id) then Some O else S <$> position registry' id
  end.

Definition turn_before (registry : list jsstring) (t1 t2 : Turn) : Prop :=
  (round t1 < round t2)%Z
  \/ (round t1 = round t2
      /\ exists a b,
           position registry (role_id t1) = Some a
           /\ position registry (role_id t2) = Some b
           /\ (a <= b)%nat).

Definition transcript_ordered (registry : list jsstring)
    (transcript : list Turn) : Prop :=
  StronglySorted (turn_before registry) transcript.

(** The same order as a test. *)
Definition turn_beforeb (registry : list jsstring) (t1 t2 : Turn) : bool :=
  (round t1 <? round t2)%Z
  || (round t1 =? round t2)%Z
     && match position registry (role_id t1), position registry (role_id t2) with
        | Some a, Some b => (a <=? b)%nat
        | _, _ => false
        end.

Fixpoint transcript_orderedb (registry : list jsstring)
    (transcript : list Turn) : bool :=
  match transcript with
  | [] => true
  | t :: transcript' =>
    forallb (turn_beforeb registry t) transcript'
    && transcript_orderedb registry transcript'
  end.

End DebateRounds.

(** ** Regular expressions

    The patterns of SynthesisDashboard.jsx are built from pattern sources
    (one of them by string interpolation), so the model goes through the
    source text: a parser for the fragment of the ECMAScript pattern
    syntax that the component uses, and a backtracking matcher with the
    priorities of the ECMAScript semantics (leftmost start, alternatives
    left to right, greedy and lazy quantifiers). *)

Module RegExp.

Inductive cset :=
| CChar (c : N)      (* a literal character *)
| CSpace             (* \s *)
| CNotSpace          (* \S *)
| CDigit             (* \d *)
| CDot.              (* .  : any character but a line terminator *)

Inductive regex :=
| REmpty
| RSet (items : list cset)               (* one character out of a set *)
| RSeq (r1 r2 : regex)
| RAlt (r1 r2 : regex)
| RStar (greedy : bool) (r : regex)      (* r* and r*? *)
| RGroup (n : nat) (r : regex)           (* the n-th capturing group *)
| RLook (r : regex)                      (* (?=r) *)
| RBol                                   (* ^ *)
| REol                                   (* $ *)
| RFail.                                 (* matches nothing *)

(** *** Pattern syntax *)

Definition chr (a : ascii) : N := N_of_ascii a.

Definition is_alnum (c : N) : bool :=
  ((48 <=? c) && (c <=? 57) || (65 <=? c) && (c <=? 90)
   || (97 <=? c) && (c <=? 122))%N.

(** The character after a backslash: the class escapes [\s], [\S], [\d],
    the control escape [\n] and the identity escapes of punctuation. *)
Definition escape (c : N) : option cset :=
  if (c =? chr "s")%N then Some CSpace
  else if (c =? chr "S")%N then Some CNotSpace
  else if (c =? chr "d")%N then Some CDigit
  else if (c =? chr "n")%N then Some (CChar 10)
  else if is_alnum c then None
  else Some (CChar c).

(** The inside of a character class up to the closing bracket; [first]
    tells whether no class atom has been read yet (a leading [-] is a
    literal; ranges are outside the fragment). *)
Fixpoint parse_class (first : bool) (p : jsstring) (acc : list cset)
    : option (list cset * jsstring) :=
  match p with
  | [] => None
  | c :: p' =>
    if (c =? chr "]")%N then Some (rev acc, p')
    else if (c =? chr "\")%N then
      match p' with
      | [] => None
      | e :: p'' =>
        match escape e with
        | Some x => parse_class false p'' (x :: acc)
        | None => None
        end
      end
    else if (c =? chr "-")%N && negb first then None
    else if (c =? chr "^")%N && first then None
    else parse_class false p' (CChar c :: acc)
  end.

(** A quantifier after an atom: [*], [+], [?], each possibly lazy. *)
Definition quantified (atom : regex) (p : jsstring) : regex * jsstring :=
  let lazy p' :=
    match p' with
    | q :: p'' => if (q =? chr "?")%N then (false, p'') else (true, p')
    | [] => (true, p')
    end in
  match p with
  | c :: p' =>
    if (c =? chr "*")%N then
      let '(g, p'') := lazy p' in (RStar g atom, p'')
    else if (c =? chr "+")%N then
      let '(g, p'') := lazy p' in (RSeq atom (RStar g atom), p'')
    else if (c =? chr "?")%N then
      let '(g, p'') := lazy p' in
      (if g then RAlt atom REmpty else RAlt REmpty atom, p'')
    else (atom, p)
  | [] => (atom, p)
  end.

(** Recursive descent; [n] is the number of the next capturing group
    (groups are numbered by their opening parenthesis, left to right). *)
Fixpoint parse_disjunction (fuel : nat) (p : jsstring) (n : nat)
    : option (regex * jsstring * nat) :=
  match fuel with
  | O => None
  | S fuel =>
    '(a, p1, n1) ← parse_alternative fuel p n;
    match p1 with
    | c :: p1' =>
      if (c =? chr "|")%N then
        '(d, p2, n2) ← parse_disjunction fuel p1' n1;
        Some (RAlt a d, p2, n2)
      else Some (a, p1, n1)
    | [] => Some (a, p1, n1)
    end
  end
with parse_alternative (fuel : nat) (p : jsstring) (n : nat)
    : option (regex * jsstring * nat) :=
  match fuel with
  | O => None
  | S fuel =>
    match p with
    | [] => Some (REmpty, p, n)
    | c :: _ =>
      if (c =? chr "|")%N || (c =? chr ")")%N then Some (REmpty, p, n)
      else
        '(t, p1, n1) ← parse_term fuel p n;
        '(rest, p2, n2) ← parse_alternative fuel p1 n1;
        Some (RSeq t rest, p2, n2)
    end
  end
with parse_term (fuel : nat) (p : jsstring) (n : nat)
    : option (regex * jsstring * nat) :=
  match fuel with
  | O => None
  | S fuel =>
    match p with
    | [] => None
    | c :: p' =>
      if (c =? chr "^")%N then Some (RBol, p', n)
      else if (c =? chr "$")%N then Some (REol, p', n)
      else if (c =? chr "(")%N then
        let close (wrap : regex -> regex) (r : option (regex * jsstring * nat)) :=
          '(d, q, n') ← r;
          match q with
          | c' :: q' =>
            if (c' =? chr ")")%N then Some (wrap d, q', n') else None
          | [] => None
          end in
        match p' with
        | c1 :: c2 :: p'' =>
          if (c1 =? chr "?")%N && (c2 =? chr "=")%N then
            close RLook (parse_disjunction fuel p'' n)
          else if (c1 =? chr "?")%N && (c2 =? chr ":")%N then
            '(r, q, n') ← close (fun d => d) (parse_disjunction fuel p'' n);
            let '(r', q') := quantified r q in Some (r', q', n')
          else if (c1 =? chr "?")%N then None
          else
            '(r, q, n') ← close (RGroup n) (parse_disjunction fuel p' (S n));
            let '(r', q') := quantified r q in Some (r', q', n')
        | _ =>
          '(r, q, n') ← close (RGroup n) (parse_disjunction fuel p' (S n));
          let '(r', q') := quantified r q in Some (r', q', n')
        end
      else if (c =? chr "[")%N then
        '(items, q) ← parse_class true p' [];
        let '(r', q') := quantified (RSet items) q in Some (r', q', n)
      else if (c =? chr "\")%N then
        match p' with
        | e :: q =>
          x ← escape e;
          let '(r', q') := quantified (RSet [x]) q in Some (r', q', n)
        | [] => None
        end
      else if (c =? chr ".")%N then
        let '(r', q') := quantified (RSet [CDot]) p' in Some (r', q', n)
      else if (c =? chr "*")%N || (c =? chr "+")%N || (c =? chr "?")%N
              || (c =? chr "]")%N || (c =? chr "{")%N || (c =? chr "}")%N
      then None
      else
        let '(r', q') := quantified (RSet [CChar c]) p' in Some (r', q', n)
    end
  end.

Definition parse (source : jsstring) : option regex :=
  match parse_disjunction (4 * length source + 4) source 1 with
  | Some (r, [], _) => Some r
  | _ => None
  end.

(** [new RegExp(source)] and regular expression literals.  An ill-formed
    source raises SyntaxError in JavaScript; every source used below is
    well formed, and [RFail] stands for the other case. *)
Definition compile (source : jsstring) : regex := default RFail (parse source).

(** *** Matching *)

(** Canonicalisation under the [i] flag (without [u]): the upper-case
    mapping of a single code unit.  It is given for the code units of
    Basic Latin and Latin-1 and is the identity beyond; the letters of the
    patterns below are Basic Latin letters and [é], and no code unit
    beyond Latin-1 canonicalises to one of those. *)
Definition canonicalize (c : N) : N :=
  if ((97 <=? c) && (c <=? 122))%N then (c - 32)%N
  else if ((224 <=? c) && (c <=? 254) && negb (c =? 247))%N then (c - 32)%N
  else if (c =? 181)%N then 924%N
  else if (c =? 255)%N then 376%N
  else c.

Definition is_line_terminator (c : N) : bool :=
  ((c =? 10) || (c =? 13) || (c =? 8232) || (c =? 8233))%N.

Definition in_cset (icase : bool) (c : N) (x : cset) : bool :=
  match x with
  | CChar a =>
    if icase then (canonicalize a =? canonicalize c)%N else (a =? c)%N
  | CSpace => is_space c
  | CNotSpace => negb (is_space c)
  | CDigit => ((48 <=? c) && (c <=? 57))%N
  | CDot => negb (is_line_terminator c)
  end.

Abbreviation captures := (gmap nat jsstring).

(** [matcher fuel icase r i s c k]: match [r] at index [i], where [s] is
    the rest of the input from [i] on and [c] the captures so far, then
    continue with [k]; the result is the end index and the captures of
    the first successful way to match, in priority order.  [fuel] bounds
    the iterations of a star; each iteration consumes at least one
    character (an empty iteration is rejected, as in ECMAScript), so a
    fuel above the length of the input is never exhausted (lemma
    [matcher_fuel_bounded]). *)
Fixpoint matcher (fuel : nat) (icase : bool) (r : regex) (i : nat)
    (s : jsstring) (c : captures)
    (k : nat -> jsstring -> captures -> option (nat * captures)) {struct fuel}
    : option (nat * captures) :=
  (fix go (r : regex) (i : nat) (s : jsstring) (c : captures)
       (k : nat -> jsstring -> captures -> option (nat * captures)) {struct r}
       : option (nat * captures) :=
     match r with
     | REmpty => k i s c
     | RSet items =>
       match s with
       | [] => None
       | x :: s' =>
         if existsb (in_cset icase x) items then k (S i) s' c else None
       end
     | RSeq r1 r2 => go r1 i s c (fun i' s' c' => go r2 i' s' c' k)
     | RAlt r1 r2 =>
       match go r1 i s c k with
       | Some res => Some res
       | None => go r2 i s c k
       end
     | RStar greedy r' =>
       match fuel with
       | O => k i s c
       | S fuel' =>
         let iterate (_ : unit) :=
           go r' i s c
              (fun i' s' c' =>
                 if (i' =? i)%nat then None
                 else matcher fuel' icase (RStar greedy r') i' s' c' k) in
         if greedy then
           match iterate () with
           | Some res => Some res
           | None => k i s c
           end
         else
           match k i s c with
           | Some res => Some res
           | None => iterate ()
           end
       end
     | RGroup n r' =>
       go r' i s c (fun i' s' c' => k i' s' (<[n := take (i' - i) s]> c'))
     | RLook r' =>
       match go r' i s c (fun i' _ c' => Some (i', c')) with
       | Some (_, c') => k i s c'
       | None => None
       end
     | RBol => if (i =? 0)%nat then k i s c else None
     | REol => match s with [] => k i s c | _ :: _ => None end
     | RFail => None
     end) r i s c k.

(** The match object: [index], the index after the match, [match[0]] and
    the captured groups ([match[n]] is [undefined] for a group that did
    not take part in the match). *)
Record match_result := {
  index : nat;
  end_index : nat;
  whole : jsstring;
  groups : captures
}.

(** Try the start positions from [i] on, left to right. *)
Fixpoint search (fuel : nat) (icase : bool) (r : regex) (i : nat)
    (s : jsstring) : option match_result :=
  match matcher fuel icase r i s ∅ (fun i' _ c' => Some (i', c')) with
  | Some (e, c) =>
    Some {| index := i; end_index := e; whole := take (e - i) s; groups := c |}
  | None =>
    match s with
    | [] => None
    | _ :: s' => search fuel icase r (S i) s'
    end
  end.

(** [regex.exec(text)] for a regular expression whose [lastIndex] is
    [lastIndex] (0 for a pattern without the [g] flag). *)
Definition exec (icase : bool) (r : regex) (text : jsstring) (lastIndex : nat)
    : option match_result :=
  if (length text <? lastIndex)%nat then None
  else search (S (length text)) icase r lastIndex (drop lastIndex text).

(** [text.match(regex)] for a regular expression without the [g] flag. *)
Definition match_ (icase : bool) (r : regex) (text : jsstring)
    : option match_result :=
  exec icase r text 0.

(** [text.replace(regex, '')] for a regular expression without the [g]
    flag: the first match is removed. *)
Definition replace_empty (icase : bool) (r : regex) (text : jsstring)
    : jsstring :=
  match match_ icase r text with
  | Some m => take (index m) text ++ drop (end_index m) text
  | None => text
  end.

(** [text.split(regex)[0]] for a regular expression that matches no empty
    string: the part of the text before the first match. *)
Definition split_head (icase : bool) (r : regex) (text : jsstring)
    : jsstring :=
  match match_ icase r text with
  | Some m => take (index m) text
  | None => text
  end.

End RegExp.

(** [text.split(sep)] for a one-character separator. *)
Fixpoint split_char (sep : N) (text : jsstring) : list jsstring :=
  match text with
  | [] => [[]]
  | c :: text' =>
    if (c =? sep)%N then [] :: split_char sep text'
    else
      match split_char sep text' with
      | piece :: pieces => (c :: piece) :: pieces
      | [] => [[c]]
      end
  end.

(** ** SynthesisDashboard.jsx *)

Module SynthesisDashboard.

Import RegExp.

Record score_item := {
  criterion : jsstring;
  score : jsstring;      (* the numeral given to [parseFloat] *)
  maxScore : jsstring    (* the numeral given to [parseFloat] *)
}.

Section Extraction.

(** [const text = synthesis.message;] the helpers below close over it. *)
Variable text : jsstring.

(** The two patterns of [extractSection], built from the section name by
    interpolation into the pattern source, with the flag [i]. *)
Definition section_sources (sectionName : jsstring) : list jsstring :=
  [ str "##\s*" ++ sectionName ++ str "[:\s]*\n([\s\S]*?)(?=##|$)";
    str "\*\*" ++ sectionName ++ str "[:\s]*\*\*([\s\S]*?)(?=\*\*|##|$)" ].

Definition section_patterns (sectionName : jsstring) : list regex :=
  map compile (section_sources sectionName).

Fixpoint first_section (patterns : list regex) : option jsstring :=
  match patterns with
  | [] => None
  | pattern :: patterns' =>
    match match_ true pattern text with
    | Some m =>
      match groups m !! 1%nat with
      | Some g => if truthy_str g then Some (trim g) else first_section patterns'
      | None => first_section patterns'
      end
    | None => first_section patterns'
    end
  end.

Definition extractSection (sectionName : jsstring) : option jsstring :=
  first_section (section_patterns sectionName).

(** The multi-criteria score pattern, with the flags [g] and [i]. *)
Definition scorePattern : regex :=
  compile (str "(?:Feasibility|Risk|Financial|Regulatory|Strategic).*?[:)]?\s*(\d+(?:\.\d+)?)\s*[/\/]?\s*(\d+)").

(** The [while ((match = scorePattern.exec(text)) !== null)] loop; every
    match is at least six characters long, so [lastIndex] grows at each
    turn and the loop runs at most [length text] times (lemma
    [scores_loop_fuel]).  The numbers of an entry are kept as the numerals
    that [parseFloat] reads; its percentage, a floating-point quotient,
    is left out. *)
Fixpoint scores_loop (fuel : nat) (lastIndex : nat) : list score_item :=
  match fuel with
  | O => []
  | S fuel' =>
    match exec true scorePattern text lastIndex with
    | None => []
    | Some m =>
      {| criterion := trim (split_head false (compile (str "[:)]")) (whole m));
         score := default [] (groups m !! 1%nat);
         maxScore := default [] (groups m !! 2%nat) |}
      :: scores_loop fuel' (end_index m)
    end
  end.

Definition extractScores : option (list score_item) :=
  let scores := scores_loop (S (length text)) 0 in
  if (0 <? length scores)%nat then Some scores else None.

End Extraction.

Definition bullet : regex := compile (str "^[-*•]\s+").

(** Extract bullet points from a section. *)
Definition extractBulletPoints (sectionText : option jsstring)
    : list jsstring :=
  match sectionText with
  | None => []
  | Some sectionText =>
    if negb (truthy_str sectionText) then []
    else
      let lines := split_char 10 sectionText in
      map (fun line => replace_empty false bullet (trim line))
          (List.filter
             (fun line => bool_decide (is_Some (match_ false bullet (trim line))))
             lines)
  end.

Definition list_item (idx : nat) (point : jsstring) : node :=
  Elem "li" "" [Key (Z.of_nat idx)] [Text point].

Definition risk_item (idx : nat) (risk : jsstring) : node :=
  Elem "li" "risk-item" [Key (Z.of_nat idx)]
    [ Elem "span" "risk-badge" [] [Text (str "R"); Number (Z.of_nat idx + 1)];
      Text risk ].

Definition scenario_card (idx : nat) (scenario : jsstring) : node :=
  Elem "div" "scenario-card" [Key (Z.of_nat idx)]
    [ Elem "div" "scenario-number" []
        [Text (str "Scenario "); Number (Z.of_nat idx + 1)];
      Elem "div" "scenario-text" [] [Text scenario] ].

(** One bar of the evaluation; the inline style of [score-fill] (a width
    and a colour computed from the floating-point percentage) is left
    out. *)
Definition score_bar (idx : nat) (item : score_item) : node :=
  Elem "div" "score-item" [Key (Z.of_nat idx)]
    [ Elem "div" "score-label" []
        [ Elem "span" "" [] [Text (criterion item)];
          Elem "span" "score-value" []
            [Float (score item); Text (str "/"); Float (maxScore item)] ];
      Elem "div" "score-bar" [] [Elem "div" "score-fill" [] []] ].

(** [{cond && (<element/>)}] *)
Definition when (cond : bool) (n : node) : node :=
  if cond then n else Nothing.

Definition SynthesisDashboard (synthesis : option object) : option node :=
  match synthesis with
  | None => None
  | Some synthesis =>
    match synthesis !! "message" with
    | None => None
    | Some text =>
      if negb (truthy_str text) then None
      else
        let consensus := extractSection text (str "Consensus|Points? of Consensus") in
        let divergence :=
          extractSection text (str "Divergence|Disagreements?|Points? of Divergence") in
        let risks := extractSection text (str "Critical Risks?|Risques Critiques") in
        let scenarios :=
          extractSection text (str "Alternative Scenarios?|Scénarios Alternatifs") in
        let scores := extractScores text in
        let consensusPoints := extractBulletPoints consensus in
        let divergencePoints := extractBulletPoints divergence in
        let riskPoints := extractBulletPoints risks in
        let scenarioPoints := extractBulletPoints scenarios in
        let hasData :=
          (0 <? length consensusPoints)%nat
          || (0 <? length divergencePoints)%nat
          || (0 <? length riskPoints)%nat
          || (0 <? length scenarioPoints)%nat
          || bool_decide (is_Some scores) in
        if negb hasData then None
        else
          Some
            (Elem "div" "synthesis-dashboard" []
               [ Elem "div" "dashboard-header" []
                   [Elem "h3" "" [] [Text (str "📊 Decision Analysis Dashboard")]];
                 Elem "div" "dashboard-grid" []
                   [ when ((0 <? length consensusPoints)%nat
                           || (0 <? length divergencePoints)%nat)
                       (Elem "div" "dashboard-section consensus-divergence" []
                          [ Elem "div" "section-header" []
                              [Text (str "Consensus & Divergence")];
                            Elem "div" "two-column" []
                              [ when (0 <? length consensusPoints)%nat
                                  (Elem "div" "consensus-box" []
                                     [ Elem "h4" "" []
                                         [Text (str "✓ Points of Consensus")];
                                       Elem "ul" "" []
                                         (imap list_item (take 3 consensusPoints)) ]);
                                when (0 <? length divergencePoints)%nat
                                  (Elem "div" "divergence-box" []
                                     [ Elem "h4" "" []
                                         [Text (str "⚡ Points of Divergence")];
                                       Elem "ul" "" []
                                         (imap list_item (take 3 divergencePoints)) ]) ] ]);
                     when (0 <? length riskPoints)%nat
                       (Elem "div" "dashboard-section risks" []
                          [ Elem "div" "section-header" []
                              [Text (str "⚠️ Critical Risks")];
                            Elem "ul" "risk-list" []
                              (imap risk_item (take 4 riskPoints)) ]);
                     when (0 <? length scenarioPoints)%nat
                       (Elem "div" "dashboard-section scenarios" []
                          [ Elem "div" "section-header" []
                              [Text (str "🔄 Alternative Scenarios")];
                            Elem "div" "scenario-cards" []
                              (imap scenario_card (take 3 scenarioPoints)) ]);
                     match scores with
                     | None => Nothing
                     | Some scores =>
                       when (0 <? length scores)%nat
                         (Elem "div" "dashboard-section scores" []
                            [ Elem "div" "section-header" []
                                [Text (str "📈 Multi-Criteria Evaluation")];
                              Elem "div" "score-bars" []
                                (imap score_bar scores) ])
                     end ] ])
    end
  end.

End SynthesisDashboard.

(** ** ChatInterface.jsx: the submit path and the message list *)

Module ChatInterface.

Record File := { name : jsstring }.

(** The component state ([useState]) and the value of the file input the
    ref points to ([None] while the ref is not attached). *)
Record state := {
  input : jsstring;
  selectedFiles : list File;
  fileInput : option jsstring
}.

(** What a handler calls outside the component. *)
Inductive call :=
| preventDefault
| onSendMessage (content : jsstring) (files : list File).

Definition handleSubmit (isLoading : bool) (st : state) : list call * state :=
  if truthy_str (trim (input st)) && negb isLoading then
    ( [preventDefault; onSendMessage (input st) (selectedFiles st)],
      {| input := [];
         selectedFiles := [];
         fileInput := match fileInput st with
                      | Some _ => Some []
                      | None => None
                      end |} )
  else ([preventDefault], st).

(** [setSelectedFiles((prev) => [...prev, ...files])] *)
Definition handleFileSelect (files : list File) (st : state) : state :=
  {| input := input st;
     selectedFiles := selectedFiles st ++ files;
     fileInput := fileInput st |}.

(** [prev.filter((_, i) => i !== index)] *)
Fixpoint filter_index {A} (keep : nat -> bool) (i : nat) (l : list A) : list A :=
  match l with
  | [] => []
  | x :: l' =>
    if keep i then x :: filter_index keep (S i) l' else filter_index keep (S i) l'
  end.

Definition handleRemoveFile (index : nat) (st : state) : state :=
  {| input := input st;
     selectedFiles :=
       filter_index (fun i => negb (i =? index)%nat) 0 (selectedFiles st);
     fileInput := fileInput st |}.

(** [onChange={(e) => setInput(e.target.value)}] *)
Definition handleChange (value : jsstring) (st : state) : state :=
  {| input := value;
     selectedFiles := selectedFiles st;
     fileInput := fileInput st |}.

Record KeyboardEvent := { key : jsstring; shiftKey : bool }.

(** Submit on Enter (without Shift). *)
Definition handleKeyDown (isLoading : bool) (e : KeyboardEvent) (st : state)
    : list call * state :=
  if bool_decide (key e = str "Enter") && negb (shiftKey e) then
    let '(calls, st') := handleSubmit isLoading st in
    (preventDefault :: calls, st')
  else ([], st).

Definition send_button (isLoading : bool) (st : state) : node :=
  Elem "button" "send-button"
    [Disabled (negb (truthy_str (trim (input st))) || isLoading)]
    [Text (str "Send")].

(** [msg.stage1 && msg.stage1.map((turn, idx) => <AgentMessage ... />)] *)
Definition stage1_message (idx : nat) (turn : Turn) : node :=
  AgentMessage.AgentMessage (role_name turn) (Some (model turn))
    (Some (message turn)) (Some (round turn)).

Definition stage1_messages (stage1 : option (list Turn)) : list node :=
  match stage1 with
  | None => []
  | Some stage1 => imap stage1_message stage1
  end.

(** [msg.stage3 && <Stage3 finalResponse={msg.stage3} />] *)
Definition stage3_message (stage3 : option object) : option node :=
  match stage3 with
  | None => None
  | Some _ => Stage3.Stage3 stage3
  end.

End ChatInterface.

(** ** The debate orchestration core

    The Python module that runs the debate (backend/council.py:
    [run_multi_round_debate], [_build_debate_context],
    [_juge_synthesize_debate]) is not among the sources; the repository
    only documents its signatures and data structures.  The definitions
    of this module follow the specification of the core, component by
    component. *)

Module Core.

Module Role.
Record t := {
  role_id : jsstring;
  role_name : jsstring;
  model_id : jsstring;
  debate_instructions : jsstring;
  synthesis_instructions : jsstring;
  participates_in_debate : bool;
  is_synthesizer : bool
}.
End Role.

Module Turn.
Record t := {
  round : nat;
  role_id : jsstring;
  role_name : jsstring;
  model_id : jsstring;
  message : jsstring;
  sequence_index : nat
}.
End Turn.

Module Synthesis.
Record t := {
  role_id : jsstring;
  role_name : jsstring;
  model_id : jsstring;
  response : jsstring
}.
End Synthesis.

Inductive Speaker :=
| System
| User
| Participant (role_name : jsstring).

Record ContextEntry := { speaker : Speaker; text : jsstring }.

Inductive Status := running | completed | failed.

(** Where a model invocation failed: a debate turn, or the synthesis. *)
Inductive Stage :=
| DebateTurn (round : nat)
| SynthesisStage.

Record InvocationError := { failed_role : jsstring; failed_stage : Stage }.

Inductive ProgressEvent :=
| turn_started (round : nat) (role_id : jsstring)
| turn_completed (round : nat) (role_id : jsstring)
| turn_failed (round : nat) (role_id : jsstring)
| synthesis_started (role_id : jsstring)
| synthesis_completed (role_id : jsstring).

Record DebateSession := {
  transcript : list Turn.t;
  synthesis : option Synthesis.t;
  total_rounds : nat;
  next_sequence_index : nat;
  status : Status;
  failure : option InvocationError;
  events : list ProgressEvent
}.

(** The sequence indices of a transcript are the positions of its turns,
    and the next index is its length. *)
Definition indexed (s : DebateSession) : Prop :=
  next_sequence_index s = length (transcript s)
  /\ forall i turn, transcript s !! i = Some turn -> Turn.sequence_index turn = i.

Definition decimal (n : nat) : jsstring := str (pretty n).

(** Modelled from the spec: the standing directive of the system entry of
    [_build_debate_context] (section 4.2, item 1); the wording is the one
    of the design notes of the repository. *)
Definition debate_directive (roundIndex totalRounds : nat) : jsstring :=
  str "

DEBATE CONTEXT:
You are participating in Round " ++ decimal roundIndex ++ str " of "
  ++ decimal totalRounds ++ str " in a structured debate council.
Your goal is to:
- Build on previous arguments (yours and others')
- Respond to counter-arguments from other roles
- Introduce new points and perspectives relevant to your role
- Avoid repetition - reference previous points briefly rather than restating them
- Keep your response focused and concise (2-3 paragraphs)

Remember: Each role brings a different perspective. Engage with their arguments constructively.".

Section Session.

(** The Role Registry snapshot: the debate roles in their fixed order, and
    the synthesizer. *)
Variable debateRoles : list Role.t.
Variable synthesizer : Role.t.

(** The Model Invocation Service: the answer to the invocation with the
    given number of earlier invocations in the session, a model identifier
    and an ordered context; [None] is a failure. *)
Variable invoke : nat -> jsstring -> list ContextEntry -> option jsstring.

(** The slot of a role in the fixed debate order. *)
Fixpoint slot_in (roles : list Role.t) (role_id : jsstring) : option nat :=
  match roles with
  | [] => None
  | role :: roles' =>
    if bool_decide (Role.role_id role = role_id) then Some O
    else S <$> slot_in roles' role_id
  end.

Definition slot (role_id : jsstring) : option nat :=
  slot_in debateRoles role_id.

(** Modelled from the spec: the selection of item 3 of section 4.2 (the
    body of [_build_debate_context] is missing): a turn is prior to the
    slot of [role] in round [roundIndex] when its round is strictly before
    [roundIndex], or when it is a turn of [roundIndex] whose role comes
    before [role] in the debate order. *)
Definition is_prior (role : Role.t) (roundIndex : nat) (turn : Turn.t) : bool :=
  (Turn.round turn <? roundIndex)%nat
  || (Turn.round turn =? roundIndex)%nat
     && match slot (Turn.role_id turn), slot (Role.role_id role) with
        | Some a, Some b => (a <? b)%nat
        | _, _ => false
        end.

Definition prior_turns (role : Role.t) (transcript : list Turn.t)
    (roundIndex : nat) : list Turn.t :=
  List.filter (is_prior role roundIndex) transcript.

(** The order of a transcript: by round, then by slot. *)
Definition before (t1 t2 : Turn.t) : Prop :=
  (Turn.round t1 < Turn.round t2)%nat
  \/ (Turn.round t1 = Turn.round t2
      /\ exists a b,
           slot (Turn.role_id t1) = Some a
           /\ slot (Turn.role_id t2) = Some b
           /\ (a <= b)%nat).

(** The transcript while round [r] runs and its first [j] roles have
    spoken: ordered, and made of the earlier rounds and of those [j]
    turns. *)
Definition in_round (r j : nat) (s : DebateSession) : Prop :=
  StronglySorted before (transcript s)
  /\ forall t,
       t ∈ transcript s ->
       (Turn.round t < r)%nat
       \/ (Turn.round t = r
           /\ exists a, slot (Turn.role_id t) = Some a /\ (a < j)%nat).

Definition turn_entry (turn : Turn.t) : ContextEntry :=
  {| speaker := Participant (Turn.role_name turn); text := Turn.message turn |}.

(** Modelled from the spec: the Context Builder of section 4.2
    ([_build_debate_context], whose body is missing): a system entry with
    the debate instructions of the role, the round metadata and the
    standing directive; the user question, verbatim; every prior turn of
    the transcript, tagged with its role name, in transcript order. *)
Definition buildContext (userQuery : jsstring) (role : Role.t)
    (transcript : list Turn.t) (roundIndex totalRounds : nat)
    : list ContextEntry :=
  {| speaker := System;
     text := Role.debate_instructions role
             ++ debate_directive roundIndex totalRounds |}
  :: {| speaker := User; text := userQuery |}
  :: map turn_entry (prior_turns role transcript roundIndex).

(** Modelled from the spec: the Turn Executor of section 4.3 (part of the
    missing [run_multi_round_debate]): one invocation, no retry; the text
    is wrapped into a turn with the supplied round and sequence index. *)
Definition executeTurn (calls : nat) (role : Role.t)
    (context : list ContextEntry) (round sequence_index : nat)
    : Turn.t + InvocationError :=
  match invoke calls (Role.model_id role) context with
  | Some text =>
    inl {| Turn.round := round;
           Turn.role_id := Role.role_id role;
           Turn.role_name := Role.role_name role;
           Turn.model_id := Role.model_id role;
           Turn.message := text;
           Turn.sequence_index := sequence_index |}
  | None =>
    inr {| failed_role := Role.role_id role; failed_stage := DebateTurn round |}
  end.

Variable userQuery : jsstring.
Variable totalRounds : nat.

Definition initial : DebateSession :=
  {| transcript := [];
     synthesis := None;
     total_rounds := totalRounds;
     next_sequence_index := 0;
     status := running;
     failure := None;
     events := [] |}.

(** Modelled from the spec: one turn of the transition rule of section
    4.4: build the context, execute the turn, append the turn to the
    transcript and advance the sequence index; an invocation error moves
    the session to [failed] and keeps the transcript accumulated so
    far. *)
Definition run_turn (roundIndex : nat) (role : Role.t) (s : DebateSession)
    : DebateSession :=
  let context := buildContext userQuery role (transcript s) roundIndex totalRounds in
  let started := events s ++ [turn_started roundIndex (Role.role_id role)] in
  match executeTurn (next_sequence_index s) role context roundIndex
                    (next_sequence_index s) with
  | inl turn =>
    {| transcript := transcript s ++ [turn];
       synthesis := synthesis s;
       total_rounds := total_rounds s;
       next_sequence_index := S (next_sequence_index s);
       status := status s;
       failure := failure s;
       events := started ++ [turn_completed roundIndex (Role.role_id role)] |}
  | inr e =>
    {| transcript := transcript s;
       synthesis := synthesis s;
       total_rounds := total_rounds s;
       next_sequence_index := next_sequence_index s;
       status := failed;
       failure := Some e;
       events := started ++ [turn_failed roundIndex (Role.role_id role)] |}
  end.

(** One round: every role of the registry in its fixed order, stopping at
    the first failure. *)
Fixpoint run_round (roles : list Role.t) (roundIndex : nat) (s : DebateSession)
    : DebateSession :=
  match roles with
  | [] => s
  | role :: roles' =>
    let s' := run_turn roundIndex role s in
    match status s' with
    | failed => s'
    | _ => run_round roles' roundIndex s'
    end
  end.

(** The rounds [roundIndex], [roundIndex + 1], ... ([rounds] of them),
    strictly one after the other. *)
Fixpoint run_rounds (rounds : nat) (roundIndex : nat) (s : DebateSession)
    : DebateSession :=
  match rounds with
  | O => s
  | S rounds' =>
    let s' := run_round debateRoles roundIndex s in
    match status s' with
    | failed => s'
    | _ => run_rounds rounds' (S roundIndex) s'
    end
  end.

(** The transcript with explicit round boundaries, in round-then-role
    order, as the synthesis context presents it. *)
Definition format_turn (turn : Turn.t) : jsstring :=
  str "**" ++ Turn.role_name turn ++ str "** (" ++ Turn.role_id turn
  ++ str "):
" ++ Turn.message turn ++ str "

".

Definition format_round (transcript : list Turn.t) (r : nat) : jsstring :=
  str "=== Round " ++ decimal r ++ str " ===
"
  ++ concat (map format_turn
               (List.filter (fun turn => (Turn.round turn =? r)%nat) transcript)).

(** Modelled from the spec: the Synthesis Stage of section 4.5
    ([_juge_synthesize_debate], whose body is missing): a single context,
    made of a system entry from the synthesis instructions and of the
    question with the complete transcript, and exactly one invocation. *)
Definition synthesize (calls : nat) (transcript : list Turn.t)
    : Synthesis.t + InvocationError :=
  let context :=
    [ {| speaker := System;
         text := Role.synthesis_instructions synthesizer
                 ++ str "

Reconcile the perspectives of the debate, surface the points of consensus and of divergence, and give an actionable recommendation." |};
      {| speaker := User;
         text := str "Original Question: " ++ userQuery ++ str "

COMPLETE DEBATE TRANSCRIPT:

" ++ concat (map (format_round transcript) (seq 1 totalRounds)) ++ str "
Your task: Synthesize this debate into a clear, actionable answer to the user's question." |} ] in
  match invoke calls (Role.model_id synthesizer) context with
  | Some text =>
    inl {| Synthesis.role_id := Role.role_id synthesizer;
           Synthesis.role_name := Role.role_name synthesizer;
           Synthesis.model_id := Role.model_id synthesizer;
           Synthesis.response := text |}
  | None =>
    inr {| failed_role := Role.role_id synthesizer;
           failed_stage := SynthesisStage |}
  end.

(** Modelled from the spec: the Debate Orchestrator of section 4.4
    ([run_multi_round_debate], whose body is missing): the rounds 1 to
    [totalRounds], then, when all of them are complete, the synthesis; a
    failed synthesis marks the session [failed] and leaves the completed
    transcript in place. *)
Definition run_multi_round_debate : DebateSession :=
  let s := run_rounds totalRounds 1 initial in
  match status s with
  | failed => s
  | _ =>
    let started := events s ++ [synthesis_started (Role.role_id synthesizer)] in
    match synthesize (next_sequence_index s) (transcript s) with
    | inl result =>
      {| transcript := transcript s;
         synthesis := Some result;
         total_rounds := total_rounds s;
         next_sequence_index := next_sequence_index s;
         status := completed;
         failure := None;
         events := started ++ [synthesis_completed (Role.role_id synthesizer)] |}
    | inr e =>
      {| transcript := transcript s;
         synthesis := None;
         total_rounds := total_rounds s;
         next_sequence_index := next_sequence_index s;
         status := failed;
         failure := Some e;
         events := started |}
    end
  end.

End Session.

(** Modelled from the spec: the Session Assembler of sections 4.6 and 6
    (missing with the module of the core): the external shape of a turn
    and of the synthesis, decoded by the presentation layer.  The model
    identifier travels under the field name [model], the one the
    repository documents for its payload and its components read. *)
Definition payload_turn (turn : Turn.t) : Turn :=
  Build_Turn (Z.of_nat (Turn.round turn)) (Turn.role_id turn)
    (Turn.role_name turn) (Turn.model_id turn) (Turn.message turn).

Definition payload_synthesis (s : Synthesis.t) : object :=
  list_to_map
    [ ("role_id", Synthesis.role_id s);
      ("role_name", Synthesis.role_name s);
      ("model", Synthesis.model_id s);
      ("response", Synthesis.response s) ].

End Core.

(** ** Further observations on element trees *)

(** The background colours set in a tree, in document order. *)
Fixpoint backgrounds (n : node) : list member :=
  match n with
  | Elem _ _ attrs cs =>
    flat_map (fun a => match a with BackgroundColor v => [v] | _ => [] end) attrs
    ++ flat_map backgrounds cs
  | _ => []
  end.

(** ** The role files (backend/roles): the front matter of each file *)

Module RoleFiles.

Record front_matter := {
  role_name : jsstring;
  role_id : jsstring;
  model : jsstring;
  participates_in_stage1 : bool;
  participates_in_stage2 : bool;
  participates_in_stage3 : bool
}.

Definition devils_advocate : front_matter :=
  {| role_name := str "Devil's Advocate";
     role_id := str "devils_advocate";
     model := str "llama3.2:3b";
     participates_in_stage1 := true;
     participates_in_stage2 := true;
     participates_in_stage3 := false |}.

Definition optimist : front_matter :=
  {| role_name := str "Optimiste/Champion";
     role_id := str "optimist";
     model := str "llama3.2:3b";
     participates_in_stage1 := true;
     participates_in_stage2 := true;
     participates_in_stage3 := false |}.

Definition regulator : front_matter :=
  {| role_name := str "Régulateur/Compliance";
     role_id := str "regulator";
     model := str "llama3.2:3b";
     participates_in_stage1 := true;
     participates_in_stage2 := true;
     participates_in_stage3 := false |}.

Definition cfo : front_matter :=
  {| role_name := str "CFO/Analyste Financier";
     role_id := str "cfo";
     model := str "llama3.2:3b";
     participates_in_stage1 := true;
     participates_in_stage2 := true;
     participates_in_stage3 := false |}.

Definition juge : front_matter :=
  {| role_name := str "Juge/Synthétiseur";
     role_id := str "juge";
     model := str "llama3.2:3b";
     participates_in_stage1 := false;
     participates_in_stage2 := false;
     participates_in_stage3 := true |}.

Definition all : list front_matter :=
  [devils_advocate; optimist; regulator; cfo; juge].

End RoleFiles.

(** The numbers of the capturing groups of a pattern. *)
Fixpoint group_numbers (r : RegExp.regex) : list nat :=
  match r with
  | RegExp.RSeq r1 r2 | RegExp.RAlt r1 r2 =>
    group_numbers r1 ++ group_numbers r2
  | RegExp.RStar _ r' | RegExp.RLook r' => group_numbers r'
  | RegExp.RGroup n r' => n :: group_numbers r'
  | _ => []
  end.

Arguments str : simpl never.

(** ** Sample data *)

Module Samples.

Definition turn_1 : Turn :=
  {| round := 1;
     role_id := str "devils_advocate";
     role_name := str "Devil's Advocate";
     model := str "llama3.2:3b";
     message := str "From a risk perspective, this proposal..." |}.

Definition turn (r : Z) (id name : string) : Turn :=
  {| round := r;
     role_id := str id;
     role_name := str name;
     model := str "llama3.2:3b";
     message := str "..." |}.

Definition registry : list jsstring :=
  map str ["devils_advocate"; "optimist"; "regulator"; "cfo"].

(** Round 1 complete, round 2 interrupted after its second turn. *)
Definition partial_transcript : list Turn :=
  [ turn 1 "devils_advocate" "Devil's Advocate";
    turn 1 "optimist" "Optimiste/Champion";
    turn 1 "regulator" "Régulateur/Compliance";
    turn 1 "cfo" "CFO/Analyste Financier";
    turn 2 "devils_advocate" "Devil's Advocate";
    turn 2 "optimist" "Optimiste/Champion" ].

Definition juge_synthesis : object :=
  list_to_map
    [ ("role_id", str "juge");
      ("role_name", str "Juge/Synthétiseur");
      ("model", str "llama3.1:8b");
      ("response", str "After considering all perspectives...") ].

(** The text of a synthesis with its labelled sections and scores. *)
Definition synthesis_text : jsstring :=
  str "The council recommends a six-month pilot.

**Points of Consensus:**
- A pilot limits the exposure
- Productivity must be measured
- Client coverage stays at five days
- The pilot is reviewed after six months
- The results are published

**Points of Divergence:**
- The cost of additional hiring

**Risques Critiques:**
- Burnout on compressed days
- Uneven load between teams
- Loss of client coverage
- Payroll rules for part-time staff
- Morale if the pilot is cancelled

**Scénarios Alternatifs:**
- A nine-day fortnight
- Seasonal four-day weeks
- Team by team opt-in
- Half-day Fridays

## Evaluation
Feasibility: 7/10
Risk: 4/10
".

Definition synthesis : Core.Synthesis.t :=
  {| Core.Synthesis.role_id := str "juge";
     Core.Synthesis.role_name := str "Juge/Synthétiseur";
     Core.Synthesis.model_id := str "llama3.1:8b";
     Core.Synthesis.response := synthesis_text |}.

Definition debate_role (id name : string) : Core.Role.t :=
  {| Core.Role.role_id := str id;
     Core.Role.role_name := str name;
     Core.Role.model_id := str "llama3.2:3b";
     Core.Role.debate_instructions := str "You are a member of this council.";
     Core.Role.synthesis_instructions := [];
     Core.Role.participates_in_debate := true;
     Core.Role.is_synthesizer := false |}.

Definition debateRoles : list Core.Role.t :=
  [ debate_role "devils_advocate" "Devil's Advocate";
    debate_role "optimist" "Optimiste/Champion";
    debate_role "regulator" "Régulateur/Compliance";
    debate_role "cfo" "CFO/Analyste Financier" ].

Definition juge : Core.Role.t :=
  {| Core.Role.role_id := str "juge";
     Core.Role.role_name := str "Juge/Synthétiseur";
     Core.Role.model_id := str "llama3.1:8b";
     Core.Role.debate_instructions := [];
     Core.Role.synthesis_instructions := str "You are the Juge/Synthesizer.";
     Core.Role.participates_in_debate := false;
     Core.Role.is_synthesizer := true |}.

(** A service that always answers: the answer tells how many entries the
    context had. *)
Definition answering (calls : nat) (model_id : jsstring)
    (context : list Core.ContextEntry) : option jsstring :=
  Some (str "context of " ++ Core.decimal (length context) ++ str " entries").

(** A service whose seventh invocation fails. *)
Definition failing_at_7 (calls : nat) (model_id : jsstring)
    (context : list Core.ContextEntry) : option jsstring :=
  if (calls =? 6)%nat then None else answering calls model_id context.

Definition file (n : string) : ChatInterface.File :=
  {| ChatInterface.name := str n |}.

(** A question typed with two files attached. *)
Definition with_files : ChatInterface.state :=
  {| ChatInterface.input := str "Review the attached budget";
     ChatInterface.selectedFiles := [file "budget.xlsx"; file "notes.txt"];
     ChatInterface.fileInput := Some (str "notes.txt") |}.

Definition typed_question : ChatInterface.state :=
  {| ChatInterface.input := str "Should we adopt a 4-day work week?";
     ChatInterface.selectedFiles := [];
     ChatInterface.fileInput := Some [] |}.

End Samples.

(** * Properties *)

(** ** Regular expressions *)

Section RegExpFacts.

Import RegExp.

Variable icase : bool.

Abbreviation continuation :=
  (nat -> jsstring -> captures -> option (nat * captures)).

(** The defining equations of the matcher. *)
Lemma matcher_unfold (fuel : nat) (r : regex) (i : nat) (s : jsstring)
    (c : captures) (k : continuation) :
  matcher fuel icase r i s c k
  = match r with
    | REmpty => k i s c
    | RSet items =>
      match s with
      | [] => None
      | x :: s' =>
        if existsb (in_cset icase x) items then k (S i) s' c else None
      end
    | RSeq r1 r2 =>
      matcher fuel icase r1 i s c
        (fun i' s' c' => matcher fuel icase r2 i' s' c' k)
    | RAlt r1 r2 =>
      match matcher fuel icase r1 i s c k with
      | Some res => Some res
      | None => matcher fuel icase r2 i s c k
      end
    | RStar greedy r' =>
      match fuel with
      | O => k i s c
      | S fuel' =>
        let iterate (_ : unit) :=
          matcher fuel icase r' i s c
            (fun i' s' c' =>
               if (i' =? i)%nat then None
               else matcher fuel' icase (RStar greedy r') i' s' c' k) in
        if greedy then
          match iterate () with
          | Some res => Some res
          | None => k i s c
          end
        else
          match k i s c with
          | Some res => Some res
          | None => iterate ()
          end
      end
    | RGroup n r' =>
      matcher fuel icase r' i s c
        (fun i' s' c' => k i' s' (<[n := take (i' - i) s]> c'))
    | RLook r' =>
      match matcher fuel icase r' i s c (fun i' _ c' => Some (i', c')) with
      | Some (_, c') => k i s c'
      | None => None
      end
    | RBol => if (i =? 0)%nat then k i s c else None
    | REol => match s with [] => k i s c | _ :: _ => None end
    | RFail => None
    end.
Proof. destruct fuel, r; reflexivity. Qed.

(** A continuation is only ever called on a rest of the input: at an
    index and with a rest that add up to the same total, the rest being
    no longer than before. *)
Definition agree (i : nat) (s : jsstring) (k1 k2 : continuation) : Prop :=
  forall i' s' c',
    (i' + length s' = i + length s)%nat -> (length s' <= length s)%nat ->
    k1 i' s' c' = k2 i' s' c'.

(** The fuel of the matcher is never exhausted when it is above the
    length of the input: the result does not depend on it. *)
Lemma matcher_fuel_bounded (m : nat) :
  forall (r : regex) (f1 f2 i : nat) (s : jsstring) (c : captures)
         (k1 k2 : continuation),
    (length s < m)%nat -> (length s < f1)%nat -> (length s < f2)%nat ->
    agree i s k1 k2 ->
    matcher f1 icase r i s c k1 = matcher f2 icase r i s c k2.
Proof.
  induction m as [|m IHm]; [intros; lia |].
  induction r as [| items | r1 IH1 r2 IH2 | r1 IH1 r2 IH2 | greedy r' IH
                  | n r' IH | r' IH | | |];
    intros f1 f2 i s c k1 k2 Hm Hf1 Hf2 Hk;
    rewrite (matcher_unfold f1), (matcher_unfold f2).
  - apply Hk; lia.
  - destruct s as [|x s']; [reflexivity |].
    destruct (existsb (in_cset icase x) items); [| reflexivity].
    apply Hk; simpl; lia.
  - apply IH1; try assumption.
    intros i' s' c' Hsum Hlen. apply IH2; try lia.
    intros i'' s'' c'' Hsum' Hlen'. apply Hk; lia.
  - rewrite (IH1 f1 f2 i s c k1 k2) by assumption.
    destruct (matcher f2 icase r1 i s c k2); [reflexivity |].
    apply IH2; assumption.
  - destruct f1 as [|f1]; [lia |]. destruct f2 as [|f2]; [lia |].
    cbv zeta.
    assert (Hiter :
      matcher (S f1) icase r' i s c
        (fun i' s' c' =>
           if (i' =? i)%nat then None
           else matcher f1 icase (RStar greedy r') i' s' c' k1)
      = matcher (S f2) icase r' i s c
          (fun i' s' c' =>
             if (i' =? i)%nat then None
             else matcher f2 icase (RStar greedy r') i' s' c' k2)).
    { apply IH; try assumption.
      intros i' s' c' Hsum Hlen.
      destruct (Nat.eqb_spec i' i) as [Heq | Hne]; [reflexivity |].
      apply IHm; try lia.
      intros i'' s'' c'' Hsum' Hlen'. apply Hk; lia. }
    rewrite Hiter, (Hk i s c) by lia. reflexivity.
  - apply IH; try assumption.
    intros i' s' c' Hsum Hlen. apply Hk; lia.
  - rewrite (IH f1 f2 i s c (fun i' _ c' => Some (i', c'))
               (fun i' _ c' => Some (i', c')))
      by (try assumption; intros ? ? ? ? ?; reflexivity).
    destruct (matcher f2 icase r' i s c _) as [[e c']|]; [| reflexivity].
    apply Hk; lia.
  - destruct (i =? 0)%nat; [apply Hk; lia | reflexivity].
  - destruct s; [apply Hk; lia | reflexivity].
  - reflexivity.
Qed.

Lemma search_fuel (r : regex) (f1 f2 : nat) (s : jsstring) (i : nat) :
  (length s < f1)%nat -> (length s < f2)%nat ->
  search f1 icase r i s = search f2 icase r i s.
Proof.
  revert i. induction s as [|x s IH]; intros i Hf1 Hf2; simpl.
  - rewrite (matcher_fuel_bounded 1 r f1 f2 i [] ∅ _ (fun i' _ c' => Some (i', c')))
      by (simpl; try lia; intros ? ? ? ? ?; reflexivity).
    reflexivity.
  - rewrite (matcher_fuel_bounded (S (S (length s))) r f1 f2 i (x :: s) ∅ _
               (fun i' _ c' => Some (i', c')))
      by (simpl in *; try lia; intros ? ? ? ? ?; reflexivity).
    destruct (matcher f2 icase r i (x :: s) ∅ _) as [[e c]|]; [reflexivity |].
    apply IH; simpl in *; lia.
Qed.

(** [exec] gives the result of a search with any fuel above the length of
    the text. *)
Lemma exec_fuel (r : regex) (text : jsstring) (lastIndex fuel : nat) :
  (length text < fuel)%nat ->
  exec icase r text lastIndex
  = if (length text <? lastIndex)%nat then None
    else search fuel icase r lastIndex (drop lastIndex text).
Proof.
  intros Hfuel. unfold exec.
  destruct (length text <? lastIndex)%nat; [reflexivity |].
  apply search_fuel; rewrite length_drop; lia.
Qed.

(** The least number of characters a match of a pattern consumes. *)
Fixpoint min_length (r : regex) : nat :=
  match r with
  | RSet _ => 1
  | RSeq r1 r2 => min_length r1 + min_length r2
  | RAlt r1 r2 => Nat.min (min_length r1) (min_length r2)
  | RGroup _ r' => min_length r'
  | _ => 0
  end.




End RegExpFacts.


(** ** Strings *)

Lemma trimStart_nil_iff (s : jsstring) :
  trimStart s = [] <-> Forall (fun c => is_space c = true) s.
Proof.
  induction s as [|c s IH]; simpl.
  - split; [constructor | reflexivity].
  - destruct (is_space c) eqn:Hc.
    + rewrite IH. split.
      * intros H. constructor; assumption.
      * intros H. inversion H; assumption.
    + split; [discriminate |].
      intros H. inversion H as [|? ? Hx Hy]. simpl in Hx. congruence.
Qed.

(** [trim] leaves the empty string exactly on the strings made of white
    space only. *)
Lemma trim_nil_iff (s : jsstring) :
  trim s = [] <-> Forall (fun c => is_space c = true) s.
Proof.
  unfold trim, trimEnd. split.
  - intros H.
    assert (Hr : trimStart (rev (trimStart s)) = []).
    { apply (f_equal (@rev N)) in H. rewrite rev_involutive in H. exact H. }
    apply trimStart_nil_iff in Hr.
    assert (Hs : Forall (fun c => is_space c = true) (trimStart s)).
    { rewrite <- (rev_involutive (trimStart s)). apply Forall_rev. exact Hr. }
    destruct (trimStart s) as [|c r] eqn:Hts.
    + apply trimStart_nil_iff. exact Hts.
    + exfalso. inversion Hs as [|? ? Hc _]; subst. simpl in Hc.
      destruct s as [|c0 s0]; simpl in Hts; [discriminate |].
      clear Hr Hs H.
      revert c0 Hts. induction s0 as [|c1 s1 IH]; intros c0 Hts.
      * simpl in Hts. destruct (is_space c0) eqn:H0; [discriminate |].
        congruence.
      * simpl in Hts. destruct (is_space c0) eqn:H0.
        -- apply (IH c1). simpl. exact Hts.
        -- congruence.
  - intros H. apply trimStart_nil_iff in H. rewrite H. reflexivity.
Qed.

Lemma truthy_trim (s : jsstring) :
  truthy_str (trim s) = true -> exists c, c ∈ s /\ is_space c = false.
Proof.
  intros H.
  destruct (decide (Forall (fun c => is_space c = true) s)) as [Hall | Hnot].
  - apply trim_nil_iff in Hall. rewrite Hall in H. discriminate.
  - apply not_Forall_Exists in Hnot; [| intros c; apply _].
    apply Exists_exists in Hnot. destruct Hnot as [c [Hin Hc]].
    exists c. split; [exact Hin |].
    apply not_true_is_false. exact Hc.
Qed.

(** ** AgentMessage *)

Section AgentMessageFacts.

Import AgentMessage.

Lemma ROLE_COLORS_named (roleName c : jsstring) :
  ROLE_COLORS !! roleName = Some c ->
  c ∈ FALLBACK_COLORS /\ truthy_str c = true
  /\ roleName ∈ map str ["Avocat"; "Scientifique"; "Philosophe"; "Critique"; "Juge"].
Proof.
  intros H. unfold ROLE_COLORS in H.
  apply elem_of_list_to_map_2 in H.
  repeat (apply elem_of_cons in H; destruct H as [H | H];
          [ injection H as -> ->;
            split; [| split]; [ | reflexivity | ]; vm_compute;
            repeat (first [apply list_elem_of_here | apply list_elem_of_further])
          | ]).
  apply elem_of_nil in H. contradiction.
Qed.

Lemma fallback_index (h : N) :
  exists c,
    FALLBACK_COLORS !! N.to_nat (h mod N.of_nat (length FALLBACK_COLORS)) = Some c
    /\ c ∈ FALLBACK_COLORS.
Proof.
  assert (Hlt : (N.to_nat (h mod N.of_nat (length FALLBACK_COLORS))
                 < length FALLBACK_COLORS)%nat).
  { change (length FALLBACK_COLORS) with 7%nat.
    pose proof (N.mod_lt h (N.of_nat 7) ltac:(discriminate)). lia. }
  apply lookup_lt_is_Some_2 in Hlt. destruct Hlt as [c Hc].
  exists c. split; [exact Hc |].
  eapply list_elem_of_lookup_2. exact Hc.
Qed.

(** X6: off the names that every object inherits, the colour is an element of
    the palette: the named colour of a known role, and otherwise the
    fallback chosen by the sum of the character codes modulo 7. *)
Lemma getAgentColor_palette (roleName : jsstring) :
  roleName ∉ Object_prototype ->
  exists c,
    getAgentColor roleName = Some (Own c)
    /\ c ∈ FALLBACK_COLORS
    /\ match ROLE_COLORS !! roleName with
       | Some named => c = named
       | None =>
         FALLBACK_COLORS !! N.to_nat (hash roleName mod 7) = Some c
       end.
Proof.
  intros Hproto. unfold getAgentColor, get.
  destruct (ROLE_COLORS !! roleName) as [named|] eqn:Hnamed.
  - destruct (ROLE_COLORS_named _ _ Hnamed) as [Hin [Htruthy _]].
    simpl. rewrite Htruthy. exists named. repeat split; auto.
  - rewrite bool_decide_eq_false_2 by exact Hproto. simpl.
    destruct (fallback_index (hash roleName)) as [c [Hc Hin]].
    exists c. change (N.of_nat (length FALLBACK_COLORS)) with 7%N in *.
    change (N.of_nat 7) with 7%N. rewrite Hc. repeat split; auto.
Qed.

(** A name that every object inherits from [Object.prototype] reads as
    that inherited member, which is truthy, and is returned as it is. *)
Lemma getAgentColor_inherited (roleName : jsstring) :
  roleName ∈ Object_prototype ->
  getAgentColor roleName = Some (Inherited roleName).
Proof.
  intros H. unfold Object_prototype in H. simpl in H.
  repeat (apply elem_of_cons in H; destruct H as [-> | H];
          [vm_compute; reflexivity |]).
  apply elem_of_nil in H. contradiction.
Qed.

End AgentMessageFacts.

(** C8 (code defect): the palette property of [getAgentColor] fails on
    the role name [constructor]: the read [ROLE_COLORS[roleName]] finds
    the member inherited from [Object.prototype], a function and not a
    colour of the palette, and the fallback by character codes (which
    would give the colour of index 1222 mod 7 = 4) is not reached. *)
Theorem getAgentColor_constructor :
  AgentMessage.getAgentColor (str "constructor")
  = Some (Inherited (str "constructor"))
  /\ (forall c, AgentMessage.getAgentColor (str "constructor") <> Some (Own c))
  /\ AgentMessage.hash (str "constructor") = 1222%N
  /\ AgentMessage.FALLBACK_COLORS !! 4%nat = Some (str "#E5FFE5").
Proof.
  split; [vm_compute; reflexivity |].
  split; [intros c; vm_compute; discriminate |].
  split; vm_compute; reflexivity.
Qed.

(** C9: the round badge of an agent message is rendered exactly when
    [roundNumber] is truthy: every debate turn of the message list with a
    round of at least 1 carries the badge, a [span] of class
    [agent-round] that reads "Tour " followed by the round; the synthesis
    bubble of Stage3 ([roundNumber] is [null]) carries none, and neither
    does a message whose [roundNumber] is 0. *)
Theorem AgentMessage_round_badge :
  (forall roleName model message roundNumber,
      by_class "agent-round"
        (AgentMessage.AgentMessage roleName model message roundNumber)
      = match roundNumber with
        | Some n =>
          if truthy_num n
          then [Elem "span" "agent-round" [] [Text (str "Tour "); Number n]]
          else []
        | None => []
        end)
  /\ (forall idx turn,
         (1 <= round turn)%Z ->
         by_class "agent-round" (ChatInterface.stage1_message idx turn)
         = [Elem "span" "agent-round" []
              [Text (str "Tour "); Number (round turn)]]
         /\ flat_map displayed
              (by_class "agent-round" (ChatInterface.stage1_message idx turn))
            = [Text (str "Tour "); Number (round turn)])
  /\ (forall finalResponse n,
         Stage3.Stage3 finalResponse = Some n -> by_class "agent-round" n = [])
  /\ (forall roleName model message,
         by_class "agent-round"
           (AgentMessage.AgentMessage roleName model message (Some 0%Z)) = []).
Proof.
  assert (H : forall roleName model message roundNumber,
      by_class "agent-round"
        (AgentMessage.AgentMessage roleName model message roundNumber)
      = match roundNumber with
        | Some n =>
          if truthy_num n
          then [Elem "span" "agent-round" [] [Text (str "Tour "); Number n]]
          else []
        | None => []
        end).
  { intros roleName model message roundNumber.
    unfold AgentMessage.AgentMessage, AgentMessage.round_badge.
    destruct model, roundNumber as [n|]; try destruct (truthy_num n);
      reflexivity. }
  split; [exact H |]. split; [| split].
  - intros idx turn Hround. unfold ChatInterface.stage1_message.
    rewrite H. unfold truthy_num.
    destruct (Z.eqb_spec (round turn) 0); [lia |].
    split; reflexivity.
  - intros [fr|] n Hn; simpl in Hn; [| discriminate].
    injection Hn as <-. cbn [by_class flat_map String.eqb Ascii.eqb Bool.eqb app].
    rewrite H. reflexivity.
  - intros. rewrite H. reflexivity.
Qed.

Lemma AgentMessage_round_badge_witness :
  (by_class "agent-round" (ChatInterface.stage1_message 0 Samples.turn_1)
   = [Elem "span" "agent-round" [] [Text (str "Tour "); Number 1]]
   /\ flat_map displayed
        (by_class "agent-round" (ChatInterface.stage1_message 0 Samples.turn_1))
      = [Text (str "Tour "); Number 1])
  /\ by_class "agent-round"
       (default Nothing (Stage3.Stage3 (Some Samples.juge_synthesis))) = [].
Proof.
  split.
  - apply (proj1 (proj2 AgentMessage_round_badge) 0%nat Samples.turn_1).
    simpl. lia.
  - apply (proj1 (proj2 (proj2 AgentMessage_round_badge))
             (Some Samples.juge_synthesis)).
    reflexivity.
Defined.

(** With [roundNumber] 0 the expression [roundNumber && ...] is the number
    0 itself, which React prints; the badge is not rendered. *)
Lemma AgentMessage_round_zero (roleName : jsstring)
    (model message : option jsstring) :
  Number 0 ∈ displayed
               (AgentMessage.AgentMessage roleName model message (Some 0%Z)).
Proof.
  unfold AgentMessage.AgentMessage. cbn [displayed flat_map app truthy_num
    Z.eqb negb]. set_solver.
Qed.

(** ** Stage3 *)

Lemma or_default_truthy (o : option jsstring) (d s : jsstring) :
  o = Some s -> s <> [] -> or_default o d = s.
Proof.
  intros -> Hs. unfold or_default. destruct s; [contradiction | reflexivity].
Qed.

(** C4: each variant of the Stage3 component renders nothing exactly when
    [finalResponse] is null or absent; for a synthesis object it renders
    the text of the field [response], the role name (the field
    [role_name], or the default name of the judge when that field is
    missing or empty) and the model. *)
Theorem Stage3_null_or_synthesis (finalResponse : option object) :
  (Stage3.Stage3 finalResponse = None <-> finalResponse = None)
  /\ (Stage3Panel.Stage3 finalResponse = None <-> finalResponse = None)
  /\ forall synthesis,
       finalResponse = Some synthesis ->
       exists bubble panel,
         Stage3.Stage3 finalResponse = Some bubble
         /\ Stage3Panel.Stage3 finalResponse = Some panel
         /\ (forall response,
               synthesis !! "response" = Some response ->
               ReactMarkdown (Some response) ∈ displayed bubble
               /\ ReactMarkdown (Some response) ∈ displayed panel)
         /\ (forall role_name,
               synthesis !! "role_name" = Some role_name -> role_name <> [] ->
               Text role_name ∈ displayed bubble
               /\ Text role_name ∈ displayed panel)
         /\ Text (or_default (synthesis !! "role_name") (str "Juge"))
              ∈ displayed bubble
         /\ Text (or_default (synthesis !! "role_name") (str "Juge/Synthétiseur"))
              ∈ displayed panel
         /\ (forall model,
               synthesis !! "model" = Some model ->
               Text model ∈ displayed bubble /\ Text model ∈ displayed panel).
Proof.
  split; [| split].
  - destruct finalResponse; simpl; split; congruence.
  - destruct finalResponse; simpl; split; congruence.
  - intros synthesis ->. eexists. eexists.
    split; [reflexivity |]. split; [reflexivity |].
    unfold AgentMessage.AgentMessage.
    split; [| split; [| split; [| split]]].
    + intros response H. cbn [displayed flat_map app child].
      rewrite H. split; set_solver.
    + intros role_name Hname Hne.
      rewrite !(or_default_truthy _ _ role_name Hname Hne).
      cbn [displayed flat_map app]. split; set_solver.
    + cbn [displayed flat_map app]. set_solver.
    + cbn [displayed flat_map app]. set_solver.
    + intros model H. rewrite H.
      cbn [displayed flat_map app child]. split; set_solver.
Qed.

Lemma Stage3_null_or_synthesis_witness :
  exists bubble panel,
    Stage3.Stage3 (Some Samples.juge_synthesis) = Some bubble
    /\ Stage3Panel.Stage3 (Some Samples.juge_synthesis) = Some panel
    /\ ReactMarkdown (Some (str "After considering all perspectives..."))
         ∈ displayed bubble
    /\ ReactMarkdown (Some (str "After considering all perspectives..."))
         ∈ displayed panel
    /\ Text (str "Juge/Synthétiseur") ∈ displayed bubble
    /\ Text (str "llama3.1:8b") ∈ displayed panel.
Proof.
  destruct (proj2 (proj2 (Stage3_null_or_synthesis (Some Samples.juge_synthesis)))
              Samples.juge_synthesis eq_refl)
    as (bubble & panel & Hb & Hp & Hresponse & Hname & _ & _ & Hmodel).
  exists bubble, panel.
  split; [exact Hb |]. split; [exact Hp |].
  split; [apply Hresponse; reflexivity |].
  split; [apply Hresponse; reflexivity |].
  split; [apply Hname; [reflexivity | discriminate] |].
  apply Hmodel; reflexivity.
Defined.

(** ** ChatInterface *)

Lemma handleSubmit_calls (isLoading : bool) (st : ChatInterface.state)
    (content : jsstring) (files : list ChatInterface.File) :
  ChatInterface.onSendMessage content files
    ∈ (ChatInterface.handleSubmit isLoading st).1 ->
  truthy_str (trim (ChatInterface.input st)) = true
  /\ isLoading = false
  /\ content = ChatInterface.input st
  /\ files = ChatInterface.selectedFiles st.
Proof.
  unfold ChatInterface.handleSubmit.
  destruct (truthy_str (trim (ChatInterface.input st))) eqn:Htrim;
    destruct isLoading; simpl; intros H.
  all: repeat (apply elem_of_cons in H; destruct H as [H | H];
               try discriminate).
  all: try (apply elem_of_nil in H; contradiction).
  injection H as -> ->. auto.
Qed.

(** C7: a form submission, by the submit event or by the Enter key,
    invokes [onSendMessage] only if the input is not empty once trimmed
    and no request is in flight; the question handed over is the input,
    which then holds a character that is not white space.  The send
    button is disabled in exactly the other cases. *)
Theorem handleSubmit_guard (isLoading : bool) (st : ChatInterface.state)
    (content : jsstring) (files : list ChatInterface.File) :
  (ChatInterface.onSendMessage content files
     ∈ (ChatInterface.handleSubmit isLoading st).1
   \/ exists e,
        ChatInterface.onSendMessage content files
          ∈ (ChatInterface.handleKeyDown isLoading e st).1) ->
  trim (ChatInterface.input st) <> []
  /\ isLoading = false
  /\ content = ChatInterface.input st
  /\ (exists c, c ∈ content /\ is_space c = false)
  /\ ChatInterface.send_button isLoading st
     = Elem "button" "send-button" [Disabled false] [Text (str "Send")].
Proof.
  intros H.
  assert (Hsubmit : ChatInterface.onSendMessage content files
                      ∈ (ChatInterface.handleSubmit isLoading st).1).
  { destruct H as [H | [e H]]; [exact H |].
    unfold ChatInterface.handleKeyDown in H.
    destruct (bool_decide (ChatInterface.key e = str "Enter")
              && negb (ChatInterface.shiftKey e)).
    - destruct (ChatInterface.handleSubmit isLoading st) as [calls st'].
      simpl in H |- *. apply elem_of_cons in H.
      destruct H as [H | H]; [discriminate | exact H].
    - simpl in H. apply elem_of_nil in H. contradiction. }
  apply handleSubmit_calls in Hsubmit.
  destruct Hsubmit as (Htrim & -> & -> & _).
  split; [intros Hnil; rewrite Hnil in Htrim; discriminate |].
  split; [reflexivity |]. split; [reflexivity |].
  split; [apply truthy_trim; exact Htrim |].
  unfold ChatInterface.send_button. rewrite Htrim. reflexivity.
Qed.

Lemma handleSubmit_guard_witness :
  trim (ChatInterface.input Samples.typed_question) <> []
  /\ (exists c, c ∈ ChatInterface.input Samples.typed_question
                /\ is_space c = false).
Proof.
  destruct (handleSubmit_guard false Samples.typed_question
              (ChatInterface.input Samples.typed_question) [])
    as (Htrim & _ & _ & Hchar & _).
  - left. vm_compute. apply list_elem_of_further, list_elem_of_here.
  - split; [exact Htrim | exact Hchar].
Defined.

(** The guard lets every question through that holds a character other
    than white space, when no request is in flight. *)
Lemma handleSubmit_sends (st : ChatInterface.state) :
  trim (ChatInterface.input st) <> [] ->
  (ChatInterface.handleSubmit false st).1
  = [ ChatInterface.preventDefault;
      ChatInterface.onSendMessage (ChatInterface.input st)
        (ChatInterface.selectedFiles st) ].
Proof.
  intros H. unfold ChatInterface.handleSubmit.
  destruct (trim (ChatInterface.input st)); [contradiction | reflexivity].
Qed.

(** ** DebateRounds *)

Section DebateRoundsFacts.

Import DebateRounds.

Lemma group_turn_lookup (m : gmap Z (list Turn)) (turn : Turn) (k : Z) :
  group_turn m turn !! k
  = if decide (round turn = k) then Some (default [] (m !! k) ++ [turn])
    else m !! k.
Proof.
  unfold group_turn.
  destruct (m !! round turn) as [l|] eqn:Hl; rewrite lookup_alter;
    destruct (decide (round turn = k)) as [<- | Hne]; try reflexivity.
  - rewrite Hl. reflexivity.
  - rewrite lookup_insert_eq, Hl. reflexivity.
  - rewrite lookup_insert_ne by exact Hne. reflexivity.
Qed.

(** The object [rounds] holds, under each round number that occurs, the
    turns of that round in the order of the history; other keys are
    absent. *)
Lemma rounds_lookup (debateHistory : list Turn) (k : Z) :
  rounds debateHistory !! k
  = match filter (of_round k) debateHistory with
    | [] => None
    | turns => Some turns
    end.
Proof.
  unfold rounds.
  induction debateHistory as [|turn h IH] using rev_ind.
  - reflexivity.
  - rewrite foldl_snoc, group_turn_lookup, filter_app, IH.
    destruct (decide (round turn = k)) as [Hk | Hk].
    + rewrite (filter_cons_True (of_round k) turn []) by exact Hk.
      rewrite filter_nil.
      destruct (filter (of_round k) h); reflexivity.
    + rewrite (filter_cons_False (of_round k) turn []) by exact Hk.
      rewrite filter_nil, app_nil_r. reflexivity.
Qed.

Lemma currentRoundTurns_filter (debateHistory : list Turn) (activeRound : Z) :
  currentRoundTurns debateHistory activeRound
  = filter (of_round activeRound) debateHistory.
Proof.
  unfold currentRoundTurns. rewrite rounds_lookup.
  destruct (filter (of_round activeRound) debateHistory); reflexivity.
Qed.

Lemma elem_of_roundNumbers (debateHistory : list Turn) (k : Z) :
  k ∈ roundNumbers debateHistory
  <-> exists t, t ∈ debateHistory /\ round t = k.
Proof.
  unfold roundNumbers.
  rewrite merge_sort_Permutation, elem_of_elements, elem_of_dom, rounds_lookup.
  split.
  - intros [turns Hturns].
    destruct (filter (of_round k) debateHistory) as [|t l] eqn:Hf;
      [discriminate |].
    assert (Ht : t ∈ filter (of_round k) debateHistory)
      by (rewrite Hf; apply list_elem_of_here).
    apply list_elem_of_filter in Ht. destruct Ht as [Hk Hin].
    exists t. split; assumption.
  - intros [t [Hin Hk]].
    assert (Ht : t ∈ filter (of_round k) debateHistory)
      by (apply list_elem_of_filter; split; assumption).
    destruct (filter (of_round k) debateHistory) as [|t' l].
    + apply elem_of_nil in Ht. contradiction.
    + eexists. reflexivity.
Qed.

Lemma roundNumbers_sorted (debateHistory : list Turn) :
  StronglySorted Z.le (roundNumbers debateHistory)
  /\ NoDup (roundNumbers debateHistory).
Proof.
  unfold roundNumbers. split.
  - apply StronglySorted_merge_sort; apply _.
  - rewrite merge_sort_Permutation. apply NoDup_elements.
Qed.

(** A history whose rounds never decrease, all of them at least [k],
    starts with its turns of round [k]. *)
Lemma sorted_split_first_round (k : Z) (h : list Turn) :
  StronglySorted (fun a b => (round a <= round b)%Z) h ->
  Forall (fun t => (k <= round t)%Z) h ->
  h = filter (of_round k) h ++ filter (fun t => round t <> k) h.
Proof.
  induction h as [|t h IH]; intros Hsorted Hmin; [reflexivity |].
  apply StronglySorted_cons in Hsorted. destruct Hsorted as [Hall Hsorted].
  apply Forall_cons in Hmin. destruct Hmin as [Ht Hmin].
  destruct (decide (round t = k)) as [Hk | Hk].
  - rewrite (filter_cons_True (of_round k)) by exact Hk.
    rewrite (filter_cons_False (fun t => round t <> k)) by (intros H; apply H, Hk).
    simpl. f_equal. apply IH; assumption.
  - rewrite (filter_cons_False (of_round k)) by exact Hk.
    rewrite (filter_cons_True (fun t => round t <> k)) by exact Hk.
    assert (Hgt : Forall (fun t' => round t' <> k) h).
    { eapply Forall_impl; [exact Hall |]. simpl. intros t' Hle. lia. }
    assert (Hnone : filter (of_round k) h = []).
    { clear -Hgt. induction h as [|t' h IH]; [reflexivity |].
      apply Forall_cons in Hgt. destruct Hgt as [Ht' Hgt].
      rewrite filter_cons_False by exact Ht'. apply IH, Hgt. }
    assert (Hall' : filter (fun t => round t <> k) h = h).
    { clear -Hgt. induction h as [|t' h IH]; [reflexivity |].
      apply Forall_cons in Hgt. destruct Hgt as [Ht' Hgt].
      rewrite filter_cons_True by exact Ht'. f_equal. apply IH, Hgt. }
    rewrite Hnone, Hall'. reflexivity.
Qed.

Lemma filter_round_other (k k' : Z) (h : list Turn) :
  k' <> k ->
  filter (of_round k') (filter (fun t => round t <> k) h)
  = filter (of_round k') h.
Proof.
  intros Hne. induction h as [|t h IH]; [reflexivity |].
  destruct (decide (round t = k)) as [Hk | Hk].
  - rewrite (filter_cons_False (fun t => round t <> k)) by (intros H; apply H, Hk).
    rewrite (filter_cons_False (of_round k') t h) by congruence.
    exact IH.
  - rewrite (filter_cons_True (fun t => round t <> k)) by exact Hk.
    destruct (decide (round t = k')) as [Hk' | Hk'].
    + rewrite !(filter_cons_True (of_round k')) by exact Hk'. f_equal. exact IH.
    + rewrite !(filter_cons_False (of_round k')) by exact Hk'. exact IH.
Qed.

Lemma StronglySorted_filter_turns (R : Turn -> Turn -> Prop)
    (P : Turn -> Prop) `{forall t, Decision (P t)} (l : list Turn) :
  StronglySorted R l -> StronglySorted R (filter P l).
Proof.
  induction 1 as [|t l Hsorted IH Hall]; [constructor |].
  destruct (decide (P t)) as [Hp | Hp].
  - rewrite filter_cons_True by exact Hp. constructor; [exact IH |].
    apply Forall_forall. intros t' Ht'. apply list_elem_of_filter in Ht'.
    rewrite Forall_forall in Hall. apply Hall, Ht'.
  - rewrite filter_cons_False by exact Hp. exact IH.
Qed.

(** Grouping by round and concatenating the groups in ascending round
    order gives back a history whose rounds never decrease. *)
Lemma concat_groups (ks : list Z) (h : list Turn) :
  StronglySorted Z.le ks -> NoDup ks ->
  (forall t, t ∈ h -> round t ∈ ks) ->
  StronglySorted (fun a b => (round a <= round b)%Z) h ->
  concat (map (fun k => filter (of_round k) h) ks) = h.
Proof.
  revert h. induction ks as [|k ks IH]; intros h Hks Hnodup Hin Hsorted.
  - destruct h as [|t h]; [reflexivity |].
    specialize (Hin t (list_elem_of_here _ _)).
    apply elem_of_nil in Hin. contradiction.
  - apply StronglySorted_cons in Hks. destruct Hks as [Hle Hks].
    apply NoDup_cons in Hnodup. destruct Hnodup as [Hnotin Hnodup].
    assert (Hmin : Forall (fun t => (k <= round t)%Z) h).
    { apply Forall_forall. intros t Ht. specialize (Hin t Ht).
      apply elem_of_cons in Hin. destruct Hin as [-> | Hin]; [lia |].
      rewrite Forall_forall in Hle. apply Hle, Hin. }
    pose proof (sorted_split_first_round k h Hsorted Hmin) as Hsplit.
    simpl. etransitivity; [| symmetry; exact Hsplit]. f_equal.
    etransitivity; [| apply (IH (filter (fun t => round t <> k) h))].
    + f_equal. apply map_ext_in. intros k' Hk'.
      symmetry. apply filter_round_other.
      intros ->. apply Hnotin. apply list_elem_of_In. exact Hk'.
    + exact Hks.
    + exact Hnodup.
    + intros t Ht. apply list_elem_of_filter in Ht. destruct Ht as [Hne Ht].
      specialize (Hin t Ht). apply elem_of_cons in Hin.
      destruct Hin as [Heq | Hin]; [contradiction | exact Hin].
    + apply StronglySorted_filter_turns. exact Hsorted.
Qed.

Lemma by_class_debate_turns (l : list Turn) (f : nat -> nat) :
  flat_map (by_class "debate-turn") (imap (fun i => debate_turn (f i)) l)
  = imap (fun i => debate_turn (f i)) l.
Proof.
  revert f. induction l as [|t l IH]; intros f; [reflexivity |].
  rewrite imap_cons. cbn [flat_map]. 
  change ((fun i => debate_turn (f i)) ∘ S) with (fun i => debate_turn (f (S i))).
  rewrite (IH (fun i => f (S i))). reflexivity.
Qed.

Lemma by_class_round_tabs (activeRound : Z) (ks : list Z) :
  flat_map (by_class "debate-turn") (map (round_tab activeRound) ks) = [].
Proof.
  induction ks as [|k ks IH]; [reflexivity |].
  simpl. rewrite IH. unfold round_tab.
  destruct (bool_decide (activeRound = k)); reflexivity.
Qed.

Lemma handlers_round_tabs (activeRound : Z) (ks : list Z) :
  flat_map handlers (map (round_tab activeRound) ks) = map SetActiveRound ks.
Proof.
  induction ks as [|k ks IH]; [reflexivity |].
  simpl. rewrite IH. reflexivity.
Qed.

Lemma handlers_debate_turns (l : list Turn) (f : nat -> nat) :
  flat_map handlers (imap (fun i => debate_turn (f i)) l) = [].
Proof.
  revert f. induction l as [|t l IH]; intros f; [reflexivity |].
  rewrite imap_cons. cbn [flat_map].
  change ((fun i => debate_turn (f i)) ∘ S) with (fun i => debate_turn (f (S i))).
  rewrite (IH (fun i => f (S i))). reflexivity.
Qed.

End DebateRoundsFacts.

Lemma by_class_debate_turns_all (l : list Turn) :
  flat_map (by_class "debate-turn") (imap DebateRounds.debate_turn l)
  = imap DebateRounds.debate_turn l.
Proof. exact (by_class_debate_turns l (fun i => i)). Qed.

Lemma handlers_debate_turns_all (l : list Turn) :
  flat_map handlers (imap DebateRounds.debate_turn l) = [].
Proof. exact (handlers_debate_turns l (fun i => i)). Qed.

(** What the component renders for a history that is not empty: one tab
    per round that occurs, and the turns of the active round, all of
    them and only them, in the order of the history. *)
Lemma DebateRounds_rendering (debateHistory : list Turn) (activeRound : Z) :
  debateHistory <> [] ->
  exists n,
    DebateRounds.DebateRounds (Some debateHistory) activeRound = Some n
    /\ by_class "debate-turn" n
       = imap DebateRounds.debate_turn
           (filter (fun t => round t = activeRound) debateHistory)
    /\ handlers n = map SetActiveRound (DebateRounds.roundNumbers debateHistory).
Proof.
  intros Hne. unfold DebateRounds.DebateRounds.
  destruct debateHistory as [|t h]; [contradiction |].
  cbn [length Nat.eqb]. eexists. split; [reflexivity |].
  split.
  - cbn [by_class flat_map app String.eqb Ascii.eqb Bool.eqb].
    rewrite by_class_round_tabs, by_class_debate_turns_all,
      currentRoundTurns_filter, !app_nil_r.
    reflexivity.
  - cbn [handlers flat_map app].
    rewrite handlers_round_tabs, handlers_debate_turns_all, !app_nil_r.
    reflexivity.
Qed.

(** What a debate turn puts on the screen: the role name, the model
    between parentheses and the markdown of the message. *)
Lemma displayed_debate_turns (l : list Turn) (f : nat -> nat) :
  map displayed (imap (fun i => DebateRounds.debate_turn (f i)) l)
  = map (fun turn =>
           [ Text (role_name turn); Text (str "("); Text (model turn);
             Text (str ")"); ReactMarkdown (Some (message turn)) ]) l.
Proof.
  revert f. induction l as [|t l IH]; intros f; [reflexivity |].
  rewrite imap_cons. cbn [map]. f_equal. apply (IH (fun i => f (S i))).
Qed.

(** C5: for every history that is not empty, complete or cut short by a
    failure, DebateRounds renders; it offers one tab per round that
    occurs in the history; the active tab shows all the turns of its
    round and only them, in order, each in a box of class [debate-turn]
    that displays the role name, the model between parentheses and the
    message of the turn; so every turn of the history is displayed, with
    its role name, model and message, under the tab of its round.  The
    component renders nothing exactly when the history is absent or
    empty. *)
Theorem DebateRounds_shows_every_turn :
  (forall debateHistory activeRound,
      DebateRounds.DebateRounds debateHistory activeRound = None
      <-> debateHistory = None \/ debateHistory = Some [])
  /\ (forall (debateHistory : list Turn) (activeRound : Z),
         debateHistory <> [] ->
         exists n,
           DebateRounds.DebateRounds (Some debateHistory) activeRound = Some n
           /\ by_class "debate-turn" n
              = imap
                  (fun index turn =>
                     Elem "div" "debate-turn" [Key (Z.of_nat index)]
                       [ Elem "div" "turn-header" []
                           [ Elem "span" "role-name" [] [Text (role_name turn)];
                             Elem "span" "model-name" []
                               [ Text (str "("); Text (model turn);
                                 Text (str ")") ] ];
                         Elem "div" "turn-message markdown-content" []
                           [ReactMarkdown (Some (message turn))] ])
                  (filter (fun t => round t = activeRound) debateHistory)
           /\ map displayed (by_class "debate-turn" n)
              = map (fun turn =>
                       [ Text (role_name turn); Text (str "(");
                         Text (model turn); Text (str ")");
                         ReactMarkdown (Some (message turn)) ])
                    (filter (fun t => round t = activeRound) debateHistory)
           /\ (forall k,
                 SetActiveRound k ∈ handlers n
                 <-> exists t, t ∈ debateHistory /\ round t = k)
           /\ (forall t,
                 t ∈ debateHistory ->
                 exists n' i,
                   DebateRounds.DebateRounds (Some debateHistory)
                     (DebateRounds.handle (SetActiveRound (round t)) activeRound)
                   = Some n'
                   /\ by_class "debate-turn" n' !! i
                      = Some
                          (Elem "div" "debate-turn" [Key (Z.of_nat i)]
                             [ Elem "div" "turn-header" []
                                 [ Elem "span" "role-name" []
                                     [Text (role_name t)];
                                   Elem "span" "model-name" []
                                     [ Text (str "("); Text (model t);
                                       Text (str ")") ] ];
                               Elem "div" "turn-message markdown-content" []
                                 [ReactMarkdown (Some (message t))] ])
                   /\ displayed <$> (by_class "debate-turn" n' !! i)
                      = Some
                          [ Text (role_name t); Text (str "(");
                            Text (model t); Text (str ")");
                            ReactMarkdown (Some (message t)) ])).
Proof.
  split.
  - intros [[|t h]|] activeRound; simpl; split; intros H;
      try reflexivity; try discriminate; auto.
    destruct H as [H | H]; discriminate.
  - intros debateHistory activeRound Hne.
    destruct (DebateRounds_rendering debateHistory activeRound Hne)
      as (n & Hn & Hturns & Htabs).
    exists n. split; [exact Hn |]. split; [exact Hturns |]. split; [| split].
    + rewrite Hturns.
      apply (displayed_debate_turns _ (fun i => i)).
    + intros k. rewrite Htabs, <- elem_of_roundNumbers.
      rewrite list_elem_of_fmap. split.
      * intros [k' [Heq Hin]]. injection Heq as ->. exact Hin.
      * intros Hin. exists k. split; [reflexivity | exact Hin].
    + intros t Ht. simpl.
      destruct (DebateRounds_rendering debateHistory (round t) Hne)
        as (n' & Hn' & Hturns' & _).
      assert (Hin : t ∈ filter (fun t' => round t' = round t) debateHistory)
        by (apply list_elem_of_filter; split; [reflexivity | exact Ht]).
      apply list_elem_of_lookup_1 in Hin. destruct Hin as [i Hi].
      exists n', i. split; [exact Hn' |].
      assert (Hbox : by_class "debate-turn" n' !! i
                     = Some (DebateRounds.debate_turn i t)).
      { rewrite Hturns', list_lookup_imap, Hi. reflexivity. }
      split; [exact Hbox |]. rewrite Hbox. reflexivity.
Qed.

Lemma DebateRounds_shows_every_turn_witness :
  exists n,
    DebateRounds.DebateRounds (Some Samples.partial_transcript) 2 = Some n
    /\ map displayed (by_class "debate-turn" n)
       = map (fun turn =>
                [ Text (role_name turn); Text (str "("); Text (model turn);
                  Text (str ")"); ReactMarkdown (Some (message turn)) ])
             [ Samples.turn 2 "devils_advocate" "Devil's Advocate";
               Samples.turn 2 "optimist" "Optimiste/Champion" ].
Proof.
  destruct (proj2 DebateRounds_shows_every_turn Samples.partial_transcript 2%Z)
    as (n & Hn & _ & Hshown & _).
  - discriminate.
  - exists n. split; [exact Hn |]. rewrite Hshown. reflexivity.
Defined.

Lemma StronglySorted_weaken {A} (R1 R2 : A -> A -> Prop) (l : list A) :
  (forall a b, R1 a b -> R2 a b) ->
  StronglySorted R1 l -> StronglySorted R2 l.
Proof.
  intros Himpl. induction 1 as [|a l Hsorted IH Hall]; constructor.
  - exact IH.
  - eapply Forall_impl; [exact Hall |]. intros b. apply Himpl.
Qed.

(** C6: for a transcript ordered by round and then by the fixed role
    order of the registry, the groups of DebateRounds, concatenated in
    ascending order of the round numbers, are the transcript itself. *)
Theorem DebateRounds_grouping_roundtrip (registry : list jsstring)
    (debateHistory : list Turn) :
  DebateRounds.transcript_ordered registry debateHistory ->
  concat (map (DebateRounds.currentRoundTurns debateHistory)
              (DebateRounds.roundNumbers debateHistory))
  = debateHistory.
Proof.
  intros Hordered.
  destruct (roundNumbers_sorted debateHistory) as [Hsorted Hnodup].
  rewrite (map_ext _ (fun k => filter (fun t => round t = k) debateHistory))
    by (intros k; apply currentRoundTurns_filter).
  apply concat_groups.
  - exact Hsorted.
  - exact Hnodup.
  - intros t Ht. apply elem_of_roundNumbers. exists t. auto.
  - eapply StronglySorted_weaken; [| exact Hordered].
    intros a b [Hlt | [Heq _]]; lia.
Qed.

Lemma turn_beforeb_true (registry : list jsstring) (t1 t2 : Turn) :
  DebateRounds.turn_beforeb registry t1 t2 = true ->
  DebateRounds.turn_before registry t1 t2.
Proof.
  unfold DebateRounds.turn_beforeb, DebateRounds.turn_before. intros H.
  apply orb_true_iff in H. destruct H as [H | H].
  - left. apply Z.ltb_lt. exact H.
  - right. apply andb_true_iff in H. destruct H as [Hr Hp].
    apply Z.eqb_eq in Hr. split; [exact Hr |].
    destruct (DebateRounds.position registry (role_id t1)) as [a|];
      [| discriminate].
    destruct (DebateRounds.position registry (role_id t2)) as [b|];
      [| discriminate].
    exists a, b. apply Nat.leb_le in Hp. auto.
Qed.

Lemma transcript_orderedb_true (registry : list jsstring)
    (transcript : list Turn) :
  DebateRounds.transcript_orderedb registry transcript = true ->
  DebateRounds.transcript_ordered registry transcript.
Proof.
  unfold DebateRounds.transcript_ordered.
  induction transcript as [|t l IH]; simpl; intros H; constructor.
  - apply IH. apply andb_true_iff in H. apply H.
  - apply andb_true_iff in H. destruct H as [H _].
    apply Forall_forall. intros t' Ht'. apply turn_beforeb_true.
    rewrite forallb_forall in H. apply H. apply list_elem_of_In. exact Ht'.
Qed.

Lemma partial_transcript_ordered :
  DebateRounds.transcript_ordered Samples.registry Samples.partial_transcript.
Proof. apply transcript_orderedb_true. vm_compute. reflexivity. Qed.

Lemma DebateRounds_grouping_roundtrip_witness :
  concat (map (DebateRounds.currentRoundTurns Samples.partial_transcript)
              (DebateRounds.roundNumbers Samples.partial_transcript))
  = Samples.partial_transcript.
Proof.
  apply (DebateRounds_grouping_roundtrip Samples.registry).
  exact partial_transcript_ordered.
Defined.

(** ** SynthesisDashboard *)

Lemma flat_map_imap_nil {A} (F : node -> list node) (f : nat -> A -> node)
    (l : list A) :
  (forall i x, F (f i x) = []) -> flat_map F (imap f l) = [].
Proof.
  revert f. induction l as [|x l IH]; intros f H; [reflexivity |].
  rewrite imap_cons. simpl. rewrite H. apply IH.
  intros i y. apply H.
Qed.

Lemma flat_map_imap_self {A} (F : node -> list node) (f : nat -> A -> node)
    (l : list A) :
  (forall i x, F (f i x) = [f i x]) -> flat_map F (imap f l) = imap f l.
Proof.
  revert f. induction l as [|x l IH]; intros f H; [reflexivity |].
  rewrite imap_cons. simpl. rewrite H. simpl. f_equal. apply IH.
  intros i y. apply H.
Qed.

Lemma length_imap_take {A} (f : nat -> A -> node) (n : nat) (l : list A) :
  length (imap f (take n l)) <= n.
Proof. rewrite length_imap, length_take. lia. Qed.

(** Elements of a class or of a tag among the children made by [imap]:
    all of them or none, decided on the shape of one child. *)
Ltac imap_children :=
  repeat match goal with
         | |- context [flat_map ?F (imap ?f ?l)] =>
           first [ rewrite (flat_map_imap_nil F f l) by (intros; reflexivity)
                 | rewrite (flat_map_imap_self F f l) by (intros; reflexivity) ]
         end.

(** Every pattern source of the component is well formed. *)
Lemma patterns_well_formed :
  Forall (fun source => is_Some (RegExp.parse source))
    (flat_map SynthesisDashboard.section_sources
       (map str [ "Consensus|Points? of Consensus";
                  "Divergence|Disagreements?|Points? of Divergence";
                  "Critical Risks?|Risques Critiques";
                  "Alternative Scenarios?|Scénarios Alternatifs" ])
     ++ map str
          [ "(?:Feasibility|Risk|Financial|Regulatory|Strategic).*?[:)]?\s*(\d+(?:\.\d+)?)\s*[/\/]?\s*(\d+)";
            "^[-*•]\s+";
            "[:)]" ]).
Proof. vm_compute. repeat constructor; eexists; reflexivity. Qed.

(** The section name is spliced into the pattern source, where the
    alternation binds last: the capture group belongs to the last
    alternative only. *)
Lemma section_pattern_shape :
  exists heading tail,
    RegExp.parse (str "##\s*" ++ str "Critical Risks?|Risques Critiques"
                    ++ str "[:\s]*\n([\s\S]*?)(?=##|$)")
    = Some (RegExp.RAlt heading tail)
    /\ heading = default RegExp.RFail (RegExp.parse (str "##\s*Critical Risks?"))
    /\ tail
       = default RegExp.RFail
           (RegExp.parse
              (str "Risques Critiques[:\s]*\n([\s\S]*?)(?=##|$)")).
Proof. eexists. eexists. vm_compute. repeat split. Qed.



(** What the dashboard shows of four lists of points and of the scores:
    the grid of [SynthesisDashboard], as a function of the extracted
    data. *)
Lemma dashboard_grid_caps (consensusPoints divergencePoints riskPoints
    scenarioPoints : list jsstring)
    (scores : option (list SynthesisDashboard.score_item)) :
  let n :=
    Elem "div" "synthesis-dashboard" []
      [ Elem "div" "dashboard-header" []
          [Elem "h3" "" [] [Text (str "📊 Decision Analysis Dashboard")]];
        Elem "div" "dashboard-grid" []
          [ SynthesisDashboard.when
              ((0 <? length consensusPoints)%nat
               || (0 <? length divergencePoints)%nat)
              (Elem "div" "dashboard-section consensus-divergence" []
                 [ Elem "div" "section-header" []
                     [Text (str "Consensus & Divergence")];
                   Elem "div" "two-column" []
                     [ SynthesisDashboard.when (0 <? length consensusPoints)%nat
                         (Elem "div" "consensus-box" []
                            [ Elem "h4" "" [] [Text (str "✓ Points of Consensus")];
                              Elem "ul" "" []
                                (imap SynthesisDashboard.list_item
                                   (take 3 consensusPoints)) ]);
                       SynthesisDashboard.when (0 <? length divergencePoints)%nat
                         (Elem "div" "divergence-box" []
                            [ Elem "h4" "" [] [Text (str "⚡ Points of Divergence")];
                              Elem "ul" "" []
                                (imap SynthesisDashboard.list_item
                                   (take 3 divergencePoints)) ]) ] ]);
            SynthesisDashboard.when (0 <? length riskPoints)%nat
              (Elem "div" "dashboard-section risks" []
                 [ Elem "div" "section-header" [] [Text (str "⚠️ Critical Risks")];
                   Elem "ul" "risk-list" []
                     (imap SynthesisDashboard.risk_item (take 4 riskPoints)) ]);
            SynthesisDashboard.when (0 <? length scenarioPoints)%nat
              (Elem "div" "dashboard-section scenarios" []
                 [ Elem "div" "section-header" []
                     [Text (str "🔄 Alternative Scenarios")];
                   Elem "div" "scenario-cards" []
                     (imap SynthesisDashboard.scenario_card
                        (take 3 scenarioPoints)) ]);
            match scores with
            | None => Nothing
            | Some scores =>
              SynthesisDashboard.when (0 <? length scores)%nat
                (Elem "div" "dashboard-section scores" []
                   [ Elem "div" "section-header" []
                       [Text (str "📈 Multi-Criteria Evaluation")];
                     Elem "div" "score-bars" []
                       (imap SynthesisDashboard.score_bar scores) ])
            end ] ] in
  (length (flat_map (by_tag "li") (by_class "consensus-box" n)) <= 3
   /\ length (flat_map (by_tag "li") (by_class "divergence-box" n)) <= 3
   /\ length (by_class "risk-item" n) <= 4
   /\ length (by_class "scenario-card" n) <= 3)%nat.
Proof.
  intros n. subst n.
  pose proof (length_imap_take SynthesisDashboard.list_item 3 consensusPoints).
  pose proof (length_imap_take SynthesisDashboard.list_item 3 divergencePoints).
  pose proof (length_imap_take SynthesisDashboard.risk_item 4 riskPoints).
  pose proof (length_imap_take SynthesisDashboard.scenario_card 3 scenarioPoints).
  unfold SynthesisDashboard.when.
  destruct (0 <? length consensusPoints)%nat,
           (0 <? length divergencePoints)%nat,
           (0 <? length riskPoints)%nat,
           (0 <? length scenarioPoints)%nat;
    destruct scores as [scores|]; try destruct (0 <? length scores)%nat;
    repeat (cbn [orb by_class by_tag flat_map app String.eqb Ascii.eqb Bool.eqb];
            progress imap_children);
    cbn [orb by_class by_tag flat_map app String.eqb Ascii.eqb Bool.eqb length];
    rewrite ?app_nil_r; cbn [flat_map app length]; repeat split; lia.
Qed.

(** C10: whenever SynthesisDashboard renders, it shows at most 3 points
    of consensus, at most 3 points of divergence, at most 4 critical
    risks and at most 3 alternative scenarios, however many were
    extracted from the text. *)
Theorem SynthesisDashboard_caps (synthesis : option object) (n : node) :
  SynthesisDashboard.SynthesisDashboard synthesis = Some n ->
  (length (flat_map (by_tag "li") (by_class "consensus-box" n)) <= 3
   /\ length (flat_map (by_tag "li") (by_class "divergence-box" n)) <= 3
   /\ length (by_class "risk-item" n) <= 4
   /\ length (by_class "scenario-card" n) <= 3)%nat.
Proof.
  unfold SynthesisDashboard.SynthesisDashboard.
  destruct synthesis as [synthesis|]; [| discriminate].
  destruct (synthesis !! "message") as [text|]; [| discriminate].
  destruct (negb (truthy_str text)); [discriminate |].
  cbv zeta.
  match goal with
  | |- (if negb ?hasData then _ else _) = _ -> _ => destruct (negb hasData)
  end; [discriminate |].
  intros H. injection H as <-.
  apply dashboard_grid_caps.
Qed.

(** The sample synthesis holds five points of consensus, one of
    divergence, five risks and four scenarios. *)
Lemma sample_extraction :
  let points name :=
    SynthesisDashboard.extractBulletPoints
      (SynthesisDashboard.extractSection Samples.synthesis_text (str name)) in
  length (points "Consensus|Points? of Consensus") = 5%nat
  /\ length (points "Divergence|Disagreements?|Points? of Divergence") = 1%nat
  /\ length (points "Critical Risks?|Risques Critiques") = 5%nat
  /\ length (points "Alternative Scenarios?|Scénarios Alternatifs") = 4%nat
  /\ length (default [] (SynthesisDashboard.extractScores Samples.synthesis_text))
     = 2%nat.
Proof. vm_compute. repeat split. Qed.

Lemma SynthesisDashboard_caps_witness :
  exists n,
    SynthesisDashboard.SynthesisDashboard
      (Some {[ "message" := Samples.synthesis_text ]}) = Some n
    /\ (length (flat_map (by_tag "li") (by_class "consensus-box" n)) <= 3
        /\ length (flat_map (by_tag "li") (by_class "divergence-box" n)) <= 3
        /\ length (by_class "risk-item" n) <= 4
        /\ length (by_class "scenario-card" n) <= 3)%nat.
Proof.
  eexists. split.
  - vm_compute. reflexivity.
  - apply (SynthesisDashboard_caps
             (Some {[ "message" := Samples.synthesis_text ]})).
    vm_compute. reflexivity.
Defined.

Lemma payload_synthesis_no_message (s : Core.Synthesis.t) :
  Core.payload_synthesis s !! "message" = None.
Proof.
  unfold Core.payload_synthesis.
  apply not_elem_of_list_to_map_1. simpl. intros H.
  repeat (apply elem_of_cons in H; destruct H as [H | H]; [discriminate |]).
  apply elem_of_nil in H. exact H.
Qed.

(** Without a field [message] that holds a text, the dashboard renders
    nothing, whatever the other fields hold. *)
Lemma SynthesisDashboard_requires_message (synthesis : object) :
  synthesis !! "message" = None ->
  SynthesisDashboard.SynthesisDashboard (Some synthesis) = None.
Proof.
  intros H. unfold SynthesisDashboard.SynthesisDashboard. rewrite H.
  reflexivity.
Qed.

(** C3 (code defect): the dashboard reads the text of the synthesis from
    the field [message], which a synthesis record of the payload does not
    have (its text is under [response], the field Stage3 reads); so for
    every such record the dashboard renders nothing, whatever sections
    and scores the text holds.  On the sample record the text under
    [response] holds labelled sections and scores, the dashboard is
    [null], and the same text under [message] is rendered. *)
Theorem SynthesisDashboard_payload_renders_nothing :
  (forall s : Core.Synthesis.t,
      SynthesisDashboard.SynthesisDashboard (Some (Core.payload_synthesis s))
      = None)
  /\ Core.payload_synthesis Samples.synthesis !! "response"
     = Some Samples.synthesis_text
  /\ SynthesisDashboard.extractBulletPoints
       (SynthesisDashboard.extractSection Samples.synthesis_text
          (str "Consensus|Points? of Consensus"))
     <> []
  /\ SynthesisDashboard.SynthesisDashboard
       (Some (Core.payload_synthesis Samples.synthesis)) = None
  /\ SynthesisDashboard.SynthesisDashboard
       (Some {[ "message" := Samples.synthesis_text ]}) <> None.
Proof.
  split; [| split; [| split; [| split]]].
  - intros s. apply SynthesisDashboard_requires_message.
    apply payload_synthesis_no_message.
  - vm_compute. reflexivity.
  - vm_compute. discriminate.
  - vm_compute. reflexivity.
  - vm_compute. discriminate.
Qed.

(** ** The debate orchestration core *)

Section CoreFacts.

Import Core.

Variable debateRoles : list Role.t.
Variable synthesizer : Role.t.
Variable invoke : nat -> jsstring -> list ContextEntry -> option jsstring.
Variable userQuery : jsstring.
Variable totalRounds : nat.

Lemma filter_sublist {A} (f : A -> bool) (l : list A) :
  sublist (List.filter f l) l.
Proof.
  induction l as [|x l IH]; simpl.
  - constructor.
  - destruct (f x); [apply sublist_skip | apply sublist_cons]; exact IH.
Qed.

Lemma is_prior_spec (role : Role.t) (roundIndex : nat) (turn : Turn.t) :
  is_prior debateRoles role roundIndex turn = true ->
  (Turn.round turn <= roundIndex)%nat
  /\ (Turn.round turn = roundIndex ->
      exists a s,
        slot debateRoles (Turn.role_id turn) = Some a
        /\ slot debateRoles (Role.role_id role) = Some s
        /\ (a < s)%nat).
Proof.
  unfold is_prior. intros H. apply orb_true_iff in H. destruct H as [H | H].
  - apply Nat.ltb_lt in H. split; [lia |]. intros Heq. lia.
  - apply andb_true_iff in H. destruct H as [Hr Hs].
    apply Nat.eqb_eq in Hr. split; [lia |]. intros _.
    destruct (slot debateRoles (Turn.role_id turn)) as [a|]; [| discriminate].
    destruct (slot debateRoles (Role.role_id role)) as [s|]; [| discriminate].
    apply Nat.ltb_lt in Hs. exists a, s. auto.
Qed.

Lemma initial_indexed : indexed (initial totalRounds).
Proof.
  split; [reflexivity |]. intros i turn H. simpl in H.
  rewrite lookup_nil in H. discriminate.
Qed.

Lemma run_turn_step (roundIndex : nat) (role : Role.t) (s : DebateSession) :
  status s = running -> indexed s ->
  let s' := run_turn debateRoles invoke userQuery totalRounds roundIndex role s in
  status s' = failed
  \/ (status s' = running
      /\ length (transcript s') = S (length (transcript s))
      /\ indexed s').
Proof.
  intros Hrunning [Hnext Hindex]. unfold run_turn, executeTurn.
  destruct (invoke _ _ _) as [text|]; simpl; [right | left; reflexivity].
  split; [exact Hrunning |]. split; [rewrite length_app; simpl; lia |].
  split; simpl.
  - rewrite length_app. simpl. lia.
  - intros i turn Hi.
    destruct (decide (i < length (transcript s))%nat) as [Hlt | Hge].
    + rewrite lookup_app_l in Hi by exact Hlt. apply Hindex. exact Hi.
    + rewrite lookup_app_r in Hi by lia.
      destruct (i - length (transcript s))%nat as [|k] eqn:Hk; simpl in Hi.
      * injection Hi as <-. simpl. lia.
      * rewrite lookup_nil in Hi. discriminate.
Qed.

Lemma run_round_steps (roles : list Role.t) (roundIndex : nat)
    (s : DebateSession) :
  status s = running -> indexed s ->
  let s' := run_round debateRoles invoke userQuery totalRounds roles roundIndex s in
  status s' = failed
  \/ (status s' = running
      /\ length (transcript s') = (length (transcript s) + length roles)%nat
      /\ indexed s').
Proof.
  revert s. induction roles as [|role roles IH]; intros s Hrunning Hindexed.
  - right. simpl. split; [exact Hrunning |]. split; [lia | exact Hindexed].
  - cbn [run_round].
    destruct (run_turn_step roundIndex role s Hrunning Hindexed)
      as [Hfailed | (Hrun & Hlen & Hidx)].
    + rewrite Hfailed. left. exact Hfailed.
    + rewrite Hrun.
      destruct (IH _ Hrun Hidx) as [Hfailed | (Hrun' & Hlen' & Hidx')].
      * left. exact Hfailed.
      * right. split; [exact Hrun' |]. split; [| exact Hidx'].
        rewrite Hlen', Hlen. simpl. lia.
Qed.

Lemma run_rounds_steps (rounds roundIndex : nat) (s : DebateSession) :
  status s = running -> indexed s ->
  let s' := run_rounds debateRoles invoke userQuery totalRounds rounds roundIndex s in
  status s' = failed
  \/ (status s' = running
      /\ length (transcript s')
         = (length (transcript s) + rounds * length debateRoles)%nat
      /\ indexed s').
Proof.
  revert roundIndex s.
  induction rounds as [|rounds IH]; intros roundIndex s Hrunning Hindexed.
  - right. simpl. split; [exact Hrunning |]. split; [lia | exact Hindexed].
  - cbn [run_rounds].
    destruct (run_round_steps debateRoles roundIndex s Hrunning Hindexed)
      as [Hfailed | (Hrun & Hlen & Hidx)].
    + rewrite Hfailed. left. exact Hfailed.
    + rewrite Hrun.
      destruct (IH (S roundIndex) _ Hrun Hidx)
        as [Hfailed | (Hrun' & Hlen' & Hidx')].
      * left. exact Hfailed.
      * right. split; [exact Hrun' |]. split; [| exact Hidx'].
        rewrite Hlen', Hlen. simpl. lia.
Qed.

End CoreFacts.

(** C1: a successful session with R rounds and K debate roles has a
    transcript of exactly R×K turns, whose sequence indices increase
    strictly with the position in the list. *)
Theorem run_multi_round_debate_transcript (debateRoles : list Core.Role.t)
    (synthesizer : Core.Role.t)
    (invoke : nat -> jsstring -> list Core.ContextEntry -> option jsstring)
    (userQuery : jsstring) (totalRounds : nat) :
  let s :=
    Core.run_multi_round_debate debateRoles synthesizer invoke userQuery
      totalRounds in
  Core.status s = Core.completed ->
  length (Core.transcript s) = (totalRounds * length debateRoles)%nat
  /\ forall i j ti tj,
       Core.transcript s !! i = Some ti ->
       Core.transcript s !! j = Some tj ->
       (i < j)%nat ->
       (Core.Turn.sequence_index ti < Core.Turn.sequence_index tj)%nat.
Proof.
  intros s Hcompleted. subst s. unfold Core.run_multi_round_debate in *.
  destruct (run_rounds_steps debateRoles invoke userQuery totalRounds
              totalRounds 1 (Core.initial totalRounds) eq_refl
              (initial_indexed totalRounds))
    as [Hfailed | (Hrun & Hlen & [_ Hidx])].
  - rewrite Hfailed in Hcompleted. rewrite Hfailed in Hcompleted.
    discriminate.
  - rewrite Hrun in Hcompleted |- *.
    destruct (Core.synthesize _ _ _ _ _ _) as [result | e];
      simpl in Hcompleted |- *; [| discriminate].
    split; [rewrite Hlen; simpl; lia |].
    intros i j ti tj Hi Hj Hlt.
    rewrite (Hidx i ti Hi), (Hidx j tj Hj). exact Hlt.
Qed.

Lemma run_multi_round_debate_transcript_witness :
  let s :=
    Core.run_multi_round_debate Samples.debateRoles Samples.juge
      Samples.answering (str "Should we adopt a 4-day work week?") 3 in
  length (Core.transcript s) = 12%nat
  /\ forall i j ti tj,
       Core.transcript s !! i = Some ti ->
       Core.transcript s !! j = Some tj ->
       (i < j)%nat ->
       (Core.Turn.sequence_index ti < Core.Turn.sequence_index tj)%nat.
Proof.
  apply (run_multi_round_debate_transcript Samples.debateRoles Samples.juge
           Samples.answering (str "Should we adopt a 4-day work week?") 3).
  vm_compute. reflexivity.
Defined.

(** The scenarios of the specification: twelve turns and a synthesis when
    every invocation succeeds; six turns, no synthesis and the failed
    turn identified when the seventh invocation fails. *)
Lemma scenario_completed :
  let s :=
    Core.run_multi_round_debate Samples.debateRoles Samples.juge
      Samples.answering (str "Should we adopt a 4-day work week?") 3 in
  length (Core.transcript s) = 12%nat
  /\ Core.status s = Core.completed
  /\ is_Some (Core.synthesis s).
Proof. vm_compute. repeat split. eexists. reflexivity. Qed.

Lemma scenario_failed_turn :
  let s :=
    Core.run_multi_round_debate Samples.debateRoles Samples.juge
      Samples.failing_at_7 (str "Should we adopt a 4-day work week?") 3 in
  length (Core.transcript s) = 6%nat
  /\ Core.status s = Core.failed
  /\ Core.synthesis s = None
  /\ Core.failure s
     = Some {| Core.failed_role := str "regulator";
               Core.failed_stage := Core.DebateTurn 2 |}.
Proof. vm_compute. repeat split. Qed.

(** C2: the context built for a role in a round holds, after the system
    entry and the question, only turns of the transcript that are prior
    to that slot: no turn of a later round, and no turn of the round
    being built whose role does not come before the role in the debate
    order. *)
Theorem buildContext_no_lookahead (debateRoles : list Core.Role.t)
    (userQuery : jsstring) (role : Core.Role.t)
    (transcript : list Core.Turn.t) (roundIndex totalRounds : nat) :
  exists included,
    Core.buildContext debateRoles userQuery role transcript roundIndex
      totalRounds
    = {| Core.speaker := Core.System;
         Core.text := Core.Role.debate_instructions role
                      ++ Core.debate_directive roundIndex totalRounds |}
      :: {| Core.speaker := Core.User; Core.text := userQuery |}
      :: map Core.turn_entry included
    /\ sublist included transcript
    /\ forall turn,
         turn ∈ included ->
         (Core.Turn.round turn <= roundIndex)%nat
         /\ (Core.Turn.round turn = roundIndex ->
             exists a s,
               Core.slot debateRoles (Core.Turn.role_id turn) = Some a
               /\ Core.slot debateRoles (Core.Role.role_id role) = Some s
               /\ (a < s)%nat).
Proof.
  exists (Core.prior_turns debateRoles role transcript roundIndex).
  split; [reflexivity |]. split; [apply filter_sublist |].
  intros turn Hin. unfold Core.prior_turns in Hin.
  apply list_elem_of_In, filter_In in Hin. destruct Hin as [_ Hprior].
  apply is_prior_spec. exact Hprior.
Qed.

(** Round 1, first role: the context holds exactly two entries, the
    system entry and the question. *)
Lemma buildContext_first_turn (debateRoles : list Core.Role.t)
    (userQuery : jsstring) (role : Core.Role.t) (totalRounds : nat) :
  length (Core.buildContext debateRoles userQuery role [] 1 totalRounds)
  = 2%nat.
Proof. reflexivity. Qed.

(** ** The transcript of the core, as the presentation layer sees it *)

Section TranscriptOrder.

Import Core.

Variable debateRoles : list Role.t.
Variable synthesizer : Role.t.
Variable invoke : nat -> jsstring -> list ContextEntry -> option jsstring.
Variable userQuery : jsstring.
Variable totalRounds : nat.

(** Role identifiers are unique keys. *)
Hypothesis unique_ids : NoDup (map Role.role_id debateRoles).

Lemma position_slot_in (roles : list Role.t) (id : jsstring) :
  DebateRounds.position (map Role.role_id roles) id = slot_in roles id.
Proof.
  induction roles as [|role roles IH]; simpl; [reflexivity |].
  rewrite IH. reflexivity.
Qed.

Lemma slot_in_middle (done todo : list Role.t) (role : Role.t) :
  NoDup (map Role.role_id (done ++ role :: todo)) ->
  slot_in (done ++ role :: todo) (Role.role_id role) = Some (length done).
Proof.
  induction done as [|d done IH]; simpl; intros Hnodup.
  - rewrite bool_decide_eq_true_2 by reflexivity. reflexivity.
  - apply NoDup_cons in Hnodup. destruct Hnodup as [Hnotin Hnodup].
    rewrite bool_decide_eq_false_2.
    + rewrite (IH Hnodup). reflexivity.
    + intros Heq. apply Hnotin. rewrite Heq.
      rewrite map_app. apply elem_of_app. right. simpl. apply list_elem_of_here.
Qed.

Lemma run_turn_in_round (r : nat) (done todo : list Role.t) (role : Role.t)
    (s : DebateSession) :
  debateRoles = done ++ role :: todo ->
  in_round debateRoles r (length done) s ->
  in_round debateRoles r (S (length done))
    (run_turn debateRoles invoke userQuery totalRounds r role s).
Proof.
  intros Hroles [Hsorted Hrounds]. unfold run_turn, executeTurn.
  assert (Hslot : slot debateRoles (Role.role_id role) = Some (length done)).
  { unfold slot. rewrite Hroles. apply slot_in_middle.
    rewrite <- Hroles. exact unique_ids. }
  destruct (invoke _ _ _) as [text|]; simpl.
  - split; simpl.
    + apply StronglySorted_app_2; [| exact Hsorted | repeat constructor].
      intros t1 t2 Ht1 Ht2. apply list_elem_of_singleton in Ht2. subst t2.
      unfold before. simpl.
      destruct (Hrounds t1 Ht1) as [Hlt | [Heq (a & Ha & Hlt)]].
      * left. exact Hlt.
      * right. split; [exact Heq |]. exists a, (length done).
        split; [exact Ha |]. split; [exact Hslot | lia].
    + intros t Ht. apply elem_of_app in Ht. destruct Ht as [Ht | Ht].
      * destruct (Hrounds t Ht) as [Hlt | [Heq (a & Ha & Hlt)]];
          [left; exact Hlt |].
        right. split; [exact Heq |]. exists a. split; [exact Ha | lia].
      * apply list_elem_of_singleton in Ht. subst t. simpl.
        right. split; [reflexivity |]. exists (length done).
        split; [exact Hslot | lia].
  - split; simpl; [exact Hsorted |].
    intros t Ht.
    destruct (Hrounds t Ht) as [Hlt | [Heq (a & Ha & Hlt)]];
      [left; exact Hlt |].
    right. split; [exact Heq |]. exists a. split; [exact Ha | lia].
Qed.

Lemma filter_all {A} (f : A -> bool) (l : list A) :
  (forall x, x ∈ l -> f x = true) -> List.filter f l = l.
Proof.
  induction l as [|x l IH]; intros H; simpl; [reflexivity |].
  rewrite (H x (list_elem_of_here _ _)). f_equal. apply IH.
  intros y Hy. apply H. apply list_elem_of_further. exact Hy.
Qed.

(** In the orchestrator the selection keeps the whole transcript: at its
    turn a role reads the full debate history so far. *)
Lemma context_holds_full_history (r : nat) (done todo : list Role.t)
    (role : Role.t) (s : DebateSession) :
  debateRoles = done ++ role :: todo ->
  in_round debateRoles r (length done) s ->
  buildContext debateRoles userQuery role (transcript s) r totalRounds
  = {| speaker := System;
       text := Role.debate_instructions role ++ debate_directive r totalRounds |}
    :: {| speaker := User; text := userQuery |}
    :: map turn_entry (transcript s).
Proof.
  intros Hroles [_ Hrounds]. unfold buildContext, prior_turns.
  rewrite filter_all; [reflexivity |].
  intros t Ht. unfold is_prior.
  assert (Hslot : slot debateRoles (Role.role_id role) = Some (length done)).
  { unfold slot. rewrite Hroles. apply slot_in_middle.
    rewrite <- Hroles. exact unique_ids. }
  destruct (Hrounds t Ht) as [Hlt | [Heq (a & Ha & Hlt)]].
  - rewrite (proj2 (Nat.ltb_lt _ _) Hlt). reflexivity.
  - rewrite Heq, Nat.ltb_irrefl, Nat.eqb_refl, Ha, Hslot. simpl.
    apply Nat.ltb_lt. exact Hlt.
Qed.

Lemma run_round_in_round (r : nat) (todo done : list Role.t)
    (s : DebateSession) :
  debateRoles = done ++ todo ->
  in_round debateRoles r (length done) s ->
  exists j,
    in_round debateRoles r j (run_round debateRoles invoke userQuery totalRounds todo r s).
Proof.
  revert done s. induction todo as [|role todo IH]; intros done s Hroles Hin.
  - exists (length done). exact Hin.
  - cbn [run_round].
    pose proof (run_turn_in_round r done todo role s Hroles Hin) as Hstep.
    destruct (status (run_turn debateRoles invoke userQuery totalRounds r role s)).
    + apply (IH (done ++ [role])).
      * rewrite <- app_assoc. exact Hroles.
      * rewrite length_app. simpl. rewrite Nat.add_1_r. exact Hstep.
    + apply (IH (done ++ [role])).
      * rewrite <- app_assoc. exact Hroles.
      * rewrite length_app. simpl. rewrite Nat.add_1_r. exact Hstep.
    + exists (S (length done)). exact Hstep.
Qed.

Lemma in_round_next (r j : nat) (s : DebateSession) :
  in_round debateRoles r j s -> in_round debateRoles (S r) 0 s.
Proof.
  intros [Hsorted Hrounds]. split; [exact Hsorted |].
  intros t Ht. left.
  destruct (Hrounds t Ht) as [Hlt | [Heq _]]; lia.
Qed.

Lemma run_rounds_in_round (rounds r : nat) (s : DebateSession) :
  in_round debateRoles r 0 s ->
  exists r' j,
    in_round debateRoles r' j
      (run_rounds debateRoles invoke userQuery totalRounds rounds r s).
Proof.
  revert r s. induction rounds as [|rounds IH]; intros r s Hin.
  - exists r, 0%nat. exact Hin.
  - cbn [run_rounds].
    destruct (run_round_in_round r debateRoles [] s eq_refl Hin) as [j Hj].
    destruct (status (run_round debateRoles invoke userQuery totalRounds
                        debateRoles r s)).
    + apply (IH (S r)). eapply in_round_next. exact Hj.
    + apply (IH (S r)). eapply in_round_next. exact Hj.
    + exists r, j. exact Hj.
Qed.

(** Every transcript the orchestrator hands over, complete or cut short
    by a failure, is ordered by round and then by the order of the
    registry. *)
Lemma run_multi_round_debate_ordered :
  DebateRounds.transcript_ordered (map Role.role_id debateRoles)
    (map payload_turn
       (transcript
          (run_multi_round_debate debateRoles synthesizer invoke userQuery
             totalRounds))).
Proof.
  assert (Hinit : in_round debateRoles 1 0 (initial totalRounds)).
  { split; simpl; [constructor |]. intros t Ht.
    apply elem_of_nil in Ht. contradiction. }
  destruct (run_rounds_in_round totalRounds 1 _ Hinit) as (r & j & [Hsorted _]).
  assert (Htranscript :
    transcript (run_multi_round_debate debateRoles synthesizer invoke
                  userQuery totalRounds)
    = transcript (run_rounds debateRoles invoke userQuery totalRounds
                    totalRounds 1 (initial totalRounds))).
  { unfold run_multi_round_debate.
    destruct (status (run_rounds _ _ _ _ _ _ _)); try reflexivity;
      destruct (synthesize _ _ _ _ _ _); reflexivity. }
  rewrite Htranscript. unfold DebateRounds.transcript_ordered.
  apply (StronglySorted_fmap payload_turn (before debateRoles)); [| exact Hsorted].
  intros t1 t2 [Hlt | [Heq (a & b & Ha & Hb & Hle)]].
  - left. simpl. lia.
  - right. simpl. split; [lia |]. exists a, b.
    rewrite !position_slot_in. auto.
Qed.

End TranscriptOrder.

(** So the tabs of DebateRounds, read in ascending order, give back every
    transcript of the orchestrator, whether the session completed or
    failed on the way. *)
Lemma orchestrator_transcript_roundtrip (debateRoles : list Core.Role.t)
    (synthesizer : Core.Role.t)
    (invoke : nat -> jsstring -> list Core.ContextEntry -> option jsstring)
    (userQuery : jsstring) (totalRounds : nat) :
  NoDup (map Core.Role.role_id debateRoles) ->
  let debateHistory :=
    map Core.payload_turn
      (Core.transcript
         (Core.run_multi_round_debate debateRoles synthesizer invoke userQuery
            totalRounds)) in
  concat (map (DebateRounds.currentRoundTurns debateHistory)
              (DebateRounds.roundNumbers debateHistory))
  = debateHistory.
Proof.
  intros Hunique debateHistory.
  pose proof (run_multi_round_debate_ordered debateRoles synthesizer invoke
                userQuery totalRounds Hunique) as Hordered.
  fold debateHistory in Hordered.
  destruct (roundNumbers_sorted debateHistory) as [Hsorted Hnodup].
  rewrite (map_ext _ (fun k => filter (of_round k) debateHistory))
    by (intros k; apply currentRoundTurns_filter).
  apply concat_groups; [exact Hsorted | exact Hnodup | |].
  - intros t Ht. apply elem_of_roundNumbers. exists t. auto.
  - eapply StronglySorted_weaken; [| exact Hordered].
    intros a b [Hlt | [Heq _]]; lia.
Qed.

(** The partial transcript of the failed scenario on the screen: two
    tabs, four turns under the first and two under the second. *)
Lemma scenario_failed_turn_displayed :
  let debateHistory :=
    map Core.payload_turn
      (Core.transcript
         (Core.run_multi_round_debate Samples.debateRoles Samples.juge
            Samples.failing_at_7 (str "Should we adopt a 4-day work week?") 3)) in
  DebateRounds.roundNumbers debateHistory = [1%Z; 2%Z]
  /\ length (DebateRounds.currentRoundTurns debateHistory 1) = 4%nat
  /\ length (DebateRounds.currentRoundTurns debateHistory 2) = 2%nat.
Proof. vm_compute. repeat split. Qed.

(** On the complete transcript of the sample session, the context of the
    second role in round 2 holds the four turns of round 1 and the one
    turn of round 2 that came before: seven entries, although the
    transcript has twelve turns. *)
Lemma buildContext_drops_later_turns :
  let s :=
    Core.run_multi_round_debate Samples.debateRoles Samples.juge
      Samples.answering (str "Should we adopt a 4-day work week?") 3 in
  let context :=
    Core.buildContext Samples.debateRoles
      (str "Should we adopt a 4-day work week?")
      (Samples.debate_role "optimist" "Optimiste/Champion")
      (Core.transcript s) 2 3 in
  length (Core.transcript s) = 12%nat
  /\ map Core.speaker context
     = [ Core.System; Core.User;
         Core.Participant (str "Devil's Advocate");
         Core.Participant (str "Optimiste/Champion");
         Core.Participant (str "Régulateur/Compliance");
         Core.Participant (str "CFO/Analyste Financier");
         Core.Participant (str "Devil's Advocate") ].
Proof. vm_compute. repeat split. Qed.

(** * Further properties of the components *)

(** ** ChatInterface: the handlers *)

Lemma filter_index_delete {A} (index : nat) (l : list A) (i : nat) :
  ChatInterface.filter_index (fun j => negb (j =? index)%nat) i l
  = if decide (index < i)%nat then l else delete (index - i)%nat l.
Proof.
  revert i. induction l as [|x l IH]; intros i; simpl.
  - destruct (decide (index < i)%nat); [reflexivity |].
    destruct (index - i)%nat; reflexivity.
  - rewrite IH. destruct (Nat.eqb_spec i index) as [-> | Hne]; simpl.
    + rewrite decide_True by lia. rewrite decide_False by lia.
      rewrite Nat.sub_diag. reflexivity.
    + destruct (decide (index < i)%nat) as [Hlt | Hge].
      * rewrite decide_True by lia. reflexivity.
      * rewrite decide_False by lia.
        replace (index - i)%nat with (S (index - S i)) by lia. reflexivity.
Qed.

Lemma state_eta (st : ChatInterface.state) :
  {| ChatInterface.input := ChatInterface.input st;
     ChatInterface.selectedFiles := ChatInterface.selectedFiles st;
     ChatInterface.fileInput := ChatInterface.fileInput st |} = st.
Proof. destruct st. reflexivity. Qed.

(** X1: removing a file chip removes exactly the file at that index and
    keeps the others in order; an index past the end changes nothing;
    removing the chip of a file just attached restores the selection; a
    submission hands over the files selected so far, in order. *)
Theorem file_selection (st : ChatInterface.state) (index : nat)
    (files : list ChatInterface.File) (f : ChatInterface.File) :
  ChatInterface.selectedFiles (ChatInterface.handleRemoveFile index st)
  = take index (ChatInterface.selectedFiles st)
    ++ drop (S index) (ChatInterface.selectedFiles st)
  /\ ((length (ChatInterface.selectedFiles st) <= index)%nat ->
      ChatInterface.handleRemoveFile index st = st)
  /\ ChatInterface.handleRemoveFile (length (ChatInterface.selectedFiles st))
       (ChatInterface.handleFileSelect [f] st) = st
  /\ (trim (ChatInterface.input st) <> [] ->
      (ChatInterface.handleSubmit false (ChatInterface.handleFileSelect files st)).1
      = [ ChatInterface.preventDefault;
          ChatInterface.onSendMessage (ChatInterface.input st)
            (ChatInterface.selectedFiles st ++ files) ]).
Proof.
  assert (Hdelete : forall index' st',
    ChatInterface.selectedFiles (ChatInterface.handleRemoveFile index' st')
    = delete index' (ChatInterface.selectedFiles st')).
  { intros index' st'. unfold ChatInterface.handleRemoveFile. simpl.
    rewrite filter_index_delete. rewrite decide_False by lia.
    rewrite Nat.sub_0_r. reflexivity. }
  split; [| split; [| split]].
  - rewrite Hdelete. apply delete_take_drop.
  - intros Hlen. rewrite <- (state_eta st) at 2.
    unfold ChatInterface.handleRemoveFile. f_equal.
    rewrite filter_index_delete. rewrite decide_False by lia.
    rewrite Nat.sub_0_r, delete_take_drop.
    rewrite take_ge, drop_ge by lia. apply app_nil_r.
  - rewrite <- (state_eta st) at 3.
    unfold ChatInterface.handleRemoveFile, ChatInterface.handleFileSelect.
    simpl. f_equal.
    rewrite filter_index_delete. rewrite decide_False by lia.
    rewrite Nat.sub_0_r, delete_take_drop.
    rewrite take_app_length, drop_ge by (rewrite length_app; simpl; lia).
    apply app_nil_r.
  - intros Htrim. unfold ChatInterface.handleSubmit. simpl.
    destruct (trim (ChatInterface.input st)); [contradiction | reflexivity].
Qed.

Lemma file_selection_witness :
  ChatInterface.handleRemoveFile 5 Samples.with_files = Samples.with_files
  /\ (ChatInterface.handleSubmit false
        (ChatInterface.handleFileSelect [Samples.file "plan.pdf"]
           Samples.with_files)).1
     = [ ChatInterface.preventDefault;
         ChatInterface.onSendMessage
           (ChatInterface.input Samples.with_files)
           (ChatInterface.selectedFiles Samples.with_files
            ++ [Samples.file "plan.pdf"]) ].
Proof.
  destruct (file_selection Samples.with_files 5 [Samples.file "plan.pdf"]
              (Samples.file "plan.pdf"))
    as (_ & Hrange & _ & Hsubmit).
  split.
  - apply Hrange. simpl. lia.
  - apply Hsubmit. vm_compute. discriminate.
Defined.

(** X2: a submission that went out clears the input, the selection and
    the file input, so a submission on the state so cleared (a second
    click or a second Enter after the update) sends nothing and changes
    nothing, whatever the loading flag then is. *)
Theorem handleSubmit_clears_and_never_resends (isLoading isLoading' : bool)
    (st : ChatInterface.state) (content : jsstring)
    (files : list ChatInterface.File) :
  ChatInterface.onSendMessage content files
    ∈ (ChatInterface.handleSubmit isLoading st).1 ->
  let st' := (ChatInterface.handleSubmit isLoading st).2 in
  ChatInterface.input st' = []
  /\ ChatInterface.selectedFiles st' = []
  /\ ChatInterface.fileInput st' = (fun _ => []) <$> ChatInterface.fileInput st
  /\ ChatInterface.handleSubmit isLoading' st' = ([ChatInterface.preventDefault], st').
Proof.
  intros Hsent. apply handleSubmit_calls in Hsent.
  destruct Hsent as (Htrim & -> & _ & _).
  unfold ChatInterface.handleSubmit. rewrite Htrim. simpl.
  repeat split.
Qed.

Lemma handleSubmit_clears_and_never_resends_witness :
  let st' := (ChatInterface.handleSubmit false Samples.with_files).2 in
  ChatInterface.input st' = []
  /\ ChatInterface.selectedFiles st' = []
  /\ ChatInterface.fileInput st'
     = (fun _ => []) <$> ChatInterface.fileInput Samples.with_files
  /\ ChatInterface.handleSubmit false st' = ([ChatInterface.preventDefault], st').
Proof.
  apply (handleSubmit_clears_and_never_resends false false Samples.with_files
           (ChatInterface.input Samples.with_files)
           (ChatInterface.selectedFiles Samples.with_files)).
  vm_compute. apply list_elem_of_further, list_elem_of_here.
Defined.

(** X3: the send button and the guard of [handleSubmit] agree: the button
    is disabled exactly when a submission would be ignored (only
    [preventDefault], state untouched), and enabled exactly when it would
    hand the input and the selected files to [onSendMessage]; the same
    holds for the Enter key without Shift, while any other key, and Enter
    with Shift, call nothing. *)
Theorem send_button_agrees_with_guard (isLoading : bool)
    (st : ChatInterface.state) (e : ChatInterface.KeyboardEvent) :
  exists disabled,
    ChatInterface.send_button isLoading st
    = Elem "button" "send-button" [Disabled disabled] [Text (str "Send")]
    /\ (disabled = true <->
        ChatInterface.handleSubmit isLoading st
        = ([ChatInterface.preventDefault], st))
    /\ (disabled = false <->
        (ChatInterface.handleSubmit isLoading st).1
        = [ ChatInterface.preventDefault;
            ChatInterface.onSendMessage (ChatInterface.input st)
              (ChatInterface.selectedFiles st) ])
    /\ ChatInterface.handleKeyDown isLoading e st
       = if bool_decide (ChatInterface.key e = str "Enter")
            && negb (ChatInterface.shiftKey e)
         then (ChatInterface.preventDefault
                 :: (ChatInterface.handleSubmit isLoading st).1,
               (ChatInterface.handleSubmit isLoading st).2)
         else ([], st).
Proof.
  eexists. split; [reflexivity |].
  unfold ChatInterface.handleSubmit, ChatInterface.handleKeyDown,
    ChatInterface.handleSubmit.
  destruct (truthy_str (trim (ChatInterface.input st))), isLoading; simpl;
    (split; [| split]);
    try (split; intros H; try reflexivity; try discriminate; congruence);
    destruct (bool_decide (ChatInterface.key e = str "Enter")
              && negb (ChatInterface.shiftKey e)); reflexivity.
Qed.

(** ** DebateRounds: the grouping on any history *)

Section GroupingFacts.

Import DebateRounds.

Lemma filter_round_round (k k' : Z) (h : list Turn) :
  filter (of_round k) (filter (of_round k') h)
  = if decide (k = k') then filter (of_round k) h else [].
Proof.
  induction h as [|t h IH]; [destruct (decide (k = k')); reflexivity |].
  destruct (decide (round t = k')) as [Hk' | Hk'].
  - rewrite (filter_cons_True (of_round k') t h) by exact Hk'.
    destruct (decide (round t = k)) as [Hk | Hk].
    + rewrite !(filter_cons_True (of_round k)) by exact Hk. rewrite IH.
      destruct (decide (k = k')); [reflexivity | congruence].
    + rewrite !(filter_cons_False (of_round k)) by exact Hk. exact IH.
  - rewrite (filter_cons_False (of_round k') t h) by exact Hk'. rewrite IH.
    destruct (decide (k = k')) as [-> | Hne]; [| reflexivity].
    rewrite (filter_cons_False (of_round k') t h) by exact Hk'. reflexivity.
Qed.

Lemma concat_groups_perm (ks : list Z) (h : list Turn) :
  NoDup ks -> (forall t, t ∈ h -> round t ∈ ks) ->
  concat (map (fun k => filter (of_round k) h) ks) ≡ₚ h.
Proof.
  revert h. induction ks as [|k ks IH]; intros h Hnodup Hin.
  - destruct h as [|t h]; [reflexivity |].
    specialize (Hin t (list_elem_of_here _ _)).
    apply elem_of_nil in Hin. contradiction.
  - apply NoDup_cons in Hnodup. destruct Hnodup as [Hnotin Hnodup].
    simpl.
    transitivity (filter (of_round k) h ++ filter (fun t => round t <> k) h);
      [| apply (filter_app_complement (of_round k) h)].
    apply Permutation_app; [reflexivity |].
    etransitivity; [| apply (IH (filter (fun t => round t <> k) h))].
    + erewrite map_ext_in; [reflexivity |].
      intros k' Hk'. simpl. symmetry. apply filter_round_other.
      intros ->. apply Hnotin. apply list_elem_of_In. exact Hk'.
    + exact Hnodup.
    + intros t Ht. apply list_elem_of_filter in Ht. destruct Ht as [Hne Ht].
      specialize (Hin t Ht). apply elem_of_cons in Hin.
      destruct Hin as [Heq | Hin]; [contradiction | exact Hin].
Qed.

Lemma concat_groups_filter (ks : list Z) (h : list Turn) (k : Z) :
  NoDup ks ->
  filter (of_round k) (concat (map (fun k' => filter (of_round k') h) ks))
  = if decide (k ∈ ks) then filter (of_round k) h else [].
Proof.
  induction ks as [|k' ks IH]; intros Hnodup.
  - destruct (decide (k ∈ [])) as [Hin | _]; [| reflexivity].
    apply elem_of_nil in Hin. contradiction.
  - apply NoDup_cons in Hnodup. destruct Hnodup as [Hnotin Hnodup].
    cbn [map concat].
    rewrite filter_app, filter_round_round, (IH Hnodup).
    destruct (decide (k = k')) as [Heq | Hne].
    + subst k'. destruct (decide (k ∈ ks)) as [Hin | _]; [contradiction |].
      destruct (decide (k ∈ k :: ks)) as [_ | Hout2]; [apply app_nil_r |].
      exfalso. apply Hout2. apply list_elem_of_here.
    + destruct (decide (k ∈ ks)) as [Hin | Hout];
        destruct (decide (k ∈ k' :: ks)) as [Hin2 | Hout2];
        try reflexivity.
      * exfalso. apply Hout2. apply list_elem_of_further. exact Hin.
      * exfalso. apply elem_of_cons in Hin2. destruct Hin2; contradiction.
Qed.

Lemma concat_groups_sorted (ks : list Z) (h : list Turn) :
  StronglySorted Z.le ks ->
  StronglySorted (fun a b => (round a <= round b)%Z)
    (concat (map (fun k => filter (of_round k) h) ks)).
Proof.
  induction 1 as [|k ks Hsorted IH Hall]; simpl; [constructor |].
  apply StronglySorted_app_2; [| | exact IH].
  - intros t1 t2 Ht1 Ht2. apply list_elem_of_filter in Ht1.
    destruct Ht1 as [Hk _].
    apply list_elem_of_In, in_concat in Ht2. destruct Ht2 as [g [Hg Ht2]].
    apply in_map_iff in Hg. destruct Hg as [k' [<- Hk']].
    apply list_elem_of_In, list_elem_of_filter in Ht2. destruct Ht2 as [Hk2 _].
    rewrite Forall_forall in Hall.
    specialize (Hall k' ltac:(apply list_elem_of_In; exact Hk')). lia.
  - clear. induction h as [|t h IH]; [constructor |].
    destruct (decide (round t = k)) as [Hk | Hk].
    + rewrite filter_cons_True by exact Hk. constructor; [exact IH |].
      apply Forall_forall. intros t' Ht'. apply list_elem_of_filter in Ht'.
      destruct Ht' as [Hk' _]. lia.
    + rewrite filter_cons_False by exact Hk. exact IH.
Qed.

End GroupingFacts.

(** X4: on any history, ordered or not, the groups of DebateRounds read in
    the order of the tabs are the history sorted by round, stably: a
    permutation of the history with rounds that never decrease, in which
    the turns of each round keep the order they had.  No turn is lost or
    shown twice. *)
Theorem DebateRounds_groups_stable_sort (debateHistory : list Turn) :
  let grouped :=
    concat (map (DebateRounds.currentRoundTurns debateHistory)
                (DebateRounds.roundNumbers debateHistory)) in
  grouped ≡ₚ debateHistory
  /\ StronglySorted (fun a b => (round a <= round b)%Z) grouped
  /\ forall k, filter (of_round k) grouped = filter (of_round k) debateHistory.
Proof.
  intros grouped. subst grouped.
  destruct (roundNumbers_sorted debateHistory) as [Hsorted Hnodup].
  rewrite (map_ext _ (fun k => filter (of_round k) debateHistory))
    by (intros k; apply currentRoundTurns_filter).
  split; [| split].
  - apply concat_groups_perm; [exact Hnodup |].
    intros t Ht. apply elem_of_roundNumbers. exists t. auto.
  - apply concat_groups_sorted. exact Hsorted.
  - intros k. rewrite concat_groups_filter by exact Hnodup.
    destruct (decide (k ∈ DebateRounds.roundNumbers debateHistory))
      as [Hin | Hout]; [reflexivity |].
    destruct (filter (of_round k) debateHistory) as [|t l] eqn:Hf;
      [reflexivity |].
    exfalso. apply Hout. apply elem_of_roundNumbers.
    assert (Ht : t ∈ filter (of_round k) debateHistory)
      by (rewrite Hf; apply list_elem_of_here).
    apply list_elem_of_filter in Ht. destruct Ht as [Hk Ht].
    exists t. auto.
Qed.

Lemma by_class_active_tab (activeRound k : Z) :
  by_class "round-tab active" (DebateRounds.round_tab activeRound k)
  = if decide (k = activeRound)
    then [DebateRounds.round_tab activeRound k] else [].
Proof.
  unfold DebateRounds.round_tab.
  destruct (bool_decide_reflect (activeRound = k)) as [Heq | Hne];
    destruct (decide (k = activeRound)); try congruence; reflexivity.
Qed.

Lemma by_class_active_tabs (activeRound : Z) (ks : list Z) :
  flat_map (by_class "round-tab active")
    (map (DebateRounds.round_tab activeRound) ks)
  = map (DebateRounds.round_tab activeRound)
        (filter (fun k => k = activeRound) ks).
Proof.
  induction ks as [|k ks IH]; [reflexivity |].
  cbn [map flat_map]. rewrite IH, by_class_active_tab.
  destruct (decide (k = activeRound)) as [Heq | Hne].
  - rewrite filter_cons_True by exact Heq. reflexivity.
  - rewrite filter_cons_False by exact Hne. reflexivity.
Qed.

Lemma filter_eq_NoDup (a : Z) (ks : list Z) :
  NoDup ks ->
  filter (fun k => k = a) ks = if decide (a ∈ ks) then [a] else [].
Proof.
  induction 1 as [|k ks Hnotin Hnodup IH].
  - destruct (decide (a ∈ [])) as [Hin | _]; [| reflexivity].
    apply elem_of_nil in Hin. contradiction.
  - destruct (decide (k = a)) as [-> | Hne].
    + rewrite filter_cons_True by reflexivity. rewrite IH.
      destruct (decide (a ∈ ks)); [contradiction |].
      destruct (decide (a ∈ a :: ks)) as [_ | Hout]; [reflexivity |].
      exfalso. apply Hout. apply list_elem_of_here.
    + rewrite filter_cons_False by exact Hne. rewrite IH.
      destruct (decide (a ∈ ks)) as [Hin | Hout];
        destruct (decide (a ∈ k :: ks)) as [Hin2 | Hout2];
        try reflexivity.
      * exfalso. apply Hout2. apply list_elem_of_further. exact Hin.
      * exfalso. apply elem_of_cons in Hin2. destruct Hin2; congruence.
Qed.

Lemma StronglySorted_le_lt (ks : list Z) :
  StronglySorted Z.le ks -> NoDup ks -> StronglySorted Z.lt ks.
Proof.
  induction 1 as [|k ks Hsorted IH Hall]; intros Hnodup; constructor.
  - apply IH. apply NoDup_cons in Hnodup. apply Hnodup.
  - apply NoDup_cons in Hnodup. destruct Hnodup as [Hnotin _].
    apply Forall_forall. intros k' Hk'. rewrite Forall_forall in Hall.
    specialize (Hall k' Hk').
    assert (k <> k') by (intros ->; contradiction). lia.
Qed.

(** X5: the tabs of DebateRounds are the rounds of the history in strictly
    ascending order, each once.  The tab of the active round is the only
    one marked active; when no turn has the active round (the initial
    round 1 on a history without it, for instance) no tab is marked, and
    the component shows its header and no turn. *)
Theorem DebateRounds_tabs (debateHistory : list Turn) (activeRound : Z) :
  debateHistory <> [] ->
  exists n,
    DebateRounds.DebateRounds (Some debateHistory) activeRound = Some n
    /\ handlers n = map SetActiveRound (DebateRounds.roundNumbers debateHistory)
    /\ StronglySorted Z.lt (DebateRounds.roundNumbers debateHistory)
    /\ by_class "round-tab active" n
       = (if decide (activeRound ∈ map round debateHistory)
          then [DebateRounds.round_tab activeRound activeRound] else [])
    /\ ((forall t, t ∈ debateHistory -> round t <> activeRound) ->
        by_class "debate-turn" n = []).
Proof.
  intros Hne.
  destruct (DebateRounds_rendering debateHistory activeRound Hne)
    as (n & Hn & Hturns & Htabs).
  destruct (roundNumbers_sorted debateHistory) as [Hsorted Hnodup].
  exists n. split; [exact Hn |]. split; [exact Htabs |].
  split; [apply StronglySorted_le_lt; assumption |]. split.
  - unfold DebateRounds.DebateRounds in Hn.
    destruct debateHistory as [|t h]; [contradiction |].
    cbn [length Nat.eqb] in Hn. injection Hn as <-.
    cbn [by_class flat_map app String.eqb Ascii.eqb Bool.eqb].
    rewrite by_class_active_tabs, filter_eq_NoDup by exact Hnodup.
    rewrite (flat_map_imap_nil (by_class "round-tab active")
               DebateRounds.debate_turn) by (intros; reflexivity).
    rewrite !app_nil_r.
    destruct (decide (activeRound ∈ DebateRounds.roundNumbers (t :: h)))
      as [Hin | Hout];
      destruct (decide (activeRound ∈ map round (t :: h)))
        as [Hex | Hnex]; try reflexivity.
    + exfalso. apply Hnex. apply elem_of_roundNumbers in Hin.
      destruct Hin as [t0 [Ht0 <-]]. apply list_elem_of_fmap.
      exists t0. auto.
    + exfalso. apply Hout. apply elem_of_roundNumbers.
      apply list_elem_of_fmap in Hex. destruct Hex as [t0 [-> Ht0]].
      exists t0. auto.
  - intros Hnone. rewrite Hturns.
    assert (Hf : filter (fun t => round t = activeRound) debateHistory = []).
    { clear -Hnone. induction debateHistory as [|t h IH]; [reflexivity |].
      rewrite filter_cons_False
        by (apply Hnone, list_elem_of_here).
      apply IH. intros t' Ht'. apply Hnone. apply list_elem_of_further, Ht'. }
    rewrite Hf. reflexivity.
Qed.

Lemma DebateRounds_tabs_witness :
  exists n,
    DebateRounds.DebateRounds (Some Samples.partial_transcript) 3 = Some n
    /\ handlers n = [SetActiveRound 1; SetActiveRound 2]
    /\ by_class "round-tab active" n = []
    /\ by_class "debate-turn" n = [].
Proof.
  destruct (DebateRounds_tabs Samples.partial_transcript 3)
    as (n & Hn & Htabs & _ & Hactive & Hnone).
  - discriminate.
  - exists n. split; [exact Hn |]. split; [rewrite Htabs; vm_compute; reflexivity |].
    split.
    + rewrite Hactive. vm_compute. reflexivity.
    + apply Hnone. intros t Ht Hr. unfold Samples.partial_transcript in Ht.
      repeat (apply elem_of_cons in Ht; destruct Ht as [-> | Ht];
              [discriminate Hr |]).
      apply elem_of_nil in Ht. exact Ht.
Defined.

(** ** AgentMessage: the colours *)

Lemma getAgentColor_palette_witness :
  exists c,
    AgentMessage.getAgentColor (str "Devil's Advocate") = Some (Own c)
    /\ c ∈ AgentMessage.FALLBACK_COLORS.
Proof.
  destruct (getAgentColor_palette (str "Devil's Advocate")) as (c & Hc & Hin & _).
  - apply (proj1 (bool_decide_eq_false _)). vm_compute. reflexivity.
  - exists c. split; assumption.
Defined.

Lemma hash_cons (x : N) (l : jsstring) :
  AgentMessage.hash (x :: l) = (x + AgentMessage.hash l)%N.
Proof.
  unfold AgentMessage.hash. simpl.
  assert (H : forall l a b,
             fold_left (fun acc char => (acc + char)%N) l (a + b)%N
             = (a + fold_left (fun acc char => (acc + char)%N) l b)%N).
  { clear. induction l as [|y l IH]; intros a b; simpl; [reflexivity |].
    rewrite <- N.add_assoc. apply IH. }
  rewrite N.add_comm. rewrite (H l x 0%N). reflexivity.
Qed.

Lemma hash_Permutation (a b : jsstring) :
  a ≡ₚ b -> AgentMessage.hash a = AgentMessage.hash b.
Proof.
  induction 1 as [| x l l' _ IH | x y l | l l' l'' _ IH1 _ IH2].
  - reflexivity.
  - rewrite !hash_cons, IH. reflexivity.
  - rewrite !hash_cons. lia.
  - congruence.
Qed.

(** X7: the fallback colour depends on the characters of the role name
    and not on their order: two names that are neither known roles nor
    inherited member names, and that are made of the same characters,
    get the same colour. *)
Theorem fallback_color_ignores_character_order (a b : jsstring) :
  a ≡ₚ b ->
  AgentMessage.ROLE_COLORS !! a = None ->
  AgentMessage.ROLE_COLORS !! b = None ->
  a ∉ AgentMessage.Object_prototype ->
  b ∉ AgentMessage.Object_prototype ->
  AgentMessage.getAgentColor a = AgentMessage.getAgentColor b.
Proof.
  intros Hperm Ha Hb Hpa Hpb. unfold AgentMessage.getAgentColor, AgentMessage.get.
  rewrite Ha, Hb.
  rewrite !bool_decide_eq_false_2 by assumption. simpl.
  rewrite (hash_Permutation a b Hperm). reflexivity.
Qed.

Lemma fallback_color_ignores_character_order_witness :
  AgentMessage.getAgentColor (str "CFO") = AgentMessage.getAgentColor (str "FCO").
Proof.
  apply fallback_color_ignores_character_order.
  - apply perm_swap.
  - vm_compute. reflexivity.
  - vm_compute. reflexivity.
  - apply (proj1 (bool_decide_eq_false _)). vm_compute. reflexivity.
  - apply (proj1 (bool_decide_eq_false _)). vm_compute. reflexivity.
Defined.

(** X8: none of the role names of the role files is a key of
    [ROLE_COLORS] (nor an inherited member name), so every bubble of the
    shipped council takes a fallback colour; by the sums of their
    character codes the four debating roles share two colours: the
    Devil's Advocate and the CFO one, the Optimist and the Regulator the
    other. *)
Theorem role_files_colours :
  Forall (fun f =>
            AgentMessage.ROLE_COLORS !! RoleFiles.role_name f = None
            /\ RoleFiles.role_name f ∉ AgentMessage.Object_prototype)
         RoleFiles.all
  /\ map (fun f => AgentMessage.getAgentColor (RoleFiles.role_name f))
         RoleFiles.all
     = [ Some (Own (str "#F0E5FF")); Some (Own (str "#FFE5E5"));
         Some (Own (str "#FFE5E5")); Some (Own (str "#F0E5FF"));
         Some (Own (str "#E5F3FF")) ].
Proof.
  split.
  - repeat constructor; try (vm_compute; reflexivity);
      apply (proj1 (bool_decide_eq_false _)); vm_compute; reflexivity.
  - vm_compute. reflexivity.
Qed.

(** ** Stage3 and the message list of ChatInterface *)

(** X9: a synthesis without a role name (the field missing or empty) is
    shown under the default name: the bubble reads "Juge" and is painted
    with the colour reserved for the judge in [ROLE_COLORS]; the panel
    reads "Juge/Synthétiseur". *)
Theorem Stage3_default_judge (synthesis : object) :
  synthesis !! "role_name" = None \/ synthesis !! "role_name" = Some [] ->
  exists bubble panel,
    Stage3.Stage3 (Some synthesis) = Some bubble
    /\ Stage3Panel.Stage3 (Some synthesis) = Some panel
    /\ by_class "agent-role" bubble
       = [Elem "span" "agent-role" [] [Text (str "Juge")]]
    /\ backgrounds bubble = [Own (str "#E5FFE5")]
    /\ by_class "role-name" panel
       = [Elem "span" "role-name" [] [Text (str "Juge/Synthétiseur")]].
Proof.
  intros Hname.
  assert (Hd : forall d, or_default (synthesis !! "role_name") d = d).
  { intros d. destruct Hname as [-> | ->]; reflexivity. }
  eexists. eexists. split; [reflexivity |]. split; [reflexivity |].
  rewrite !Hd. unfold AgentMessage.AgentMessage.
  assert (Hcolor : AgentMessage.getAgentColor (str "Juge")
                   = Some (Own (str "#E5FFE5")))
    by (vm_compute; reflexivity).
  rewrite Hcolor.
  destruct (synthesis !! "model"); repeat split.
Qed.

Lemma Stage3_default_judge_witness :
  exists bubble,
    Stage3.Stage3 (Some {[ "response" := str "After considering all perspectives..." ]})
    = Some bubble
    /\ backgrounds bubble = [Own (str "#E5FFE5")].
Proof.
  destruct (Stage3_default_judge
              {[ "response" := str "After considering all perspectives..." ]})
    as (bubble & panel & Hb & _ & _ & Hcolor & _).
  - left. vm_compute. reflexivity.
  - exists bubble. split; assumption.
Defined.

Lemma stage1_messages_map (stage1 : list Turn) :
  ChatInterface.stage1_messages (Some stage1)
  = map (ChatInterface.stage1_message 0) stage1.
Proof.
  unfold ChatInterface.stage1_messages.
  assert (H : forall (f : nat -> nat),
             imap (fun i => ChatInterface.stage1_message (f i)) stage1
             = map (ChatInterface.stage1_message 0) stage1).
  { induction stage1 as [|t l IH]; intros f; [reflexivity |].
    rewrite imap_cons. simpl. f_equal. apply (IH (fun i => f (S i))). }
  exact (H (fun i => i)).
Qed.

Lemma by_class_stage1_message (t : Turn) :
  by_class "agent-role" (ChatInterface.stage1_message 0 t)
  = [Elem "span" "agent-role" [] [Text (role_name t)]]
  /\ by_class "agent-model" (ChatInterface.stage1_message 0 t)
     = [Elem "div" "agent-model" [] [Text (model t)]]
  /\ by_class "agent-content markdown-content" (ChatInterface.stage1_message 0 t)
     = [Elem "div" "agent-content markdown-content" []
          [ReactMarkdown (Some (message t))]]
  /\ by_class "agent-round" (ChatInterface.stage1_message 0 t)
     = if truthy_num (round t) then [AgentMessage.round_badge (round t)] else [].
Proof.
  unfold ChatInterface.stage1_message, AgentMessage.AgentMessage.
  destruct (truthy_num (round t)); repeat split.
Qed.

(** X10: the group chat of an assistant message shows every turn of
    [stage1], once and in order, complete or not: one bubble per turn,
    with the role name, the model and the text of the turn, and the
    round badge on every turn whose round is not 0; without [stage1]
    there is no bubble. *)
Theorem stage1_messages_show_every_turn (stage1 : list Turn) :
  let bubbles := ChatInterface.stage1_messages (Some stage1) in
  length bubbles = length stage1
  /\ flat_map (by_class "agent-role") bubbles
     = map (fun t => Elem "span" "agent-role" [] [Text (role_name t)]) stage1
  /\ flat_map (by_class "agent-model") bubbles
     = map (fun t => Elem "div" "agent-model" [] [Text (model t)]) stage1
  /\ flat_map (by_class "agent-content markdown-content") bubbles
     = map (fun t => Elem "div" "agent-content markdown-content" []
                       [ReactMarkdown (Some (message t))]) stage1
  /\ flat_map (by_class "agent-round") bubbles
     = map (fun t => AgentMessage.round_badge (round t))
           (filter (fun t => round t <> 0%Z) stage1)
  /\ ChatInterface.stage1_messages None = [].
Proof.
  intros bubbles. subst bubbles. rewrite stage1_messages_map.
  split; [apply length_map |].
  repeat split; induction stage1 as [|t l IH]; try reflexivity;
    cbn [map flat_map]; rewrite IH;
    destruct (by_class_stage1_message t) as (Hrole & Hmodel & Htext & Hround).
  - rewrite Hrole. reflexivity.
  - rewrite Hmodel. reflexivity.
  - rewrite Htext. reflexivity.
  - rewrite Hround. unfold truthy_num.
    destruct (Z.eqb_spec (round t) 0) as [Hz | Hnz]; simpl.
    + rewrite filter_cons_False by (intros H; apply H, Hz). reflexivity.
    + rewrite filter_cons_True by exact Hnz. reflexivity.
Qed.

(** ** Regular expressions: where a match lies *)

Section RegExpMatches.

Import RegExp.

Variable icase : bool.

Abbreviation continuation :=
  (nat -> jsstring -> captures -> option (nat * captures)).

(** A successful match goes through its continuation on a rest of the
    input: at an index [i'] between [i + min_length r] and the end of the
    input, with the input from [i'] on. *)
Lemma matcher_reaches (fuel : nat) :
  forall (r : regex) (i : nat) (s : jsstring) (c : captures)
         (k : continuation) (res : nat * captures),
    matcher fuel icase r i s c k = Some res ->
    exists i' c',
      (i + min_length r <= i')%nat /\ (i' <= i + length s)%nat
      /\ k i' (drop (i' - i) s) c' = Some res.
Proof.
  assert (Hhere : forall i (s : jsstring) c (k : continuation) res n,
             n = 0%nat -> k i s c = Some res ->
             exists i' c',
               (i + n <= i')%nat /\ (i' <= i + length s)%nat
               /\ k i' (drop (i' - i) s) c' = Some res).
  { intros i s c k res n -> H. exists i, c.
    rewrite Nat.sub_diag, drop_0. repeat split; [lia | lia | exact H]. }
  induction fuel as [|fuel IHfuel];
    induction r as [| items | r1 IH1 r2 IH2 | r1 IH1 r2 IH2 | greedy r' IH
                    | n r' IH | r' IH | | |];
    intros i s c k res H; rewrite matcher_unfold in H; simpl min_length.
  all: try (apply (Hhere i s c k res 0%nat eq_refl H)).
  all: try discriminate.
  all: try (destruct s as [|x s']; [discriminate |];
            destruct (existsb (in_cset icase x) items); [| discriminate];
            exists (S i), c;
            replace (S i - i)%nat with 1%nat by lia; simpl; rewrite drop_0;
            repeat split; [lia | lia | exact H]).
  all: try (apply IH1 in H; destruct H as (i1 & c1 & Hi1 & Hb1 & H);
            apply IH2 in H; destruct H as (i2 & c2 & Hi2 & Hb2 & H);
            rewrite length_drop in Hb2; rewrite drop_drop in H;
            replace (i1 - i + (i2 - i1))%nat with (i2 - i)%nat in H by lia;
            exists i2, c2; repeat split; [lia | lia | exact H]).
  all: try (destruct (matcher _ icase r1 i s c k) as [res1|] eqn:H1;
            [ injection H as <-; apply IH1 in H1;
              destruct H1 as (i1 & c1 & Hi1 & Hb1 & H1);
              exists i1, c1; repeat split; [lia | lia | exact H1]
            | apply IH2 in H; destruct H as (i2 & c2 & Hi2 & Hb2 & H);
              exists i2, c2; repeat split; [lia | lia | exact H] ]).
  all: try (apply IH in H; destruct H as (i1 & c1 & Hi1 & Hb1 & H);
            eexists i1, _; repeat split; [lia | lia | exact H]).
  all: try (destruct (matcher _ icase r' i s c _) as [[e c']|];
            [| discriminate]; apply (Hhere i s c' k res 0%nat eq_refl H)).
  all: try (destruct (i =? 0)%nat; [| discriminate];
            apply (Hhere i s c k res 0%nat eq_refl H)).
  all: try (destruct s; [| discriminate];
            apply (Hhere i [] c k res 0%nat eq_refl H)).
  (* the star, with fuel left *)
  cbv zeta in H.
  set (K := fun i' s' c' =>
              if (i' =? i)%nat then None
              else matcher fuel icase (RStar greedy r') i' s' c' k) in H.
  assert (Hiter : forall res',
             matcher (S fuel) icase r' i s c K = Some res' ->
             exists i' c',
               (i + 0 <= i')%nat /\ (i' <= i + length s)%nat
               /\ k i' (drop (i' - i) s) c' = Some res').
  { intros res' Hres'. apply IH in Hres'.
    destruct Hres' as (i1 & c1 & Hi1 & Hb1 & HK). unfold K in HK.
    destruct (i1 =? i)%nat; [discriminate |].
    apply IHfuel in HK. destruct HK as (i2 & c2 & Hi2 & Hb2 & HK).
    simpl min_length in Hi2. rewrite length_drop in Hb2.
    rewrite drop_drop in HK.
    replace (i1 - i + (i2 - i1))%nat with (i2 - i)%nat in HK by lia.
    exists i2, c2. repeat split; [lia | lia | exact HK]. }
  destruct greedy.
  - destruct (matcher (S fuel) icase r' i s c K) as [res'|] eqn:Hres'.
    + injection H as <-. apply Hiter. reflexivity.
    + apply (Hhere i s c k res 0%nat eq_refl H).
  - destruct (k i s c) as [res'|] eqn:Hk.
    + apply (Hhere i s c k res 0%nat eq_refl). rewrite Hk. exact H.
    + apply Hiter. exact H.
Qed.

(** The result of a search: the first index, from [i] on, at which the
    pattern matches, with the end and the captures of that match. *)
Lemma search_found (r : regex) (fuel : nat) (s : jsstring) (i : nat)
    (m : match_result) :
  search fuel icase r i s = Some m ->
  exists j,
    (j <= length s)%nat /\ index m = (i + j)%nat
    /\ matcher fuel icase r (i + j) (drop j s) ∅ (fun i' _ c' => Some (i', c'))
       = Some (end_index m, groups m)
    /\ whole m = take (end_index m - index m) (drop j s)
    /\ (index m + min_length r <= end_index m)%nat
    /\ (end_index m <= i + length s)%nat.
Proof.
  revert i. induction s as [|x s IH]; intros i H; simpl in H.
  - destruct (matcher fuel icase r i [] ∅ _) as [[e c]|] eqn:Hm;
      [| discriminate].
    injection H as <-. simpl. exists 0%nat. rewrite Nat.add_0_r, drop_0.
    pose proof (matcher_reaches _ _ _ _ _ _ _ Hm) as (i' & c' & Hi' & Hb & Heq).
    injection Heq as <- <-. simpl in Hb.
    repeat split; [lia | exact Hm | lia | simpl; lia].
  - destruct (matcher fuel icase r i (x :: s) ∅ _) as [[e c]|] eqn:Hm.
    + injection H as <-. simpl. exists 0%nat. rewrite Nat.add_0_r, drop_0.
      pose proof (matcher_reaches _ _ _ _ _ _ _ Hm) as (i' & c' & Hi' & Hb & Heq).
      injection Heq as <- <-. simpl in Hb.
      repeat split; [lia | exact Hm | lia | simpl; lia].
    + apply IH in H. destruct H as (j & Hj & Hidx & Hm' & Hw & Hmin & Hend).
      exists (S j). simpl.
      replace (i + S j)%nat with (S i + j)%nat by lia.
      repeat split; [lia | lia | exact Hm' | exact Hw | lia | lia].
Qed.

Lemma exec_found (r : regex) (text : jsstring) (lastIndex : nat)
    (m : match_result) :
  exec icase r text lastIndex = Some m ->
  (lastIndex <= index m)%nat
  /\ (index m + min_length r <= end_index m)%nat
  /\ (end_index m <= length text)%nat
  /\ whole m = take (end_index m - index m) (drop (index m) text)
  /\ matcher (S (length text)) icase r (index m) (drop (index m) text) ∅
       (fun i' _ c' => Some (i', c'))
     = Some (end_index m, groups m).
Proof.
  unfold exec. destruct (Nat.ltb_spec (length text) lastIndex) as [|Hle];
    [discriminate |].
  intros H. apply search_found in H.
  destruct H as (j & Hj & Hidx & Hm & Hw & Hmin & Hend).
  rewrite length_drop in Hj, Hend. rewrite drop_drop in Hm, Hw.
  rewrite Hidx in Hw |- *.
  repeat split; [lia | lia | lia | exact Hw | exact Hm].
Qed.

End RegExpMatches.

(** ** SynthesisDashboard: the extraction helpers *)



Section BulletFacts.

Import RegExp.

Lemma search_after_bol (icase : bool) (r : regex) (fuel : nat) (s : jsstring)
    (i : nat) :
  search fuel icase (RSeq RBol r) (S i) s = None.
Proof.
  revert i. induction s as [|x s IH]; intros i; simpl;
    rewrite matcher_unfold; cbv beta iota; rewrite matcher_unfold;
    cbv beta iota; simpl (S i =? 0)%nat; cbv iota; [reflexivity | apply IH].
Qed.

Lemma length_trimStart (s : jsstring) :
  (length (trimStart s) <= length s)%nat.
Proof.
  induction s as [|c s IH]; simpl; [lia |].
  destruct (is_space c); simpl; lia.
Qed.

Lemma drop_trimStart (s : jsstring) :
  drop (length s - length (trimStart s)) s = trimStart s.
Proof.
  induction s as [|c s IH]; simpl; [reflexivity |].
  destruct (is_space c) eqn:Hc.
  - pose proof (length_trimStart s).
    replace (S (length s) - length (trimStart s))%nat
      with (S (length s - length (trimStart s))) by lia.
    simpl. exact IH.
  - simpl. rewrite Nat.sub_diag. reflexivity.
Qed.

(** The greedy [\s*] in front of a continuation that accepts everything
    takes the whole run of white space. *)
Lemma matcher_spaces (icase : bool)
    (K : nat -> jsstring -> captures -> option (nat * captures)) :
  (forall i s c, K i s c = Some (i, c)) ->
  forall (fuel : nat) (s : jsstring) (i : nat) (c : captures),
    (length s < fuel)%nat ->
    matcher fuel icase (RStar true (RSet [CSpace])) i s c K
    = Some ((i + (length s - length (trimStart s)))%nat, c).
Proof.
  intros HK. induction fuel as [|fuel IH]; intros s i c Hfuel; [lia |].
  rewrite matcher_unfold. cbv beta iota zeta.
  rewrite matcher_unfold. cbv beta iota.
  destruct s as [|x s'].
  - rewrite HK. simpl. f_equal. f_equal. lia.
  - cbn [existsb in_cset]. rewrite orb_false_r. simpl trimStart.
    destruct (is_space x) eqn:Hx.
    + replace (S i =? i)%nat with false by (symmetry; apply Nat.eqb_neq; lia).
      rewrite IH by (simpl in Hfuel; lia).
      pose proof (length_trimStart s'). f_equal. f_equal. simpl. lia.
    + rewrite HK. f_equal. f_equal. simpl. lia.
Qed.

Lemma bullet_pattern :
  SynthesisDashboard.bullet
  = RSeq RBol
      (RSeq (RSet [CChar 45; CChar 42; CChar 8226])
         (RSeq (RSeq (RSet [CSpace]) (RStar true (RSet [CSpace]))) REmpty)).
Proof. vm_compute. reflexivity. Qed.

(** [line.match(/^[-*•]\s+/)]: the pattern matches a line that starts
    with one of the three marks and a white space after it, and then
    takes the mark and all the white space that follows. *)
Lemma match_bullet (l : jsstring) :
  match_ false SynthesisDashboard.bullet l
  = match l with
    | mark :: sp :: rest =>
      if ((mark =? 45) || (mark =? 42) || (mark =? 8226))%N && is_space sp
      then
        let e := (2 + (length rest - length (trimStart rest)))%nat in
        Some {| index := 0; end_index := e; whole := take (e - 0) l;
                groups := ∅ |}
      else None
    | _ => None
    end.
Proof.
  rewrite bullet_pattern. unfold match_, exec.
  replace (length l <? 0)%nat with false by (symmetry; apply Nat.ltb_ge; lia).
  rewrite drop_0.
  set (k0 := fun (i' : nat) (_ : jsstring) (c' : captures) => Some (i', c')).
  assert (Hm : matcher (S (length l)) false
                 (RSeq RBol
                    (RSeq (RSet [CChar 45; CChar 42; CChar 8226])
                       (RSeq (RSeq (RSet [CSpace]) (RStar true (RSet [CSpace])))
                          REmpty))) 0 l ∅ k0
               = match l with
                 | mark :: sp :: rest =>
                   if ((mark =? 45) || (mark =? 42) || (mark =? 8226))%N
                      && is_space sp
                   then Some ((2 + (length rest - length (trimStart rest)))%nat, ∅)
                   else None
                 | _ => None
                 end).
  { do 2 (rewrite matcher_unfold; cbv beta iota).
    simpl (0 =? 0)%nat. cbv iota.
    do 2 (rewrite matcher_unfold; cbv beta iota).
    destruct l as [|mark l1]; [reflexivity |].
    cbn [existsb in_cset]. rewrite orb_false_r.
    rewrite (N.eqb_sym 45), (N.eqb_sym 42), (N.eqb_sym 8226), orb_assoc.
    destruct ((mark =? 45) || (mark =? 42) || (mark =? 8226))%N;
      [| destruct l1; reflexivity].
    do 3 (rewrite matcher_unfold; cbv beta iota).
    destruct l1 as [|sp rest]; [reflexivity |].
    cbn [existsb in_cset]. rewrite orb_false_r. simpl andb.
    destruct (is_space sp); [| reflexivity].
    rewrite (matcher_spaces false) with (fuel := S (length (mark :: sp :: rest))).
    - reflexivity.
    - intros i s c. rewrite matcher_unfold. reflexivity.
    - simpl. lia. }
  subst k0. destruct l as [|mark l1].
  - cbn [search]. rewrite Hm. reflexivity.
  - cbn [search]. rewrite Hm. clear Hm.
    destruct l1 as [|sp rest]; [reflexivity |].
    destruct (((mark =? 45) || (mark =? 42) || (mark =? 8226))%N && is_space sp).
    + reflexivity.
    + apply search_after_bol.
Qed.

End BulletFacts.

Lemma trimStart_head (s : jsstring) (c : N) (r : jsstring) :
  trimStart s = c :: r -> is_space c = false.
Proof.
  induction s as [|x s IH]; simpl; [discriminate |].
  destruct (is_space x) eqn:Hx; [exact IH |].
  intros H. injection H as <- _. exact Hx.
Qed.

Lemma trimStart_suffix (s : jsstring) : exists pre, s = pre ++ trimStart s.
Proof.
  induction s as [|x s [pre IH]]; simpl; [exists []; reflexivity |].
  destruct (is_space x).
  - exists (x :: pre). simpl. f_equal. exact IH.
  - exists []. reflexivity.
Qed.

(** A string that starts and ends with a character that is not white
    space is left as it is by [trim]. *)
Lemma trim_fixed (p : jsstring) (c : N) (r : jsstring) :
  rev p = c :: r -> is_space c = false ->
  (forall d q, p = d :: q -> is_space d = false) ->
  trim p = p.
Proof.
  intros Hrev Hc Hhead. unfold trim, trimEnd.
  assert (Hp : trimStart p = p).
  { destruct p as [|d q]; [reflexivity |].
    simpl. rewrite (Hhead d q eq_refl). reflexivity. }
  rewrite Hp, Hrev. simpl. rewrite Hc. rewrite <- Hrev.
  apply rev_involutive.
Qed.

(** What follows the mark of a bullet line, once the line is trimmed, is
    not empty and has no white space around it. *)
Lemma bullet_point_trimmed (line : jsstring) (mark sp : N) (rest : jsstring) :
  trim line = mark :: sp :: rest -> is_space sp = true ->
  trimStart rest <> [] /\ trim (trimStart rest) = trimStart rest.
Proof.
  intros Htrim Hsp.
  assert (Hrev : rev (mark :: sp :: rest) = trimStart (rev (trimStart line))).
  { rewrite <- Htrim. unfold trim, trimEnd. apply rev_involutive. }
  simpl in Hrev.
  destruct (rev rest) as [|c r'] eqn:Hrest.
  { simpl in Hrev. symmetry in Hrev. apply trimStart_head in Hrev. congruence. }
  simpl in Hrev. symmetry in Hrev. apply trimStart_head in Hrev.
  destruct (trimStart_suffix rest) as [pre Hpre].
  assert (Hne : trimStart rest <> []).
  { intros Hnil. apply trimStart_nil_iff in Hnil.
    assert (Hin : c ∈ rest).
    { apply list_elem_of_In, in_rev. rewrite Hrest. left. reflexivity. }
    rewrite Forall_forall in Hnil.
    specialize (Hnil c Hin). simpl in Hnil. congruence. }
  split; [exact Hne |].
  destruct (rev (trimStart rest)) as [|c' r''] eqn:Hrp.
  { exfalso. apply Hne. rewrite <- (rev_involutive (trimStart rest)), Hrp.
    reflexivity. }
  apply (trim_fixed _ c' r'' Hrp).
  - rewrite Hpre, rev_app_distr, Hrp in Hrest. simpl in Hrest.
    injection Hrest as -> _. exact Hrev.
  - intros d q Hd. apply (trimStart_head rest d q Hd).
Qed.

Lemma bullet_line (t : jsstring) :
  bool_decide (is_Some (RegExp.match_ false SynthesisDashboard.bullet t))
  = match t with
    | mark :: sp :: rest =>
      ((mark =? 45) || (mark =? 42) || (mark =? 8226))%N && is_space sp
    | _ => false
    end
  /\ forall mark sp rest,
       t = mark :: sp :: rest ->
       ((mark =? 45) || (mark =? 42) || (mark =? 8226))%N && is_space sp = true ->
       RegExp.replace_empty false SynthesisDashboard.bullet t = trimStart rest.
Proof.
  unfold RegExp.replace_empty. rewrite match_bullet. split.
  - destruct t as [|mark [|sp rest]]; try reflexivity.
    destruct (((mark =? 45) || (mark =? 42) || (mark =? 8226))%N && is_space sp);
      reflexivity.
  - intros mark sp rest -> Hcond. rewrite Hcond.
    cbn [RegExp.index RegExp.end_index take app Nat.add drop].
    apply drop_trimStart.
Qed.

Lemma bullet_points_lines (lines : list jsstring) :
  map (fun line => RegExp.replace_empty false SynthesisDashboard.bullet (trim line))
      (List.filter
         (fun line =>
            bool_decide
              (is_Some (RegExp.match_ false SynthesisDashboard.bullet (trim line))))
         lines)
  = omap (fun line =>
            match trim line with
            | mark :: sp :: rest =>
              if ((mark =? 45) || (mark =? 42) || (mark =? 8226))%N
                 && is_space sp
              then Some (trimStart rest) else None
            | _ => None
            end) lines.
Proof.
  induction lines as [|line lines IH]; [reflexivity |].
  cbn [List.filter omap list_omap].
  destruct (bullet_line (trim line)) as [Hb Hr]. rewrite Hb.
  destruct (trim line) as [|mark [|sp rest]] eqn:Htrim; try exact IH.
  destruct (((mark =? 45) || (mark =? 42) || (mark =? 8226))%N && is_space sp)
    eqn:Hcond; [| exact IH].
  cbn [map]. rewrite Htrim, (Hr mark sp rest eq_refl Hcond), IH. reflexivity.
Qed.

(** X12: [extractBulletPoints] keeps, in order, the lines of the section
    that, once trimmed, start with one of the marks [-], [*] and [•]
    followed by white space, and gives for each what follows the mark
    without the white space in front; a missing or empty section has no
    points.  Every point is a non-empty string with no white space
    around it. *)
Theorem extractBulletPoints_lines (sectionText : option jsstring) :
  SynthesisDashboard.extractBulletPoints sectionText
  = omap (fun line =>
            match trim line with
            | mark :: sp :: rest =>
              if ((mark =? 45) || (mark =? 42) || (mark =? 8226))%N
                 && is_space sp
              then Some (trimStart rest) else None
            | _ => None
            end)
         (split_char 10 (default [] sectionText))
  /\ Forall (fun p => p <> [] /\ trim p = p)
            (SynthesisDashboard.extractBulletPoints sectionText).
Proof.
  set (point := fun line : jsstring =>
                  match trim line with
                  | mark :: sp :: rest =>
                    if ((mark =? 45) || (mark =? 42) || (mark =? 8226))%N
                       && is_space sp
                    then Some (trimStart rest) else None
                  | _ => None
                  end).
  assert (Heq : SynthesisDashboard.extractBulletPoints sectionText
                = omap point (split_char 10 (default [] sectionText))).
  { unfold SynthesisDashboard.extractBulletPoints.
    destruct sectionText as [[|c t]|]; [reflexivity | | reflexivity].
    cbn [truthy_str negb default]. apply bullet_points_lines. }
  split; [exact Heq |].
  rewrite Heq. apply Forall_forall. intros p Hp.
  apply list_elem_of_omap in Hp. destruct Hp as (line & _ & Hpoint).
  unfold point in Hpoint.
  destruct (trim line) as [|mark [|sp rest]] eqn:Htrim; try discriminate.
  destruct (((mark =? 45) || (mark =? 42) || (mark =? 8226))%N) ;
    [| discriminate].
  destruct (is_space sp) eqn:Hsp; [| discriminate].
  injection Hpoint as <-.
  apply (bullet_point_trimmed line mark sp rest Htrim Hsp).
Qed.

(** Replace a closed term of the goal by its value. *)
Ltac evaluated t :=
  let v := eval vm_compute in t in
  let H := fresh "Hv" in
  assert (H : t = v) by (vm_compute; reflexivity);
  rewrite H; clear H.

Section SectionFacts.

Import RegExp.

(** A match only writes the capturing groups of its pattern. *)
Lemma matcher_captures (icase : bool) (fuel : nat) :
  forall (r : regex) (i : nat) (s : jsstring) (c : captures)
         (k : nat -> jsstring -> captures -> option (nat * captures))
         (res : nat * captures),
    matcher fuel icase r i s c k = Some res ->
    exists i' s' c',
      k i' s' c' = Some res
      /\ forall n, n ∉ group_numbers r -> c' !! n = c !! n.
Proof.
  induction fuel as [|fuel IHfuel];
    induction r as [| items | r1 IH1 r2 IH2 | r1 IH1 r2 IH2 | greedy r' IH
                    | n r' IH | r' IH | | |];
    intros i s c k res H; rewrite matcher_unfold in H; cbn [group_numbers].
  all: try (exists i, s, c; split; [exact H | reflexivity]).
  all: try discriminate.
  all: try (destruct s as [|x s']; [discriminate |];
            destruct (existsb (in_cset icase x) items); [| discriminate];
            exists (S i), s', c; split; [exact H | reflexivity]).
  all: try (apply IH1 in H; destruct H as (i1 & s1 & c1 & H & Hc1);
            apply IH2 in H; destruct H as (i2 & s2 & c2 & H & Hc2);
            exists i2, s2, c2; split; [exact H |];
            intros m Hm; apply not_elem_of_app in Hm; destruct Hm as [Hm1 Hm2];
            rewrite Hc2, Hc1 by assumption; reflexivity).
  all: try (destruct (matcher _ icase r1 i s c k) as [res1|] eqn:H1;
            [ injection H as <-; apply IH1 in H1;
              destruct H1 as (i1 & s1 & c1 & H1 & Hc1);
              exists i1, s1, c1; split; [exact H1 |];
              intros m Hm; apply not_elem_of_app in Hm; apply Hc1, Hm
            | apply IH2 in H; destruct H as (i2 & s2 & c2 & H & Hc2);
              exists i2, s2, c2; split; [exact H |];
              intros m Hm; apply not_elem_of_app in Hm; apply Hc2, Hm ]).
  all: try (apply IH in H; destruct H as (i1 & s1 & c1 & H & Hc1);
            eexists i1, s1, _; split; [exact H |];
            intros m Hm; apply not_elem_of_cons in Hm; destruct Hm as [Hne Hm];
            rewrite lookup_insert_ne by congruence; apply Hc1, Hm).
  all: try (destruct (matcher _ icase r' i s c _) as [[e c']|] eqn:Hin;
            [| discriminate]; apply IH in Hin;
            destruct Hin as (i1 & s1 & c1 & Heq & Hc1);
            injection Heq as _ ->;
            exists i, s, c'; split; [exact H | exact Hc1]).
  all: try (destruct (i =? 0)%nat; [| discriminate];
            exists i, s, c; split; [exact H | reflexivity]).
  all: try (destruct s; [| discriminate];
            exists i, [], c; split; [exact H | reflexivity]).
  (* the star, with fuel left *)
  cbv zeta in H.
  set (K := fun i' s' c' =>
              if (i' =? i)%nat then None
              else matcher fuel icase (RStar greedy r') i' s' c' k) in H.
  assert (Hiter : forall res',
             matcher (S fuel) icase r' i s c K = Some res' ->
             exists i' s' c',
               k i' s' c' = Some res'
               /\ forall n, n ∉ group_numbers r' -> c' !! n = c !! n).
  { intros res' Hres'. apply IH in Hres'.
    destruct Hres' as (i1 & s1 & c1 & HK & Hc1). unfold K in HK.
    destruct (i1 =? i)%nat; [discriminate |].
    apply IHfuel in HK. destruct HK as (i2 & s2 & c2 & HK & Hc2).
    cbn [group_numbers] in Hc2.
    exists i2, s2, c2. split; [exact HK |].
    intros m Hm. rewrite Hc2, Hc1 by assumption. reflexivity. }
  destruct greedy.
  - destruct (matcher (S fuel) icase r' i s c K) as [res'|] eqn:Hres'.
    + injection H as <-. apply Hiter. reflexivity.
    + exists i, s, c. split; [exact H | reflexivity].
  - destruct (k i s c) as [res'|] eqn:Hk.
    + exists i, s, c. split; [rewrite Hk; exact H | reflexivity].
    + apply Hiter. exact H.
Qed.

(** [occurs w s]: the word [w] occurs in [s], letter case apart. *)
Local Abbreviation occurs w s :=
  (exists pre mid post : jsstring,
     s = pre ++ mid ++ post /\ map canonicalize mid = map canonicalize w).

(** [forces r w]: whatever [r] matches, under the flag [i], holds the
    word [w]. *)
Local Abbreviation forces r w :=
  (forall (fuel i : nat) (s : jsstring) (c : captures)
          (k : nat -> jsstring -> captures -> option (nat * captures))
          (res : nat * captures),
     matcher fuel true r i s c k = Some res -> occurs w s).

(** [forces_group r w]: a match of [r] that sets the first capturing
    group holds the word [w]. *)
Local Abbreviation forces_group r w :=
  (forall (fuel i e : nat) (s : jsstring) (c : captures),
     matcher fuel true r i s ∅ (fun i' _ c' => Some (i', c')) = Some (e, c) ->
     is_Some (c !! 1%nat) -> occurs w s).

Lemma forces_literal (w : jsstring) (tail : regex) :
  forces (fold_right (fun a r => RSeq (RSet [CChar a]) r) tail w) w.
Proof.
  assert (H : forall (w : jsstring) fuel i s c k res,
             matcher fuel true
               (fold_right (fun a r => RSeq (RSet [CChar a]) r) tail w)
               i s c k = Some res ->
             exists mid post,
               s = mid ++ post /\ map canonicalize mid = map canonicalize w).
  { clear w. induction w as [|a w IH]; intros fuel i s c k res H.
    - exists [], s. split; reflexivity.
    - cbn [fold_right] in H.
      do 2 (rewrite matcher_unfold in H; cbv beta iota in H).
      destruct s as [|x s']; [discriminate |].
      cbn [existsb in_cset] in H. rewrite orb_false_r in H.
      destruct (N.eqb_spec (canonicalize a) (canonicalize x)) as [Hx|];
        [| discriminate].
      apply IH in H. destruct H as (mid & post & -> & Hmid).
      exists (x :: mid), post. split; [reflexivity |].
      cbn [map]. rewrite Hmid, Hx. reflexivity. }
  intros fuel i s c k res Hm. apply H in Hm.
  destruct Hm as (mid & post & -> & Hmid).
  exists [], mid, post. split; [reflexivity | exact Hmid].
Qed.

Lemma forces_after_char (items : list cset) (r : regex) (w : jsstring) :
  forces r w -> forces (RSeq (RSet items) r) w.
Proof.
  intros Hr fuel i s c k res H.
  do 2 (rewrite matcher_unfold in H; cbv beta iota in H).
  destruct s as [|x s']; [discriminate |].
  destruct (existsb (in_cset true x) items); [| discriminate].
  apply Hr in H. destruct H as (pre & mid & post & -> & Hmid).
  exists (x :: pre), mid, post. split; [reflexivity | exact Hmid].
Qed.

Lemma forces_after_optional (items : list cset) (r : regex) (w : jsstring) :
  forces r w -> forces (RSeq (RAlt (RSet items) REmpty) r) w.
Proof.
  intros Hr fuel i s c k res H.
  do 2 (rewrite matcher_unfold in H; cbv beta iota in H).
  destruct (matcher fuel true (RSet items) i s c _) as [res1|] eqn:H1.
  - rewrite matcher_unfold in H1.
    destruct s as [|x s']; [discriminate |].
    destruct (existsb (in_cset true x) items); [| discriminate].
    apply Hr in H1. destruct H1 as (pre & mid & post & -> & Hmid).
    exists (x :: pre), mid, post. split; [reflexivity | exact Hmid].
  - rewrite matcher_unfold in H. apply Hr in H. exact H.
Qed.

Lemma forces_group_forces (r : regex) (w : jsstring) :
  forces r w -> forces_group r w.
Proof. intros Hr fuel i e s c H _. apply Hr in H. exact H. Qed.

Lemma forces_group_none (r : regex) (w : jsstring) :
  1%nat ∉ group_numbers r -> forces_group r w.
Proof.
  intros Hr fuel i e s c H [g Hg]. exfalso.
  apply matcher_captures in H. destruct H as (i' & s' & c' & Heq & Hc).
  injection Heq as _ ->. rewrite (Hc 1%nat Hr), lookup_empty in Hg.
  discriminate.
Qed.

Lemma forces_group_alt (r1 r2 : regex) (w : jsstring) :
  forces_group r1 w -> forces_group r2 w -> forces_group (RAlt r1 r2) w.
Proof.
  intros H1 H2 fuel i e s c H Hg.
  rewrite matcher_unfold in H.
  destruct (matcher fuel true r1 i s ∅ _) as [res1|] eqn:Hm1.
  - injection H as ->. apply (H1 _ _ _ _ _ Hm1 Hg).
  - apply (H2 _ _ _ _ _ H Hg).
Qed.

(** A section is only found by a pattern that matched with its capture
    group set. *)
Lemma first_section_occurs (text w : jsstring) (patterns : list regex)
    (sec : jsstring) :
  Forall (fun p => forces_group p w) patterns ->
  SynthesisDashboard.first_section text patterns = Some sec ->
  occurs w text.
Proof.
  induction 1 as [|p ps Hp _ IH]; simpl; [discriminate |].
  destruct (match_ true p text) as [m|] eqn:Hm; [| exact IH].
  destruct (groups m !! 1%nat) as [g|] eqn:Hg; [| exact IH].
  destruct (truthy_str g); [| exact IH]. intros _.
  apply exec_found in Hm. destruct Hm as (_ & _ & _ & _ & Hm).
  apply Hp in Hm; [| rewrite Hg; eexists; reflexivity].
  destruct Hm as (pre & mid & post & Hdrop & Hmid).
  exists (take (index m) text ++ pre), mid, post.
  split; [| exact Hmid].
  rewrite <- (take_drop (index m) text) at 1. rewrite Hdrop, <- app_assoc.
  reflexivity.
Qed.


(** The patterns of a section name, evaluated. *)
Ltac section_patterns_of name :=
  let ps := eval vm_compute in (SynthesisDashboard.section_patterns (str name)) in
  let H := fresh "Hps" in
  assert (H : SynthesisDashboard.section_patterns (str name) = ps)
    by (vm_compute; reflexivity);
  rewrite H; clear H.

(** The word, evaluated to its characters. *)
Ltac word_of needle :=
  let w := eval vm_compute in (str needle) in
  let H := fresh "Hw" in
  assert (H : str needle = w) by (vm_compute; reflexivity);
  rewrite H; clear H.

Ltac forces_word :=
  repeat first
    [ apply forces_group_alt
    | apply forces_group_none; apply (proj1 (bool_decide_eq_false _));
      vm_compute; reflexivity
    | apply forces_group_forces ];
  repeat first
    [ match goal with
      | |- forall fuel i s c k res, _ ->
             exists pre mid post, _ /\ _ = map RegExp.canonicalize ?w =>
        apply (forces_literal w)
      end
    | apply forces_after_optional
    | apply forces_after_char ].

(** The patterns of each section name of the component force the last
    alternative of the name on every match that sets the capture
    group. *)
Lemma section_patterns_force (name needle : jsstring) :
  (name, needle)
    ∈ [ (str "Consensus|Points? of Consensus", str " of Consensus");
        (str "Divergence|Disagreements?|Points? of Divergence",
         str " of Divergence");
        (str "Critical Risks?|Risques Critiques", str "Risques Critiques");
        (str "Alternative Scenarios?|Scénarios Alternatifs",
         str "Scénarios Alternatifs") ] ->
  Forall (fun p => forces_group p needle)
         (SynthesisDashboard.section_patterns name).
Proof.
  intros Hin.
  repeat (apply elem_of_cons in Hin; destruct Hin as [Heq | Hin];
          [injection Heq as -> -> |]).
  - section_patterns_of "Consensus|Points? of Consensus".
    word_of " of Consensus".
    constructor; [forces_word | constructor; [forces_word | constructor]].
  - section_patterns_of "Divergence|Disagreements?|Points? of Divergence".
    word_of " of Divergence".
    constructor; [forces_word | constructor; [forces_word | constructor]].
  - section_patterns_of "Critical Risks?|Risques Critiques".
    word_of "Risques Critiques".
    constructor; [forces_word | constructor; [forces_word | constructor]].
  - section_patterns_of "Alternative Scenarios?|Scénarios Alternatifs".
    word_of "Scénarios Alternatifs".
    constructor; [forces_word | constructor; [forces_word | constructor]].
  - apply elem_of_nil in Hin. contradiction.
Qed.

(** X13: the section name is spliced into the pattern source, where the
    alternation binds last, so the capture group belongs to the last
    alternative of the name only: [extractSection] finds a section only
    in a text that holds the last alternative (letter case apart), that
    is " of Consensus", " of Divergence", "Risques Critiques" or
    "Scénarios Alternatifs".  The headings "## Consensus",
    "## Disagreements", "## Critical Risks" and
    "## Alternative Scenarios" alone give no section. *)
Theorem extractSection_needs_last_alternative
    (text sec name needle : jsstring) :
  (name, needle)
    ∈ [ (str "Consensus|Points? of Consensus", str " of Consensus");
        (str "Divergence|Disagreements?|Points? of Divergence",
         str " of Divergence");
        (str "Critical Risks?|Risques Critiques", str "Risques Critiques");
        (str "Alternative Scenarios?|Scénarios Alternatifs",
         str "Scénarios Alternatifs") ] ->
  SynthesisDashboard.extractSection text name = Some sec ->
  exists pre mid post,
    text = pre ++ mid ++ post
    /\ map RegExp.canonicalize mid = map RegExp.canonicalize needle.
Proof.
  intros Hin Hsec. unfold SynthesisDashboard.extractSection in Hsec.
  (* the section comes from a pattern that matched with its group set,
     and such a match holds the last alternative of the name *)
  apply (first_section_occurs text needle
           (SynthesisDashboard.section_patterns name) sec).
  - apply section_patterns_force. exact Hin.
  - exact Hsec.
Qed.

Lemma extractSection_needs_last_alternative_witness :
  exists sec,
    SynthesisDashboard.extractSection Samples.synthesis_text
      (str "Critical Risks?|Risques Critiques") = Some sec
    /\ exists pre mid post,
         Samples.synthesis_text = pre ++ mid ++ post
         /\ map RegExp.canonicalize mid
            = map RegExp.canonicalize (str "Risques Critiques").
Proof.
  eexists. split.
  - vm_compute. reflexivity.
  - eapply (extractSection_needs_last_alternative
              Samples.synthesis_text _
              (str "Critical Risks?|Risques Critiques")
              (str "Risques Critiques")).
    + do 2 apply list_elem_of_further. apply list_elem_of_here.
    + vm_compute. reflexivity.
Defined.

(** [forces_any r ws]: whatever [r] matches holds one of the words
    [ws]. *)
Local Abbreviation forces_any r ws :=
  (forall (fuel i : nat) (s : jsstring) (c : captures)
          (k : nat -> jsstring -> captures -> option (nat * captures))
          (res : nat * captures),
     matcher fuel true r i s c k = Some res ->
     exists w, w ∈ ws /\ occurs w s).

Lemma forces_any_word (r : regex) (w : jsstring) (ws : list jsstring) :
  w ∈ ws -> forces r w -> forces_any r ws.
Proof. intros Hw Hr fuel i s c k res H. exists w. split; [exact Hw | eapply Hr, H]. Qed.

Lemma forces_any_alt (r1 r2 : regex) (ws : list jsstring) :
  forces_any r1 ws -> forces_any r2 ws -> forces_any (RAlt r1 r2) ws.
Proof.
  intros H1 H2 fuel i s c k res H. rewrite matcher_unfold in H.
  destruct (matcher fuel true r1 i s c k) as [res1|] eqn:Hm1.
  - apply (H1 _ _ _ _ _ _ Hm1).
  - apply (H2 _ _ _ _ _ _ H).
Qed.

Lemma forces_any_first (r1 r2 : regex) (ws : list jsstring) :
  forces_any r1 ws -> forces_any (RSeq r1 r2) ws.
Proof.
  intros H1 fuel i s c k res H. rewrite matcher_unfold in H.
  apply (H1 _ _ _ _ _ _ H).
Qed.

(** Every match of the score pattern starts with the name of a
    criterion. *)
Lemma scorePattern_criterion :
  forces_any SynthesisDashboard.scorePattern
    [ str "Feasibility"; str "Risk"; str "Financial"; str "Regulatory";
      str "Strategic" ].
Proof.
  evaluated [ str "Feasibility"; str "Risk"; str "Financial";
              str "Regulatory"; str "Strategic" ].
  evaluated SynthesisDashboard.scorePattern.
  apply forces_any_first.
  repeat apply forces_any_alt.
  - eapply forces_any_word; [apply list_elem_of_here | forces_word].
  - eapply forces_any_word;
      [apply list_elem_of_further, list_elem_of_here | forces_word].
  - eapply forces_any_word;
      [do 2 apply list_elem_of_further; apply list_elem_of_here | forces_word].
  - eapply forces_any_word;
      [do 3 apply list_elem_of_further; apply list_elem_of_here | forces_word].
  - eapply forces_any_word;
      [do 4 apply list_elem_of_further; apply list_elem_of_here | forces_word].
Qed.

Lemma extractScores_occurs (text : jsstring)
    (scores : list SynthesisDashboard.score_item) :
  SynthesisDashboard.extractScores text = Some scores ->
  exists w,
    w ∈ [ str "Feasibility"; str "Risk"; str "Financial"; str "Regulatory";
          str "Strategic" ]
    /\ occurs w text.
Proof.
  unfold SynthesisDashboard.extractScores. cbn [SynthesisDashboard.scores_loop].
  destruct (exec true SynthesisDashboard.scorePattern text 0) as [m|] eqn:Hm;
    [| discriminate].
  intros _. apply exec_found in Hm. destruct Hm as (_ & _ & _ & _ & Hm).
  apply scorePattern_criterion in Hm.
  destruct Hm as (w & Hw & pre & mid & post & Hdrop & Hmid).
  exists w. split; [exact Hw |].
  exists (take (index m) text ++ pre), mid, post.
  split; [| exact Hmid].
  rewrite <- (take_drop (index m) text) at 1. rewrite Hdrop, <- app_assoc.
  reflexivity.
Qed.

End SectionFacts.

(** A section without a label in the text has no points. *)
Lemma section_points_occur (text name needle : jsstring) :
  (name, needle)
    ∈ [ (str "Consensus|Points? of Consensus", str " of Consensus");
        (str "Divergence|Disagreements?|Points? of Divergence",
         str " of Divergence");
        (str "Critical Risks?|Risques Critiques", str "Risques Critiques");
        (str "Alternative Scenarios?|Scénarios Alternatifs",
         str "Scénarios Alternatifs") ] ->
  (0 <? length (SynthesisDashboard.extractBulletPoints
                  (SynthesisDashboard.extractSection text name)))%nat = true ->
  exists pre mid post,
    text = pre ++ mid ++ post
    /\ map RegExp.canonicalize mid = map RegExp.canonicalize needle.
Proof.
  intros Hin Hpoints.
  destruct (SynthesisDashboard.extractSection text name) as [sec|] eqn:Hsec.
  - apply (first_section_occurs text needle _ sec
             (section_patterns_force name needle Hin) Hsec).
  - discriminate.
Qed.

(** X14: the dashboard is rendered only for a synthesis whose [message]
    holds, letter case apart, one of the four labels that
    [extractSection] needs or the name of one of the five criteria of
    the score pattern; for any other synthesis the component renders
    nothing. *)
Theorem SynthesisDashboard_needs_labels (synthesis : option object) (n : node) :
  SynthesisDashboard.SynthesisDashboard synthesis = Some n ->
  exists o text w pre mid post,
    synthesis = Some o /\ o !! "message" = Some text
    /\ w ∈ [ str " of Consensus"; str " of Divergence";
             str "Risques Critiques"; str "Scénarios Alternatifs";
             str "Feasibility"; str "Risk"; str "Financial";
             str "Regulatory"; str "Strategic" ]
    /\ text = pre ++ mid ++ post
    /\ map RegExp.canonicalize mid = map RegExp.canonicalize w.
Proof.
  unfold SynthesisDashboard.SynthesisDashboard.
  destruct synthesis as [o|]; [| discriminate].
  destruct (o !! "message") as [text|] eqn:Hmsg; [| discriminate].
  destruct (negb (truthy_str text)); [discriminate |].
  cbv zeta.
  match goal with
  | |- (if negb ?h then _ else _) = _ -> _ =>
    destruct h eqn:Hdata; [| discriminate]
  end.
  intros _. exists o, text.
  repeat (apply orb_true_iff in Hdata; destruct Hdata as [Hdata | Hlast]).
  - destruct (section_points_occur text _ (str " of Consensus")
                ltac:(apply list_elem_of_here) Hdata)
      as (pre & mid & post & Htext & Hmid).
    exists (str " of Consensus"), pre, mid, post.
    repeat split; try assumption. apply list_elem_of_here.
  - destruct (section_points_occur text _ (str " of Divergence")
                ltac:(apply list_elem_of_further, list_elem_of_here) Hlast)
      as (pre & mid & post & Htext & Hmid).
    exists (str " of Divergence"), pre, mid, post.
    repeat split; try assumption.
    apply list_elem_of_further, list_elem_of_here.
  - destruct (section_points_occur text _ (str "Risques Critiques")
                ltac:(do 2 apply list_elem_of_further; apply list_elem_of_here)
                Hlast)
      as (pre & mid & post & Htext & Hmid).
    exists (str "Risques Critiques"), pre, mid, post.
    repeat split; try assumption.
    do 2 apply list_elem_of_further. apply list_elem_of_here.
  - destruct (section_points_occur text _ (str "Scénarios Alternatifs")
                ltac:(do 3 apply list_elem_of_further; apply list_elem_of_here)
                Hlast)
      as (pre & mid & post & Htext & Hmid).
    exists (str "Scénarios Alternatifs"), pre, mid, post.
    repeat split; try assumption.
    do 3 apply list_elem_of_further. apply list_elem_of_here.
  - apply bool_decide_eq_true in Hlast. destruct Hlast as [scores Hscores].
    destruct (extractScores_occurs text scores Hscores)
      as (w & Hw & pre & mid & post & Htext & Hmid).
    exists w, pre, mid, post.
    repeat split; try assumption.
    do 4 apply list_elem_of_further. exact Hw.
Qed.

Lemma SynthesisDashboard_needs_labels_witness :
  exists n,
    SynthesisDashboard.SynthesisDashboard
      (Some ({[ "message" := Samples.synthesis_text ]} : object)) = Some n
    /\ exists o text w pre mid post,
         Some ({[ "message" := Samples.synthesis_text ]} : object) = Some o
         /\ o !! "message" = Some text
         /\ w ∈ [ str " of Consensus"; str " of Divergence";
                  str "Risques Critiques"; str "Scénarios Alternatifs";
                  str "Feasibility"; str "Risk"; str "Financial";
                  str "Regulatory"; str "Strategic" ]
         /\ text = pre ++ mid ++ post
         /\ map RegExp.canonicalize mid = map RegExp.canonicalize w.
Proof.
  eexists. split.
  - vm_compute. reflexivity.
  - eapply (SynthesisDashboard_needs_labels
              (Some ({[ "message" := Samples.synthesis_text ]} : object))).
    vm_compute. reflexivity.
Defined.

Section ScoreFacts.

Import RegExp.

Local Abbreviation is_digit x := ((48 <=? x) && (x <=? 57))%N.

Local Abbreviation digits w :=
  (Forall (fun x : N => is_digit x = true) w /\ w%list <> []).

Local Abbreviation numeral w :=
  (exists a b : jsstring,
     w = a ++ b /\ digits a
     /\ (b = [] \/ exists d : jsstring, b = 46%N :: d /\ digits d)).

(** Past the first part of a sequence, the second part matched, on
    captures that the first part changed at its own groups only. *)
Lemma matcher_seq (icase : bool) (fuel : nat) (r1 r2 : regex) (i : nat)
    (s : jsstring) (c : captures)
    (k : nat -> jsstring -> captures -> option (nat * captures))
    (res : nat * captures) :
  matcher fuel icase (RSeq r1 r2) i s c k = Some res ->
  exists i' s' c',
    matcher fuel icase r2 i' s' c' k = Some res
    /\ forall n, n ∉ group_numbers r1 -> c' !! n = c !! n.
Proof.
  intros H. rewrite matcher_unfold in H.
  apply matcher_captures in H. exact H.
Qed.

(** What [\d*] takes is made of digits, and the captures are left as
    they are. *)
Lemma matcher_digits_star (icase : bool) (fuel : nat) :
  forall (i : nat) (s : jsstring) (c : captures)
         (k : nat -> jsstring -> captures -> option (nat * captures))
         (res : nat * captures),
    matcher fuel icase (RStar true (RSet [CDigit])) i s c k = Some res ->
    exists w s',
      s = w ++ s' /\ Forall (fun x : N => is_digit x = true) w
      /\ k (i + length w)%nat s' c = Some res.
Proof.
  induction fuel as [|fuel IH]; intros i s c k res H;
    rewrite matcher_unfold in H; cbv beta iota zeta in H.
  - exists [], s. rewrite Nat.add_0_r. repeat split; [constructor | exact H].
  - rewrite matcher_unfold in H. cbv beta iota in H.
    assert (Hstop : k i s c = Some res ->
                    exists w s',
                      s = w ++ s' /\ Forall (fun x : N => is_digit x = true) w
                      /\ k (i + length w)%nat s' c = Some res).
    { intros Hk. exists [], s. rewrite Nat.add_0_r.
      repeat split; [constructor | exact Hk]. }
    destruct s as [|x s1]; [apply Hstop, H |].
    cbn [existsb in_cset] in H. rewrite orb_false_r in H.
    destruct (is_digit x) eqn:Hx; [| apply Hstop, H].
    replace (S i =? i)%nat with false in H
      by (symmetry; apply Nat.eqb_neq; lia).
    destruct (matcher fuel icase (RStar true (RSet [CDigit])) (S i) s1 c k)
      as [res'|] eqn:Hm; [| apply Hstop, H].
    injection H as <-. apply IH in Hm.
    destruct Hm as (w & s' & -> & Hw & Hk).
    exists (x :: w), s'. repeat split.
    + constructor; [exact Hx | exact Hw].
    + simpl length. replace (i + S (length w))%nat with (S i + length w)%nat by lia.
      exact Hk.
Qed.

(** What [\d+] takes is a non-empty string of digits. *)
Lemma matcher_digits_plus (icase : bool) (fuel : nat) (i : nat) (s : jsstring)
    (c : captures)
    (k : nat -> jsstring -> captures -> option (nat * captures))
    (res : nat * captures) :
  matcher fuel icase (RSeq (RSet [CDigit]) (RStar true (RSet [CDigit])))
    i s c k = Some res ->
  exists w s',
    s = w ++ s' /\ digits w /\ k (i + length w)%nat s' c = Some res.
Proof.
  intros H. do 2 (rewrite matcher_unfold in H; cbv beta iota in H).
  destruct s as [|x s1]; [discriminate |].
  cbn [existsb in_cset] in H. rewrite orb_false_r in H.
  destruct (is_digit x) eqn:Hx; [| discriminate].
  apply matcher_digits_star in H. destruct H as (w & s' & -> & Hw & Hk).
  exists (x :: w), s'. repeat split.
  - constructor; [exact Hx | exact Hw].
  - discriminate.
  - simpl length. replace (i + S (length w))%nat with (S i + length w)%nat by lia.
    exact Hk.
Qed.

Lemma canonicalize_dot (x : N) :
  (canonicalize 46 =? canonicalize x)%N = true -> x = 46%N.
Proof.
  intros H. apply N.eqb_eq in H. change (canonicalize 46) with 46%N in H.
  unfold canonicalize in H.
  destruct ((97 <=? x) && (x <=? 122))%N eqn:H1.
  { apply andb_true_iff in H1. destruct H1 as [Ha Hb].
    apply N.leb_le in Ha, Hb. lia. }
  destruct ((224 <=? x) && (x <=? 254) && negb (x =? 247))%N eqn:H2.
  { apply andb_true_iff in H2. destruct H2 as [H2 _].
    apply andb_true_iff in H2. destruct H2 as [Ha Hb].
    apply N.leb_le in Ha, Hb. lia. }
  destruct (x =? 181)%N; [lia |].
  destruct (x =? 255)%N; [lia |].
  symmetry. exact H.
Qed.

(** What [\d+(?:\.\d+)?] takes is a numeral. *)
Lemma matcher_numeral (icase : bool) (fuel : nat) (i : nat) (s : jsstring)
    (c : captures)
    (k : nat -> jsstring -> captures -> option (nat * captures))
    (res : nat * captures) :
  matcher fuel icase
    (RSeq (RSeq (RSet [CDigit]) (RStar true (RSet [CDigit])))
       (RSeq
          (RAlt
             (RSeq (RSet [CChar 46])
                (RSeq (RSeq (RSet [CDigit]) (RStar true (RSet [CDigit])))
                   REmpty))
             REmpty)
          REmpty))
    i s c k = Some res ->
  exists w s',
    s = w ++ s' /\ numeral w /\ k (i + length w)%nat s' c = Some res.
Proof.
  intros H. rewrite matcher_unfold in H. cbv beta iota in H.
  apply matcher_digits_plus in H. destruct H as (a & s1 & -> & Ha & H).
  cbv beta in H.
  do 2 (rewrite matcher_unfold in H; cbv beta iota in H).
  assert (Hint : matcher fuel icase REmpty (i + length a) s1 c
                   (fun i' s' c' => matcher fuel icase REmpty i' s' c' k)
                 = Some res ->
                 exists w s',
                   a ++ s1 = w ++ s' /\ numeral w
                   /\ k (i + length w)%nat s' c = Some res).
  { intros Hk. do 2 rewrite matcher_unfold in Hk.
    exists a, s1. split; [reflexivity |]. split; [| exact Hk].
    exists a, []. rewrite app_nil_r. split; [reflexivity |].
    split; [exact Ha | left; reflexivity]. }
  match type of H with
  | match ?m with _ => _ end = _ => destruct m as [res'|] eqn:Hfrac
  end; [| apply Hint, H].
  injection H as <-.
  do 2 (rewrite matcher_unfold in Hfrac; cbv beta iota in Hfrac).
  destruct s1 as [|x s2]; [discriminate |].
  cbn [existsb in_cset] in Hfrac. rewrite orb_false_r in Hfrac.
  destruct icase.
  all: match type of Hfrac with
       | (if ?t then _ else _) = _ => destruct t eqn:Hx; [| discriminate]
       end.
  all: rewrite matcher_unfold in Hfrac; cbv beta iota in Hfrac;
    apply matcher_digits_plus in Hfrac;
    destruct Hfrac as (d & s3 & -> & Hd & Hk); cbv beta in Hk;
    do 2 rewrite matcher_unfold in Hk.
  all: assert (x = 46%N) as ->
      by first [ apply canonicalize_dot, Hx
               | symmetry; apply N.eqb_eq, Hx ].
  all: exists (a ++ 46%N :: d), s3; rewrite <- app_assoc;
    split; [reflexivity |]; split;
    [ exists a, (46%N :: d); split; [reflexivity |];
      split; [exact Ha | right; exists d; split; [reflexivity | exact Hd]]
    | rewrite length_app; simpl length;
      replace (i + (length a + S (length d)))%nat
        with (S (i + length a) + length d)%nat by lia;
      exact Hk ].
Qed.

Lemma take_matched (i : nat) (w s : jsstring) :
  take (i + length w - i) (w ++ s) = w.
Proof.
  replace (i + length w - i)%nat with (length w) by lia.
  apply take_app_length.
Qed.

(** A match of the score pattern sets both groups: the first to a
    numeral, the second to a string of digits. *)
Lemma scorePattern_groups (fuel i e : nat) (s : jsstring) (c : captures) :
  matcher fuel true SynthesisDashboard.scorePattern i s ∅
    (fun i' _ c' => Some (i', c')) = Some (e, c) ->
  exists w1 w2,
    c !! 1%nat = Some w1 /\ c !! 2%nat = Some w2 /\ numeral w1 /\ digits w2.
Proof.
  evaluated SynthesisDashboard.scorePattern. intros H.
  do 4 (apply matcher_seq in H; destruct H as (? & ? & ? & H & _)).
  do 2 (rewrite matcher_unfold in H; cbv beta iota in H).
  apply matcher_numeral in H. destruct H as (w1 & s1 & -> & Hw1 & H).
  cbv beta in H. rewrite take_matched in H.
  apply matcher_seq in H. destruct H as (i2 & s2 & c2 & H & Hc2).
  apply matcher_seq in H. destruct H as (i3 & s3 & c3 & H & Hc3).
  apply matcher_seq in H. destruct H as (i4 & s4 & c4 & H & Hc4).
  assert (H1 : c4 !! 1%nat = Some w1).
  { rewrite Hc4, Hc3, Hc2
      by (apply (proj1 (bool_decide_eq_false _)); vm_compute; reflexivity).
    apply lookup_insert_eq. }
  do 3 (rewrite matcher_unfold in H; cbv beta iota in H).
  apply matcher_digits_plus in H. destruct H as (w2 & s5 & -> & Hw2 & H).
  cbv beta in H. do 2 rewrite matcher_unfold in H.
  rewrite take_matched in H. injection H as _ <-.
  exists w1, w2. repeat split.
  - rewrite lookup_insert_ne by discriminate. exact H1.
  - apply lookup_insert_eq.
  - exact Hw1.
  - apply Hw2.
  - apply Hw2.
Qed.

Lemma scores_loop_numerals (text : jsstring) (fuel lastIndex : nat) :
  Forall (fun item =>
            numeral (SynthesisDashboard.score item)
            /\ digits (SynthesisDashboard.maxScore item))
         (SynthesisDashboard.scores_loop text fuel lastIndex).
Proof.
  revert lastIndex. induction fuel as [|fuel IH]; intros L; simpl;
    [constructor |].
  destruct (exec true SynthesisDashboard.scorePattern text L) as [m|] eqn:Hm;
    [| constructor].
  constructor; [| apply IH].
  apply exec_found in Hm. destruct Hm as (_ & _ & _ & _ & Hm).
  apply scorePattern_groups in Hm.
  destruct Hm as (w1 & w2 & H1 & H2 & Hw1 & Hw2).
  cbn [SynthesisDashboard.score SynthesisDashboard.maxScore].
  rewrite H1, H2. split; [exact Hw1 | exact Hw2].
Qed.

End ScoreFacts.

(** X15: every score that [extractScores] gives can be read by
    [parseFloat]: both capture groups of the score pattern take part in
    every match, so neither is [undefined]; the score is a numeral
    (digits, or digits, a point and digits) and the maximum a non-empty
    string of digits. *)
Theorem extractScores_numerals (text : jsstring)
    (scores : list SynthesisDashboard.score_item) :
  SynthesisDashboard.extractScores text = Some scores ->
  Forall (fun item =>
            (exists a b : jsstring,
               SynthesisDashboard.score item = a ++ b
               /\ (Forall (fun x => ((48 <=? x) && (x <=? 57))%N = true) a
                   /\ a <> [])
               /\ (b = []
                   \/ exists d : jsstring,
                        b = 46%N :: d
                        /\ Forall (fun x => ((48 <=? x) && (x <=? 57))%N = true) d
                        /\ d <> []))
            /\ Forall (fun x => ((48 <=? x) && (x <=? 57))%N = true)
                      (SynthesisDashboard.maxScore item)
            /\ SynthesisDashboard.maxScore item <> [])
         scores.
Proof.
  unfold SynthesisDashboard.extractScores.
  destruct (0 <? length _)%nat; [| discriminate].
  intros H. injection H as <-.
  exact (scores_loop_numerals text (S (length text)) 0).
Qed.

Lemma extractScores_numerals_witness :
  exists scores,
    SynthesisDashboard.extractScores Samples.synthesis_text = Some scores
    /\ map SynthesisDashboard.score scores = [str "7"; str "4"]
    /\ Forall (fun item => SynthesisDashboard.maxScore item <> []) scores.
Proof.
  eexists. split; [vm_compute; reflexivity |]. split; [vm_compute; reflexivity |].
  eapply Forall_impl.
  - apply (extractScores_numerals Samples.synthesis_text). vm_compute. reflexivity.
  - intros item H. apply H.
Defined.

Section SectionEndFacts.

Import RegExp.

(** [clean g]: the string holds no ["##"]. *)
Local Abbreviation clean g :=
  (forall pre post : jsstring, g%list <> pre ++ 35%N :: 35%N :: post).

(** [within g s]: the string [g] is a piece of [s]. *)
Local Abbreviation within g s :=
  (exists a b : jsstring, s%list = a ++ g ++ b).

(** The lazy star stops at the first index at which the rest of the
    pattern matches. *)
Lemma matcher_lazy (icase : bool) (items : list cset) (fuel : nat) :
  forall (i : nat) (s : jsstring) (c : captures)
         (K : nat -> jsstring -> captures -> option (nat * captures))
         (res : nat * captures),
    matcher fuel icase (RStar false (RSet items)) i s c K = Some res ->
    exists w s',
      s = w ++ s' /\ K (i + length w)%nat s' c = Some res
      /\ forall j, (j < length w)%nat -> K (i + j)%nat (drop j s) c = None.
Proof.
  induction fuel as [|fuel IH]; intros i s c K res H;
    rewrite matcher_unfold in H; cbv beta iota zeta in H.
  - exists [], s. rewrite Nat.add_0_r.
    repeat split; [exact H | simpl; lia].
  - destruct (K i s c) as [res'|] eqn:HK.
    + exists [], s. rewrite Nat.add_0_r.
      repeat split; [rewrite HK; exact H | simpl; lia].
    + rewrite matcher_unfold in H. cbv beta iota in H.
      destruct s as [|x s1]; [discriminate |].
      destruct (existsb (in_cset icase x) items); [| discriminate].
      replace (S i =? i)%nat with false in H
        by (symmetry; apply Nat.eqb_neq; lia).
      apply IH in H. destruct H as (w & s' & -> & Hk & Hnone).
      exists (x :: w), s'. repeat split.
      * simpl length.
        replace (i + S (length w))%nat with (S i + length w)%nat by lia.
        exact Hk.
      * intros [|j] Hj.
        -- rewrite Nat.add_0_r, drop_0. exact HK.
        -- simpl in Hj. simpl drop.
           replace (i + S j)%nat with (S i + j)%nat by lia.
           apply Hnone. lia.
Qed.

(** The look-ahead of the first pattern holds in front of ["##"]. *)
Lemma look_heading (fuel i : nat) (rest : jsstring) (c : captures) :
  matcher fuel true
    (RSeq
       (RLook
          (RAlt (RSeq (RSet [CChar 35]) (RSeq (RSet [CChar 35]) REmpty))
             (RSeq REol REmpty)))
       REmpty)
    i (35%N :: 35%N :: rest) c (fun i' _ c' => Some (i', c'))
  = Some (i, c).
Proof. repeat (rewrite matcher_unfold; simpl). reflexivity. Qed.

(** The look-ahead of the second pattern holds in front of ["##"]. *)
Lemma look_bold_or_heading (fuel i : nat) (rest : jsstring) (c : captures) :
  matcher fuel true
    (RSeq
       (RLook
          (RAlt (RSeq (RSet [CChar 42]) (RSeq (RSet [CChar 42]) REmpty))
             (RAlt (RSeq (RSet [CChar 35]) (RSeq (RSet [CChar 35]) REmpty))
                (RSeq REol REmpty))))
       REmpty)
    i (35%N :: 35%N :: rest) c (fun i' _ c' => Some (i', c'))
  = Some (i, c).
Proof. repeat (rewrite matcher_unfold; simpl). reflexivity. Qed.

(** [section_end look]: behind the lazy capture group, followed by a
    look-ahead that holds in front of ["##"], the group is set to a piece
    of the input without ["##"]. *)
Lemma section_end (look : regex) (fuel i e : nat) (s : jsstring)
    (c c' : captures) :
  1%nat ∉ group_numbers look ->
  (forall fuel i rest c,
     matcher fuel true (RSeq look REmpty) i (35%N :: 35%N :: rest) c
       (fun i' _ c' => Some (i', c')) = Some (i, c)) ->
  matcher fuel true
    (RSeq
       (RGroup 1 (RSeq (RStar false (RSet [CSpace; CNotSpace])) REmpty))
       (RSeq look REmpty))
    i s c (fun i' _ c' => Some (i', c')) = Some (e, c') ->
  exists g, c' !! 1%nat = Some g /\ clean g /\ within g s.
Proof.
  intros Hgroups Hlook H.
  do 3 (rewrite matcher_unfold in H; cbv beta iota in H).
  apply matcher_lazy in H. destruct H as (w & s' & -> & Hk & Hnone).
  exists w. split; [| split].
  - rewrite matcher_unfold in Hk. rewrite take_matched in Hk.
    apply matcher_captures in Hk. destruct Hk as (i' & s'' & c'' & Heq & Hc).
    injection Heq as _ <-. rewrite Hc.
    + apply lookup_insert_eq.
    + cbn [group_numbers]. rewrite app_nil_r. exact Hgroups.
  - intros pre post ->. specialize (Hnone (length pre)).
    rewrite length_app in Hnone. simpl length in Hnone.
    specialize (Hnone ltac:(lia)).
    rewrite <- app_assoc, drop_app_length in Hnone.
    rewrite matcher_unfold in Hnone. simpl app in Hnone.
    rewrite Hlook in Hnone. discriminate.
  - exists [], s'. reflexivity.
Qed.

(** [section_tail r]: a match of [r] sets the first group to a piece of
    the input without ["##"]. *)
Local Abbreviation section_tail r :=
  (forall (fuel i e : nat) (s : jsstring) (c c' : captures),
     matcher fuel true r i s c (fun i' _ c' => Some (i', c')) = Some (e, c') ->
     exists g : jsstring, c' !! 1%nat = Some g /\ clean g /\ within g s).

Lemma section_tail_seq (r1 r2 : regex) :
  section_tail r2 -> section_tail (RSeq r1 r2).
Proof.
  intros H2 fuel i e s c c' H. rewrite matcher_unfold in H.
  apply matcher_reaches in H. destruct H as (i' & c1 & _ & _ & H).
  apply H2 in H. destruct H as (g & Hg & Hclean & a & b & Hs).
  exists g. split; [exact Hg |]. split; [exact Hclean |].
  exists (take (i' - i) s ++ a), b.
  rewrite <- (take_drop (i' - i) s) at 1. rewrite Hs, <- app_assoc.
  reflexivity.
Qed.

(** [section_group r]: a match of [r], if it sets the first group, sets
    it to a piece of the input without ["##"]. *)
Local Abbreviation section_group r :=
  (forall (fuel i e : nat) (s : jsstring) (c : captures) (g : jsstring),
     matcher fuel true r i s ∅ (fun i' _ c' => Some (i', c')) = Some (e, c) ->
     c !! 1%nat = Some g -> clean g /\ within g s).

Lemma section_group_tail (r : regex) : section_tail r -> section_group r.
Proof.
  intros Hr fuel i e s c g H Hg. apply Hr in H.
  destruct H as (g' & Hg' & Hclean & Hin).
  rewrite Hg in Hg'. injection Hg' as <-. split; assumption.
Qed.

Lemma section_group_none (r : regex) :
  1%nat ∉ group_numbers r -> section_group r.
Proof.
  intros Hr fuel i e s c g H Hg. exfalso.
  apply matcher_captures in H. destruct H as (i' & s' & c' & Heq & Hc).
  injection Heq as _ ->. rewrite (Hc 1%nat Hr), lookup_empty in Hg.
  discriminate.
Qed.

Lemma section_group_alt (r1 r2 : regex) :
  section_group r1 -> section_group r2 -> section_group (RAlt r1 r2).
Proof.
  intros H1 H2 fuel i e s c g H Hg.
  rewrite matcher_unfold in H.
  destruct (matcher fuel true r1 i s ∅ _) as [res1|] eqn:Hm1.
  - injection H as ->. apply (H1 _ _ _ _ _ _ Hm1 Hg).
  - apply (H2 _ _ _ _ _ _ H Hg).
Qed.

Lemma trim_within (g : jsstring) : within (trim g) g.
Proof.
  unfold trim, trimEnd.
  destruct (trimStart_suffix g) as [a Ha].
  destruct (trimStart_suffix (rev (trimStart g))) as [b Hb].
  exists a, (rev b). rewrite Ha at 1. f_equal.
  rewrite <- rev_app_distr, <- Hb, rev_involutive. reflexivity.
Qed.

Lemma trim_idempotent (g : jsstring) : trim (trim g) = trim g.
Proof.
  destruct (rev (trim g)) as [|c r] eqn:Hrev.
  { apply (f_equal (@rev N)) in Hrev. rewrite rev_involutive in Hrev.
    rewrite Hrev. reflexivity. }
  apply (trim_fixed _ c r Hrev).
  - unfold trim, trimEnd in Hrev. rewrite rev_involutive in Hrev.
    apply (trimStart_head _ _ _ Hrev).
  - intros d q Hd. unfold trim, trimEnd in Hd.
    destruct (trimStart_suffix (rev (trimStart g))) as [b Hb].
    apply (f_equal (@rev N)) in Hb. rewrite rev_involutive, rev_app_distr in Hb.
    rewrite Hd in Hb. simpl in Hb.
    apply (trimStart_head g d (q ++ rev b) Hb).
Qed.

(** A section that is found is the trimmed first group of a match. *)
Lemma first_section_clean (text : jsstring) (patterns : list regex)
    (sec : jsstring) :
  Forall (fun p => section_group p) patterns ->
  SynthesisDashboard.first_section text patterns = Some sec ->
  within sec text /\ clean sec /\ trim sec = sec.
Proof.
  induction 1 as [|p ps Hp _ IH]; simpl; [discriminate |].
  destruct (match_ true p text) as [m|] eqn:Hm; [| exact IH].
  destruct (groups m !! 1%nat) as [g|] eqn:Hg; [| exact IH].
  destruct (truthy_str g); [| exact IH]. intros Hsec. injection Hsec as <-.
  apply exec_found in Hm. destruct Hm as (_ & _ & _ & _ & Hm).
  destruct (Hp _ _ _ _ _ _ Hm Hg) as (Hclean & a & b & Hdrop).
  destruct (trim_within g) as (a' & b' & Hgtrim).
  split; [| split].
  - exists (take (index m) text ++ a ++ a'), (b' ++ b).
    rewrite <- (take_drop (index m) text) at 1.
    rewrite Hdrop. rewrite Hgtrim at 1.
    rewrite <- !app_assoc. reflexivity.
  - intros pre post Hpp. apply (Hclean (a' ++ pre) (post ++ b')).
    rewrite Hgtrim at 1. rewrite Hpp, <- !app_assoc. reflexivity.
  - apply trim_idempotent.
Qed.

Ltac section_ends :=
  repeat first
    [ apply section_group_alt
    | apply section_group_none; apply (proj1 (bool_decide_eq_false _));
      vm_compute; reflexivity
    | apply section_group_tail ];
  repeat first
    [ intros fuel i e s c c' H;
      apply (fun Hgroups Hlook => section_end _ fuel i e s c c' Hgroups Hlook H);
      [ apply (proj1 (bool_decide_eq_false _)); vm_compute; reflexivity
      | first [exact look_heading | exact look_bold_or_heading] ]
    | apply section_tail_seq ].

(** X16: a section that [extractSection] finds is a piece of the text
    with no white space around it, and it stops in front of the next
    heading: it holds no ["##"]. *)
Theorem extractSection_stops_at_heading (text sec name : jsstring) :
  name ∈ [ str "Consensus|Points? of Consensus";
           str "Divergence|Disagreements?|Points? of Divergence";
           str "Critical Risks?|Risques Critiques";
           str "Alternative Scenarios?|Scénarios Alternatifs" ] ->
  SynthesisDashboard.extractSection text name = Some sec ->
  (exists a b, text = a ++ sec ++ b)
  /\ (forall pre post, sec <> pre ++ str "##" ++ post)
  /\ trim sec = sec.
Proof.
  intros Hin. unfold SynthesisDashboard.extractSection.
  evaluated (str "##"). cbn [app].
  repeat (apply elem_of_cons in Hin; destruct Hin as [-> | Hin]).
  - evaluated (SynthesisDashboard.section_patterns (str "Consensus|Points? of Consensus")).
    apply first_section_clean.
    constructor; [section_ends | constructor; [section_ends | constructor]].
  - evaluated (SynthesisDashboard.section_patterns (str "Divergence|Disagreements?|Points? of Divergence")).
    apply first_section_clean.
    constructor; [section_ends | constructor; [section_ends | constructor]].
  - evaluated (SynthesisDashboard.section_patterns (str "Critical Risks?|Risques Critiques")).
    apply first_section_clean.
    constructor; [section_ends | constructor; [section_ends | constructor]].
  - evaluated (SynthesisDashboard.section_patterns (str "Alternative Scenarios?|Scénarios Alternatifs")).
    apply first_section_clean.
    constructor; [section_ends | constructor; [section_ends | constructor]].
  - apply elem_of_nil in Hin. contradiction.
Qed.

Lemma extractSection_stops_at_heading_witness :
  exists sec,
    SynthesisDashboard.extractSection Samples.synthesis_text
      (str "Critical Risks?|Risques Critiques") = Some sec
    /\ (exists a b, Samples.synthesis_text = a ++ sec ++ b)
    /\ (forall pre post, sec <> pre ++ str "##" ++ post)
    /\ trim sec = sec.
Proof.
  eexists. split.
  - vm_compute. reflexivity.
  - eapply (extractSection_stops_at_heading Samples.synthesis_text _
              (str "Critical Risks?|Risques Critiques")).
    + do 2 apply list_elem_of_further. apply list_elem_of_here.
    + vm_compute. reflexivity.
Defined.

End SectionEndFacts.

Section CriterionFacts.

Import RegExp.

(** A literal word in front of a pattern takes the word, letter case
    apart, and the rest of the pattern goes on behind it. *)
Lemma matcher_word (tail : regex) (w : jsstring) :
  forall (fuel i : nat) (s : jsstring) (c : captures)
         (k : nat -> jsstring -> captures -> option (nat * captures))
         (res : nat * captures),
    matcher fuel true (fold_right (fun a r => RSeq (RSet [CChar a]) r) tail w)
      i s c k = Some res ->
    exists mid s',
      s = mid ++ s' /\ map canonicalize mid = map canonicalize w
      /\ matcher fuel true tail (i + length mid)%nat s' c k = Some res.
Proof.
  induction w as [|a w IH]; intros fuel i s c k res H.
  - exists [], s. rewrite Nat.add_0_r. repeat split. exact H.
  - cbn [fold_right] in H.
    do 2 (rewrite matcher_unfold in H; cbv beta iota in H).
    destruct s as [|x s']; [discriminate |].
    cbn [existsb in_cset] in H. rewrite orb_false_r in H.
    destruct (N.eqb_spec (canonicalize a) (canonicalize x)) as [Hx|];
      [| discriminate].
    apply IH in H. destruct H as (mid & post & -> & Hmid & H).
    exists (x :: mid), post. split; [reflexivity |]. split.
    + cbn [map]. rewrite Hmid, Hx. reflexivity.
    + simpl length.
      replace (i + S (length mid))%nat with (S i + length mid)%nat by lia.
      exact H.
Qed.

(** [starts_with_any ws t]: the string starts with one of the words,
    letter case apart. *)
Local Abbreviation starts_with_any ws t :=
  (exists w mid rest : jsstring,
     w ∈ ws /\ t%list = mid ++ rest
     /\ map canonicalize mid = map canonicalize w).

(** [leads r ws]: what [r] matches in front of any pattern starts with
    one of the words. *)
Local Abbreviation leads r ws :=
  (forall (fuel i : nat) (s : jsstring) (c : captures)
          (k : nat -> jsstring -> captures -> option (nat * captures))
          (res : nat * captures),
     matcher fuel true r i s c k = Some res ->
     exists w mid s' c',
       w ∈ ws /\ s = mid ++ s' /\ map canonicalize mid = map canonicalize w
       /\ k (i + length mid)%nat s' c' = Some res).

Lemma leads_word (w : jsstring) (ws : list jsstring) :
  w ∈ ws ->
  leads (fold_right (fun a r => RSeq (RSet [CChar a]) r) REmpty w) ws.
Proof.
  intros Hw fuel i s c k res H. apply matcher_word in H.
  destruct H as (mid & s' & -> & Hmid & H). rewrite matcher_unfold in H.
  exists w, mid, s', c. repeat split; assumption.
Qed.

Lemma leads_alt (r1 r2 : regex) (ws : list jsstring) :
  leads r1 ws -> leads r2 ws -> leads (RAlt r1 r2) ws.
Proof.
  intros H1 H2 fuel i s c k res H. rewrite matcher_unfold in H.
  destruct (matcher fuel true r1 i s c k) as [res1|] eqn:Hm1.
  - injection H as <-. apply (H1 _ _ _ _ _ _ Hm1).
  - apply (H2 _ _ _ _ _ _ H).
Qed.

(** Every match of the score pattern starts with the name of a
    criterion. *)
Lemma scorePattern_leads (fuel i e : nat) (s : jsstring) (c : captures) :
  matcher fuel true SynthesisDashboard.scorePattern i s ∅
    (fun i' _ c' => Some (i', c')) = Some (e, c) ->
  starts_with_any
    [ str "Feasibility"; str "Risk"; str "Financial"; str "Regulatory";
      str "Strategic" ]
    (take (e - i) s).
Proof.
  evaluated [ str "Feasibility"; str "Risk"; str "Financial";
              str "Regulatory"; str "Strategic" ].
  evaluated SynthesisDashboard.scorePattern.
  intros H. rewrite matcher_unfold in H.
  assert (Hleads : forall A B C D E : jsstring,
             leads
               (RAlt (fold_right (fun a r => RSeq (RSet [CChar a]) r) REmpty A)
                  (RAlt (fold_right (fun a r => RSeq (RSet [CChar a]) r) REmpty B)
                     (RAlt (fold_right (fun a r => RSeq (RSet [CChar a]) r) REmpty C)
                        (RAlt (fold_right (fun a r => RSeq (RSet [CChar a]) r) REmpty D)
                           (fold_right (fun a r => RSeq (RSet [CChar a]) r) REmpty E)))))
               [A; B; C; D; E]).
  { intros A B C D E.
    repeat apply leads_alt; apply leads_word.
    - apply list_elem_of_here.
    - apply list_elem_of_further, list_elem_of_here.
    - do 2 apply list_elem_of_further. apply list_elem_of_here.
    - do 3 apply list_elem_of_further. apply list_elem_of_here.
    - do 4 apply list_elem_of_further. apply list_elem_of_here. }
  let A := eval vm_compute in (str "Feasibility") in
  let B := eval vm_compute in (str "Risk") in
  let C := eval vm_compute in (str "Financial") in
  let D := eval vm_compute in (str "Regulatory") in
  let E := eval vm_compute in (str "Strategic") in
  apply (Hleads A B C D E) in H.
  destruct H as (w & mid & s' & c' & Hw & -> & Hmid & H).
  apply matcher_reaches in H. destruct H as (i' & c'' & Hi' & _ & Heq).
  injection Heq as -> _.
  exists w, mid, (take (e - i - length mid) s').
  split; [exact Hw |]. split; [| exact Hmid].
  rewrite take_app. rewrite take_ge by lia. reflexivity.
Qed.

(** [no_separator t]: the string holds neither [:] nor [)]. *)
Local Abbreviation no_separator t :=
  (Forall (fun x : N => x <> 58%N /\ x <> 41%N) t).

Lemma separator_pattern :
  compile (str "[:)]") = RSeq (RSet [CChar 58; CChar 41]) REmpty.
Proof. vm_compute. reflexivity. Qed.

(** The search for [/[:)]/] stops at the first [:] or [)]. *)
Lemma search_separator (fuel : nat) (t : jsstring) :
  forall (i : nat),
    match search fuel false (RSeq (RSet [CChar 58; CChar 41]) REmpty) i t with
    | Some m =>
      exists a x b,
        t = a ++ x :: b /\ index m = (i + length a)%nat /\ no_separator a
        /\ (x = 58%N \/ x = 41%N)
    | None => no_separator t
    end.
Proof.
  induction t as [|x t IH]; intros i; cbn [search];
    do 2 (rewrite matcher_unfold; cbv beta iota).
  - constructor.
  - cbn [existsb in_cset]. rewrite orb_false_r.
    destruct (N.eqb_spec 58 x) as [H58 | H58];
      [| destruct (N.eqb_spec 41 x) as [H41 | H41]]; cbn [orb].
    + rewrite matcher_unfold. exists [], x, t. rewrite Nat.add_0_r.
      repeat split; [constructor | left; symmetry; exact H58].
    + rewrite matcher_unfold. exists [], x, t. rewrite Nat.add_0_r.
      repeat split; [constructor | right; symmetry; exact H41].
    + specialize (IH (S i)).
      destruct (search fuel false (RSeq (RSet [CChar 58; CChar 41]) REmpty)
                  (S i) t) as [m|].
      * destruct IH as (a & y & b & -> & Hidx & Ha & Hy).
        exists (x :: a), y, b. repeat split.
        -- rewrite Hidx. simpl. lia.
        -- constructor; [split; congruence | exact Ha].
        -- exact Hy.
      * constructor; [split; congruence | exact IH].
Qed.

(** [t.split(/[:)]/)[0]]: the part of [t] before its first [:] or [)],
    all of [t] when it has none. *)
Lemma split_head_separator (t : jsstring) :
  exists a b,
    t = a ++ b /\ split_head false (compile (str "[:)]")) t = a
    /\ no_separator a
    /\ (b = [] \/ exists x b', b = x :: b' /\ (x = 58%N \/ x = 41%N)).
Proof.
  unfold split_head, match_, exec. rewrite separator_pattern.
  replace (length t <? 0)%nat with false by (symmetry; apply Nat.ltb_ge; lia).
  rewrite drop_0.
  pose proof (search_separator (S (length t)) t 0) as H.
  destruct (search (S (length t)) false _ 0 t) as [m|].
  - destruct H as (a & x & b & -> & Hidx & Ha & Hx).
    exists a, (x :: b). rewrite Hidx. simpl.
    rewrite take_app_length. repeat split; [exact Ha |].
    right. exists x, b. split; [reflexivity | exact Hx].
  - exists t, []. rewrite app_nil_r. repeat split; [exact H | left; reflexivity].
Qed.

(** A character that is a letter of Basic Latin, letter case apart. *)
Lemma canonicalize_letter (x a : N) :
  canonicalize x = canonicalize a ->
  (65 <= a <= 90 \/ 97 <= a <= 122)%N ->
  (65 <= x <= 90 \/ 97 <= x <= 122)%N.
Proof.
  intros H Ha.
  assert (Hca : (65 <= canonicalize a <= 90)%N).
  { unfold canonicalize.
    destruct ((97 <=? a) && (a <=? 122))%N eqn:H1.
    { apply andb_true_iff in H1. destruct H1 as [Hl Hu].
      apply N.leb_le in Hl, Hu. lia. }
    assert (Hup : (65 <= a <= 90)%N).
    { destruct Ha as [Ha | Ha]; [exact Ha |].
      exfalso. destruct Ha as [Hl Hu].
      apply N.leb_le in Hl, Hu. rewrite Hl, Hu in H1. discriminate. }
    destruct ((224 <=? a) && (a <=? 254) && negb (a =? 247))%N eqn:H2.
    { apply andb_true_iff in H2. destruct H2 as [H2 _].
      apply andb_true_iff in H2. destruct H2 as [Hl Hu].
      apply N.leb_le in Hl, Hu. lia. }
    destruct (N.eqb_spec a 181); [lia |].
    destruct (N.eqb_spec a 255); [lia |]. exact Hup. }
  rewrite <- H in Hca. clear H Ha. unfold canonicalize in Hca.
  destruct ((97 <=? x) && (x <=? 122))%N eqn:H1.
  { apply andb_true_iff in H1. destruct H1 as [Hl Hu].
    apply N.leb_le in Hl, Hu. right. lia. }
  destruct ((224 <=? x) && (x <=? 254) && negb (x =? 247))%N eqn:H2.
  { apply andb_true_iff in H2. destruct H2 as [H2 _].
    apply andb_true_iff in H2. destruct H2 as [Hl Hu].
    apply N.leb_le in Hl, Hu. lia. }
  destruct (N.eqb_spec x 181); [lia |].
  destruct (N.eqb_spec x 255); [lia |]. left. exact Hca.
Qed.

Lemma canonicalize_letters (mid w : jsstring) :
  map canonicalize mid = map canonicalize w ->
  Forall (fun a => (65 <= a <= 90 \/ 97 <= a <= 122)%N) w ->
  Forall (fun x => (65 <= x <= 90 \/ 97 <= x <= 122)%N) mid.
Proof.
  revert w. induction mid as [|x mid IH]; intros [|a w] Hmap Hw;
    try discriminate; constructor.
  - injection Hmap as Hx _. inversion Hw as [|? ? Ha _]; subst.
    apply (canonicalize_letter x a Hx Ha).
  - injection Hmap as _ Hmap. inversion Hw; subst. apply (IH w); assumption.
Qed.

Lemma letter_not_space (x : N) :
  (65 <= x <= 90 \/ 97 <= x <= 122)%N -> is_space x = false.
Proof.
  intros Hx. unfold is_space.
  assert (H13 : (x <=? 13)%N = false) by (apply N.leb_gt; lia).
  assert (H8192 : (8192 <=? x)%N = false) by (apply N.leb_gt; lia).
  rewrite H13, H8192, andb_false_r. cbn [andb orb].
  repeat match goal with
         | |- context [(x =? ?b)%N] =>
           replace (x =? b)%N with false by (symmetry; apply N.eqb_neq; lia)
         end.
  reflexivity.
Qed.

(** A prefix without separators lies before the first separator. *)
Lemma prefix_before_separator (mid rest a b : jsstring) :
  mid ++ rest = a ++ b -> no_separator mid ->
  (b = [] \/ exists x b', b = x :: b' /\ (x = 58%N \/ x = 41%N)) ->
  exists a', a = mid ++ a'.
Proof.
  revert a. induction mid as [|x mid IH]; intros a Heq Hmid Hb.
  - exists a. reflexivity.
  - inversion Hmid as [|? ? [H58 H41] Hmid']; subst.
    destruct a as [|y a].
    + exfalso. simpl in Heq. destruct Hb as [-> | (z & b' & -> & Hz)];
        [discriminate |].
      injection Heq as -> _. destruct Hz; congruence.
    + simpl in Heq. injection Heq as -> Heq.
      destruct (IH a Heq Hmid' Hb) as [a' ->]. exists a'. reflexivity.
Qed.

(** White space in front of a string that ends a longer one is trimmed
    off without touching that string, when it starts with a character
    that is not white space. *)
Lemma trimStart_app_keep (p q : jsstring) (d : N) (q' : jsstring) :
  q = d :: q' -> is_space d = false ->
  exists p', trimStart (p ++ q) = p' ++ q.
Proof.
  intros -> Hd. induction p as [|x p [p' IH]]; simpl.
  - rewrite Hd. exists []. reflexivity.
  - destruct (is_space x).
    + exists p'. exact IH.
    + exists (x :: p). reflexivity.
Qed.

(** [trim] keeps a prefix that starts and ends with characters that are
    not white space. *)
Lemma trim_keeps_prefix (mid rest : jsstring) :
  mid <> [] -> Forall (fun x => is_space x = false) mid ->
  exists rest', trim (mid ++ rest) = mid ++ rest'.
Proof.
  intros Hne Hmid. unfold trim, trimEnd.
  assert (Hstart : trimStart (mid ++ rest) = mid ++ rest).
  { destruct mid as [|x mid]; [contradiction |].
    inversion Hmid as [|? ? Hx _]; subst. simpl. rewrite Hx. reflexivity. }
  rewrite Hstart, rev_app_distr.
  destruct (rev mid) as [|d q'] eqn:Hrev.
  { exfalso. apply Hne. rewrite <- (rev_involutive mid), Hrev. reflexivity. }
  assert (Hd : is_space d = false).
  { rewrite Forall_forall in Hmid. apply Hmid.
    apply list_elem_of_In, in_rev. rewrite Hrev. left. reflexivity. }
  destruct (trimStart_app_keep (rev rest) (d :: q') d q' eq_refl Hd) as [p' Hp'].
  rewrite Hp', rev_app_distr, <- Hrev, rev_involutive.
  exists (rev p'). reflexivity.
Qed.

Lemma scores_loop_criteria (text : jsstring) (fuel lastIndex : nat) :
  Forall (fun item =>
            starts_with_any
              [ str "Feasibility"; str "Risk"; str "Financial";
                str "Regulatory"; str "Strategic" ]
              (SynthesisDashboard.criterion item)
            /\ no_separator (SynthesisDashboard.criterion item))
         (SynthesisDashboard.scores_loop text fuel lastIndex).
Proof.
  revert lastIndex. induction fuel as [|fuel IH]; intros L; simpl;
    [constructor |].
  destruct (exec true SynthesisDashboard.scorePattern text L) as [m|] eqn:Hm;
    [| constructor].
  constructor; [| apply IH].
  cbn [SynthesisDashboard.criterion].
  apply exec_found in Hm. destruct Hm as (_ & _ & _ & Hwhole & Hm).
  apply scorePattern_leads in Hm.
  destruct Hm as (w & mid & rest & Hw & Htake & Hmid).
  rewrite <- Hwhole in Htake.
  destruct (split_head_separator (whole m)) as (a & b & Hab & -> & Ha & Hb).
  assert (Hletters : Forall (fun x => (65 <= x <= 90 \/ 97 <= x <= 122)%N) mid).
  { apply (canonicalize_letters mid w Hmid).
    clear -Hw.
    repeat (apply elem_of_cons in Hw; destruct Hw as [-> | Hw];
            [apply (proj1 (bool_decide_eq_true _)); vm_compute; reflexivity |]).
    apply elem_of_nil in Hw. contradiction. }
  assert (Hnosep : no_separator mid).
  { eapply Forall_impl; [exact Hletters |]. intros x Hx; cbv beta in *. lia. }
  assert (Hnospace : Forall (fun x => is_space x = false) mid).
  { eapply Forall_impl; [exact Hletters |]. apply letter_not_space. }
  assert (Hne : mid <> []).
  { intros ->. clear -Hw Hmid. destruct w; [| discriminate].
    repeat (apply elem_of_cons in Hw; destruct Hw as [Hw | Hw];
            [vm_compute in Hw; discriminate |]).
    apply elem_of_nil in Hw. contradiction. }
  rewrite Htake in Hab.
  destruct (prefix_before_separator mid rest a b Hab Hnosep Hb) as [a' ->].
  destruct (trim_keeps_prefix mid a' Hne Hnospace) as [rest' Htrim].
  split.
  - exists w, mid, rest'. repeat split; assumption.
  - destruct (trim_within (mid ++ a')) as (u & v & Huv).
    rewrite Huv in Ha. apply Forall_app in Ha. destruct Ha as [_ Ha].
    apply Forall_app in Ha. destruct Ha as [Ha _]. exact Ha.
Qed.

End CriterionFacts.

(** X17: the label of every score that [extractScores] gives starts
    with the name of its criterion (Feasibility, Risk, Financial,
    Regulatory or Strategic, letter case apart) and goes on to the first
    [:] or [)] of the match at most: it holds neither character. *)
Theorem extractScores_criteria (text : jsstring)
    (scores : list SynthesisDashboard.score_item) :
  SynthesisDashboard.extractScores text = Some scores ->
  Forall (fun item =>
            (exists w mid rest : jsstring,
               w ∈ [ str "Feasibility"; str "Risk"; str "Financial";
                     str "Regulatory"; str "Strategic" ]
               /\ SynthesisDashboard.criterion item = mid ++ rest
               /\ map RegExp.canonicalize mid = map RegExp.canonicalize w)
            /\ Forall (fun x => x <> 58%N /\ x <> 41%N)
                      (SynthesisDashboard.criterion item))
         scores.
Proof.
  unfold SynthesisDashboard.extractScores.
  destruct (0 <? length _)%nat; [| discriminate].
  intros H. injection H as <-.
  exact (scores_loop_criteria text (S (length text)) 0).
Qed.

Lemma extractScores_criteria_witness :
  exists scores,
    SynthesisDashboard.extractScores Samples.synthesis_text = Some scores
    /\ Forall (fun item =>
                 Forall (fun x => x <> 58%N /\ x <> 41%N)
                        (SynthesisDashboard.criterion item))
              scores.
Proof.
  eexists. split; [vm_compute; reflexivity |].
  eapply Forall_impl.
  - apply (extractScores_criteria Samples.synthesis_text). vm_compute. reflexivity.
  - intros item H. apply H.
Defined.
